(** * SSML validator (src/validator.js), builder (src/ssml-builder.js)
      and templates (src/templates/index.js): shallow embedding and
      properties

    The validator works on JavaScript strings with regular expressions.
    A string is modelled as [String.string], one [ascii] per code unit
    (code units 0..255).  Regular-expression literals of the source are
    written as syntax trees and run by a backtracking matcher that follows
    the ECMAScript matcher semantics (greedy quantifiers, leftmost match,
    continuation on failure).  A call that does not return is [None]:
    an exec loop whose regular expression matches the empty string would
    see the same match for ever.  Property lookups keyed by text of the
    document see the members of Object.prototype.  The cost estimate is
    computed on binary64 floats.  The builder is a record of the pushed
    elements and the speak flag; its methods return the new builder, a
    method that throws returns the message of the error. *)

From Stdlib Require Import String Ascii List Bool Arith ZArith Lia Floats.
Import ListNotations.
Open Scope string_scope.
Open Scope list_scope.
Open Scope nat_scope.

(** String concatenation, the [+] of JavaScript and the holes of its
    template literals. *)
Infix "+++" := String.append (right associativity, at level 60).

(** ** String.prototype methods used by the validator *)
Module JSString.

(** [s.startsWith(p)] *)
Fixpoint startsWith (s p : string) {struct p} : bool :=
  match p with
  | EmptyString => true
  | String c p' =>
      match s with
      | EmptyString => false
      | String a s' => Ascii.eqb a c && startsWith s' p'
      end
  end.

(** [s.endsWith(p)] *)
Definition endsWith (s p : string) : bool :=
  (String.length p <=? String.length s) &&
  String.eqb (String.substring (String.length s - String.length p) (String.length p) s) p.

(** [s.includes(p)] *)
Fixpoint includes (s p : string) : bool :=
  startsWith s p ||
  match s with
  | EmptyString => false
  | String _ s' => includes s' p
  end.

(** WhiteSpace and LineTerminator code units below 256:
    TAB, LF, VT, FF, CR, SP, NBSP. *)
Definition isWhiteSpace (c : ascii) : bool :=
  let n := nat_of_ascii c in
  ((9 <=? n) && (n <=? 13)) || (n =? 32) || (n =? 160).

Fixpoint trimStart (s : string) : string :=
  match s with
  | EmptyString => EmptyString
  | String c s' => if isWhiteSpace c then trimStart s' else s
  end.

(** Drops trailing white space: a character is kept when it is not white
    space or when something is kept after it. *)
Fixpoint trimEnd (s : string) : string :=
  match s with
  | EmptyString => EmptyString
  | String c s' =>
      match trimEnd s' with
      | EmptyString => if isWhiteSpace c then EmptyString else String c EmptyString
      | t => String c t
      end
  end.

(** [s.trim()] *)
Definition trim (s : string) : string := trimEnd (trimStart s).

(** The double quote, code unit 34. *)
Definition dquote : ascii := "034".

(** [s] between double quotes. *)
Definition quoted (s : string) : string :=
  String dquote (s +++ String dquote EmptyString).

(** [parts.join(sep)] *)
Definition join (sep : string) (parts : list string) : string :=
  String.concat sep parts.

End JSString.

(** ** Regular expressions *)
Module Regex.

(** Members of a character class [[...]]. *)
Inductive citem : Type :=
| CChar (c : ascii)
| CRange (lo hi : ascii)
| CWord                    (* \w *)
| CDigit.                  (* \d *)

Inductive regex : Type :=
| Eps
| Char (c : ascii)
| Class (negated : bool) (items : list citem)
| Seq (r1 r2 : regex)
| Alt (r1 r2 : regex)
| Star (r : regex)         (* r*  *)
| Plus (r : regex)         (* r+  *)
| Opt (r : regex)          (* r?  *)
| Group (n : nat) (r : regex)   (* n-th capturing group *)
| Bol                      (* ^ *)
| Eol.                     (* $ *)

Declare Scope regex_scope.
Delimit Scope regex_scope with re.
Bind Scope regex_scope with regex.
Infix ";;" := Seq (at level 61, right associativity) : regex_scope.

(** A literal run of characters. *)
Fixpoint lit (s : string) : regex :=
  match s with
  | EmptyString => Eps
  | String c s' => Seq (Char c) (lit s')
  end.

Definition between (lo hi : nat) (c : ascii) : bool :=
  let n := nat_of_ascii c in (lo <=? n) && (n <=? hi).

Definition isDigit (c : ascii) : bool := between 48 57 c.

Definition isWordChar (c : ascii) : bool :=
  between 97 122 c || between 65 90 c || isDigit c || Ascii.eqb c "_".

Definition in_item (i : citem) (c : ascii) : bool :=
  match i with
  | CChar a => Ascii.eqb a c
  | CRange lo hi => between (nat_of_ascii lo) (nat_of_ascii hi) c
  | CWord => isWordChar c
  | CDigit => isDigit c
  end.

Definition in_class (negated : bool) (items : list citem) (c : ascii) : bool :=
  xorb negated (existsb (fun i => in_item i c) items).

(** Matcher state: index of the next code unit, the input from there on,
    and the captures recorded so far (latest first). *)
Record mstate : Type := MState {
  pos : nat;
  rest : string;
  caps : list (nat * string)
}.

Definition cont : Type := mstate -> option mstate.

Definition step_char (p : ascii -> bool) (k : cont) (st : mstate) : option mstate :=
  match rest st with
  | EmptyString => None
  | String a s' => if p a then k (MState (S (pos st)) s' (caps st)) else None
  end.

Definition orelse (a : option mstate) (b : option mstate) : option mstate :=
  match a with
  | Some x => Some x
  | None => b
  end.

(** Greedy iteration, ECMAScript RepeatMatcher with min = 0: one more round
    of [body] is tried first, and a round that consumes nothing is
    rejected; failing that, the continuation runs.  Every accepted round
    consumes a character, so [n], the number of characters left, bounds
    the rounds. *)
Fixpoint repeat_greedy (body : cont -> cont) (k : cont) (n : nat) (st : mstate)
  : option mstate :=
  match n with
  | 0 => k st
  | S n' =>
      orelse
        (body (fun st' => if pos st <? pos st' then repeat_greedy body k n' st' else None) st)
        (k st)
  end.

Fixpoint run (r : regex) (k : cont) (st : mstate) {struct r} : option mstate :=
  match r with
  | Eps => k st
  | Char c => step_char (Ascii.eqb c) k st
  | Class neg items => step_char (in_class neg items) k st
  | Seq a b => run a (run b k) st
  | Alt a b => orelse (run a k st) (run b k st)
  | Star a => repeat_greedy (run a) k (String.length (rest st)) st
  | Plus a =>
      run a (fun st' => repeat_greedy (run a) k (String.length (rest st')) st') st
  | Opt a =>
      orelse (run a (fun st' => if pos st <? pos st' then k st' else None) st) (k st)
  | Group n a =>
      run a (fun st' =>
               k (MState (pos st') (rest st')
                    ((n, String.substring 0 (pos st' - pos st) (rest st)) :: caps st'))) st
  | Bol => if pos st =? 0 then k st else None
  | Eol => match rest st with EmptyString => k st | String _ _ => None end
  end.

(** A match object: [index], [match[0]] and the captures. *)
Record jsmatch : Type := JSMatch {
  m_index : nat;
  m_text : string;
  m_caps : list (nat * string)
}.

Fixpoint assoc (n : nat) (l : list (nat * string)) : option string :=
  match l with
  | [] => None
  | (i, s) :: l' => if i =? n then Some s else assoc n l'
  end.

(** [match[n]] for a group that takes part in every match (none of the
    groups read by the validator is under a quantifier or an alternative). *)
Definition group (n : nat) (mt : jsmatch) : string :=
  match assoc n (m_caps mt) with
  | Some s => s
  | None => EmptyString
  end.

(** The match of [r] that starts exactly at index [i], where [s] is the
    input from [i] on. *)
Definition match_at (r : regex) (i : nat) (s : string) : option jsmatch :=
  match run r Some (MState i s []) with
  | Some st' => Some (JSMatch i (String.substring 0 (pos st' - i) s) (caps st'))
  | None => None
  end.

(** All successive matches of a global regular expression, left to right:
    the leftmost match at or after the current index is taken and the
    search resumes at its end; after an empty match the index advances by
    one (AdvanceStringIndex).  [skip] counts the characters still covered
    by the previous match. *)
Fixpoint scan (r : regex) (skip : nat) (i : nat) (s : string) : list jsmatch :=
  let next (k : nat) : list jsmatch :=
    match s with
    | EmptyString => []
    | String _ s' => scan r k (S i) s'
    end in
  match skip with
  | S k => next k
  | 0 =>
      match match_at r i s with
      | Some mt => mt :: next (String.length (m_text mt) - 1)
      | None => next 0
      end
  end.

(** [s.match(/r/g) || []] *)
Definition matchAll (r : regex) (s : string) : list jsmatch := scan r 0 0 s.

(** [while ((match = re.exec(s)) !== null) { ... }] with a global [re]
    whose [lastIndex] the body leaves alone: the body sees the successive
    matches.  [exec] leaves [lastIndex] where it is after an empty match,
    so the loop then sees the same match for ever: [None]. *)
Definition execLoop (r : regex) (s : string) : option (list jsmatch) :=
  let ms := matchAll r s in
  if existsb (fun mt => String.length (m_text mt) =? 0) ms then None else Some ms.

(** The text between successive matches, with the text before the first
    and after the last one: [s.split(/r/)] for an [r] without capturing
    groups whose matches are not empty. *)
Fixpoint pieces (ms : list jsmatch) (cur : nat) (s : string) : list string :=
  match ms with
  | [] => [String.substring cur (String.length s - cur) s]
  | mt :: ms' =>
      String.substring cur (m_index mt - cur) s
        :: pieces ms' (m_index mt + String.length (m_text mt)) s
  end.

Definition split (r : regex) (s : string) : list string := pieces (matchAll r s) 0 s.

(** [s.replace(/r/g, '')] *)
Definition removeAll (r : regex) (s : string) : string :=
  String.concat EmptyString (split r s).

(** [re.test(s)] for a regular expression without the g flag: is there a
    match starting at some index. *)
Fixpoint test_from (r : regex) (i : nat) (s : string) : bool :=
  match run r Some (MState i s []) with
  | Some _ => true
  | None =>
      match s with
      | EmptyString => false
      | String _ s' => test_from r (S i) s'
      end
  end.

Definition test (r : regex) (s : string) : bool := test_from r 0 s.

(** A match of the whole of [s] by [r]. *)
Definition full_match (r : regex) (s : string) : bool :=
  match run r (fun st => match rest st with EmptyString => Some st | String _ _ => None end)
            (MState 0 s []) with
  | Some _ => true
  | None => false
  end.

(** The least number of characters a match of [r] consumes. *)
Fixpoint min_len (r : regex) : nat :=
  match r with
  | Eps | Bol | Eol => 0
  | Char _ | Class _ _ => 1
  | Seq a b => min_len a + min_len b
  | Alt a b => Nat.min (min_len a) (min_len b)
  | Star _ | Opt _ => 0
  | Plus a => min_len a
  | Group _ a => min_len a
  end.

(** [st'] lies [w] further in the same input than [st], with [w] at
    least [d] characters long. *)
Definition advance (d : nat) (st st' : mstate) : Prop :=
  exists w, rest st = w +++ rest st' /\
            pos st' = pos st + String.length w /\
            d <= String.length w.

(** A matcher is sound for [d] when a success passes through its
    continuation at a state at least [d] characters further on. *)
Definition sound (body : cont -> cont) (d : nat) : Prop :=
  forall k st res, body k st = Some res ->
    exists st', advance d st st' /\ k st' = Some res.

(** A matcher only looks at its continuation further on in the input. *)
Definition local (body : cont -> cont) : Prop :=
  forall k1 k2 st,
    (forall st', advance 0 st st' -> k1 st' = k2 st') -> body k1 st = body k2 st.

(** Every character of [s] satisfies [p]. *)
Fixpoint every (p : ascii -> bool) (s : string) : bool :=
  match s with
  | EmptyString => true
  | String c s' => p c && every p s'
  end.

(** Rounds of [R], each of which moves on in the input. *)
Inductive rounds (R : mstate -> mstate -> Prop) : mstate -> mstate -> Prop :=
| rounds_done (st : mstate) : rounds R st st
| rounds_more (st st1 st2 : mstate) :
    R st st1 -> pos st < pos st1 -> rounds R st1 st2 -> rounds R st st2.

Definition reads (p : ascii -> bool) (st st' : mstate) : Prop :=
  exists a, p a = true /\ rest st = String a (rest st') /\
            pos st' = S (pos st) /\ caps st' = caps st.

(** What a match of [r] from [st] to [st'] is, said without
    continuations. *)
Fixpoint derives (r : regex) (st st' : mstate) : Prop :=
  match r with
  | Eps => st' = st
  | Char c => reads (Ascii.eqb c) st st'
  | Class neg items => reads (in_class neg items) st st'
  | Seq a b => exists mid, derives a st mid /\ derives b mid st'
  | Alt a b => derives a st st' \/ derives b st st'
  | Star a => rounds (derives a) st st'
  | Plus a => exists mid, derives a st mid /\ rounds (derives a) mid st'
  | Opt a => derives a st st' \/ st' = st
  | Group n a =>
      exists inner, derives a st inner /\
        st' = MState (pos inner) (rest inner)
                ((n, String.substring 0 (pos inner - pos st) (rest st)) :: caps inner)
  | Bol => st' = st /\ pos st = 0
  | Eol => st' = st /\ rest st = EmptyString
  end.

(** The matcher only finds matches that [derives] allows. *)
Definition faithful (body : cont -> cont) (R : mstate -> mstate -> Prop) : Prop :=
  forall k st res, body k st = Some res -> exists st', R st st' /\ k st' = Some res.

End Regex.

(** ** The validator *)
Module Validator.
Import JSString Regex.
Local Open Scope regex_scope.

(** *** Schema tables of the constructor *)

Definition supportedTags : list string :=
  [ "speak"; "break"; "emphasis"; "lang"; "mark"; "p"; "s"; "phoneme";
    "prosody"; "say-as"; "sub"; "voice"; "audio"; "lexicon";
    "amazon:breath"; "amazon:auto-breaths"; "amazon:effect" ].

(** [set.has(x)] *)
Definition has (set : list string) (x : string) : bool :=
  existsb (String.eqb x) set.

(** Own property of an object literal. *)
Fixpoint own {A : Type} (obj : list (string * A)) (key : string) : option A :=
  match obj with
  | [] => None
  | (k, v) :: obj' => if String.eqb k key then Some v else own obj' key
  end.

Definition requiredAttributes : list (string * list string) :=
  [ ("phoneme", ["alphabet"; "ph"]);
    ("say-as", ["interpret-as"]);
    ("sub", ["alias"]);
    ("voice", ["name"]);
    ("audio", ["src"]);
    ("lexicon", ["name"]) ].

(** One entry of an array of legal values: a string or a RegExp. *)
Inductive alternative : Type :=
| Lit (s : string)
| Pat (r : regex).

(** The value of an attribute's entry: an array or a single RegExp. *)
Inductive constraint : Type :=
| OneOf (alts : list alternative)
| Pattern (r : regex).

Definition digits : regex := Plus (Class false [CDigit]).
(** [\d+(\.\d+)?] *)
Definition number : regex := digits ;; Opt (Group 1 (Char "." ;; digits)).
(** [[\+\-]] *)
Definition sign : regex := Class false [CChar "+"; CChar "-"].
(** [^body$] *)
Definition anchored (body : regex) : regex := Bol ;; body ;; Eol.

Definition strings (l : list string) : list alternative := map Lit l.

Definition validAttributeValues : list (string * list (string * constraint)) :=
  [ ("break",
      [ ("strength", OneOf (strings ["none"; "x-weak"; "weak"; "medium"; "strong"; "x-strong"]));
        ("time", Pattern (anchored (number ;; Group 2 (Alt (lit "ms") (lit "s"))))) ]);
    ("emphasis",
      [ ("level", OneOf (strings ["strong"; "moderate"; "reduced"])) ]);
    ("prosody",
      [ ("rate", OneOf (strings ["x-slow"; "slow"; "medium"; "fast"; "x-fast"]
                        ++ [ Pat (anchored (number ;; Char "%"));
                             Pat (anchored (sign ;; number ;; Char "%")) ]));
        ("pitch", OneOf (strings ["x-low"; "low"; "medium"; "high"; "x-high"]
                         ++ [ Pat (anchored (sign ;; number ;; lit "Hz"));
                              Pat (anchored (sign ;; number ;; Char "%")) ]));
        ("volume", OneOf (strings ["silent"; "x-soft"; "soft"; "medium"; "loud"; "x-loud"]
                          ++ [ Pat (anchored (sign ;; number ;; lit "dB")) ])) ]);
    ("say-as",
      [ ("interpret-as",
         OneOf (strings ["characters"; "spell-out"; "cardinal"; "number"; "ordinal";
                         "digits"; "fraction"; "unit"; "date"; "time"; "telephone";
                         "address"; "interjection"; "expletive"])) ]);
    ("phoneme",
      [ ("alphabet", OneOf (strings ["ipa"; "x-sampa"])) ]);
    ("amazon:breath",
      [ ("duration", OneOf (strings ["default"; "x-short"; "short"; "medium"; "long"; "x-long"])) ]);
    ("amazon:auto-breaths",
      [ ("volume", OneOf (strings ["default"; "x-soft"; "soft"; "medium"; "loud"; "x-loud"]));
        ("frequency", OneOf (strings ["default"; "x-low"; "low"; "medium"; "high"; "x-high"]));
        ("duration", OneOf (strings ["default"; "x-short"; "short"; "medium"; "long"; "x-long"])) ]);
    ("amazon:effect",
      [ ("name", OneOf (strings ["whispered"])) ]) ].

(** Names every object literal inherits from Object.prototype. *)
Definition objectPrototype : list string :=
  [ "constructor"; "__defineGetter__"; "__defineSetter__"; "hasOwnProperty";
    "__lookupGetter__"; "__lookupSetter__"; "isPrototypeOf";
    "propertyIsEnumerable"; "toString"; "valueOf"; "__proto__"; "toLocaleString" ].

(** What [table[attrName]] evaluates to, for [attrName] read from the
    document: the table's own entry, a member of Object.prototype (a
    function or object: truthy, neither an array nor a RegExp), or
    undefined. *)
Inductive property : Type :=
| Own (c : constraint)
| Inherited
| Undefined.

Definition getProperty (table : list (string * constraint)) (attrName : string) : property :=
  match own table attrName with
  | Some c => Own c
  | None => if has objectPrototype attrName then Inherited else Undefined
  end.

(** *** Regular-expression literals *)

(** [[a-zA-Z:-]] *)
Definition nameChar : regex :=
  Class false [CRange "a" "z"; CRange "A" "Z"; CChar ":"; CChar "-"].
(** [[^>]] *)
Definition notGt : regex := Class true [CChar ">"].

(** [/<speak[^>]*>/g] *)
Definition speakOpenRegex : regex := lit "<speak" ;; Star notGt ;; Char ">".
(** [/<\/speak>/g] *)
Definition speakCloseRegex : regex := lit "</speak>".
(** [/<\/?([a-zA-Z:-]+)[^>]*>/g] *)
Definition tagRegex : regex :=
  Char "<" ;; Opt (Char "/") ;; Group 1 (Plus nameChar) ;; Star notGt ;; Char ">".
(** [/<([a-zA-Z:-]+)( [^>]* )>/g] (the second group is [[^>]] starred) *)
Definition openTagRegex : regex :=
  Char "<" ;; Group 1 (Plus nameChar) ;; Group 2 (Star notGt) ;; Char ">".
(** The attribute pattern: group 1 is [[\w-]+], then an equals sign and
    a double quote, group 2 is any run without a double quote, then the
    closing double quote. *)
Definition attrRegex : regex :=
  Group 1 (Plus (Class false [CWord; CChar "-"])) ;; Char "=" ;; Char dquote ;;
  Group 2 (Star (Class true [CChar dquote])) ;; Char dquote.
(** [/<[^>]*>/g] *)
Definition anyTagRegex : regex := Char "<" ;; Star notGt ;; Char ">".
(** [/<break[^>]*>/] *)
Definition breakRegex : regex := lit "<break" ;; Star notGt ;; Char ">".

(** *** The report *)

Inductive EstimatedCost : Type :=
| Unset                                         (* the initial number 0 *)
| Rates (standard neural : PrimFloat.float).    (* { standard, neural } *)

Record Info : Type := mkInfo {
  characterCount : nat;
  tagCount : nat;
  estimatedCost : EstimatedCost
}.

Record ValidationReport : Type := mkReport {
  valid : bool;
  errors : list string;
  warnings : list string;
  info : Info
}.

(** [result.errors.push(msg)] *)
Definition pushError (msg : string) (result : ValidationReport) : ValidationReport :=
  mkReport (valid result) (errors result ++ [msg]) (warnings result) (info result).

(** [result.warnings.push(msg)] *)
Definition pushWarning (msg : string) (result : ValidationReport) : ValidationReport :=
  mkReport (valid result) (errors result) (warnings result ++ [msg]) (info result).

(** A loop whose body may fail to return. *)
Fixpoint foldM {A B : Type} (f : A -> B -> option A) (l : list B) (a : A) : option A :=
  match l with
  | [] => Some a
  | x :: l' =>
      match f a x with
      | Some a' => foldM f l' a'
      | None => None
      end
  end.

Definition bind {A B : Type} (a : option A) (f : A -> option B) : option B :=
  match a with
  | Some x => f x
  | None => None
  end.

(** *** Pass 1: [_validateBasicStructure] *)
Definition _validateBasicStructure (ssml : string) (result : ValidationReport)
  : ValidationReport :=
  let trimmed := trim ssml in
  let result :=
    if negb (startsWith trimmed "<speak")
    then pushError "SSML must start with <speak> tag" result else result in
  let result :=
    if negb (endsWith trimmed "</speak>")
    then pushError "SSML must end with </speak> tag" result else result in
  let speakOpenCount := List.length (matchAll speakOpenRegex ssml) in
  let speakCloseCount := List.length (matchAll speakCloseRegex ssml) in
  let result :=
    if negb (speakOpenCount =? speakCloseCount)
    then pushError "Unbalanced <speak> tags" result else result in
  if 1 <? speakOpenCount
  then pushError "Multiple <speak> tags found - only one is allowed" result
  else result.

(** *** Pass 2: [_validateXMLStructure] *)

(** One round of the while loop; [stack] is the array, bottom first. *)
Definition xmlTag (st : list string * ValidationReport) (mt : jsmatch)
  : list string * ValidationReport :=
  let '(stack, result) := st in
  let fullTag := m_text mt in
  let tagName := group 1 mt in
  if includes fullTag "/>" && negb (startsWith fullTag "</") then
    (stack, result)
  else if startsWith fullTag "</" then
    if List.length stack =? 0 then
      (stack, pushError ("Unexpected closing tag: " +++ fullTag) result)
    else
      let lastTag := List.last stack EmptyString in
      let stack := List.removelast stack in
      if negb (String.eqb lastTag tagName) then
        (stack, pushError ("Mismatched tags: expected </" +++ lastTag +++ ">, found " +++ fullTag)
                  result)
      else (stack, result)
  else
    (stack ++ [tagName], result).

Definition unclosed (stack : list string) (result : ValidationReport) : ValidationReport :=
  if 0 <? List.length stack then
    pushError ("Unclosed tags: " +++ join ", " (map (fun tag => "<" +++ tag +++ ">") stack))
      result
  else result.

Definition _validateXMLStructure (ssml : string) (result : ValidationReport)
  : option ValidationReport :=
  bind (execLoop tagRegex ssml) (fun ms =>
  let '(stack, result) := fold_left xmlTag ms ([], result) in
  Some (unclosed stack result)).

(** *** Pass 3: [_validateSSMLTags] and [_validateAttributes] *)

(** The loop over an array of legal values, left at the first hit. *)
Fixpoint anyValid (validValues : list alternative) (attrValue : string) : bool :=
  match validValues with
  | [] => false
  | Lit validValue :: more =>
      if String.eqb validValue attrValue then true else anyValid more attrValue
  | Pat validValue :: more =>
      if test validValue attrValue then true else anyValid more attrValue
  end.

Definition checkAttribute (tagName : string) (table : list (string * constraint))
  (result : ValidationReport) (mt : jsmatch) : ValidationReport :=
  let attrName := group 1 mt in
  let attrValue := group 2 mt in
  match getProperty table attrName with
  | Undefined => result
  | validValues =>
      let isValid :=
        match validValues with
        | Own (OneOf alts) => anyValid alts attrValue
        | Own (Pattern r) => test r attrValue
        | _ => false
        end in
      if negb isValid then
        pushError ("Invalid value '" +++ attrValue +++ "' for attribute '" +++ attrName
                   +++ "' in tag <" +++ tagName +++ ">") result
      else result
  end.

Definition _validateAttributes (tagName attributes : string) (result : ValidationReport)
  : option ValidationReport :=
  match own validAttributeValues tagName with
  | None => Some result
  | Some table =>
      bind (execLoop attrRegex attributes) (fun ms =>
      Some (fold_left (checkAttribute tagName table) ms result))
  end.

Definition checkRequired (tagName : string) (foundAttrs : list string)
  (result : ValidationReport) (requiredAttr : string) : ValidationReport :=
  if negb (has foundAttrs requiredAttr) then
    pushError ("Missing required attribute '" +++ requiredAttr +++ "' for tag <"
               +++ tagName +++ ">") result
  else result.

(** One round of the while loop of [_validateSSMLTags]. *)
Definition checkTag (result : ValidationReport) (mt : jsmatch) : option ValidationReport :=
  let fullTag := m_text mt in
  let tagName := group 1 mt in
  let attributes := group 2 mt in
  if startsWith fullTag "</" then Some result
  else if negb (has supportedTags tagName) then
    Some (pushWarning ("Unsupported tag: <" +++ tagName +++ ">") result)
  else
    bind
      match own requiredAttributes tagName with
      | Some required =>
          if negb (includes fullTag "/>") then
            bind (execLoop attrRegex attributes) (fun ms =>
            let foundAttrs := map (group 1) ms in
            Some (fold_left (checkRequired tagName foundAttrs) required result))
          else Some result
      | None => Some result
      end
      (fun result => _validateAttributes tagName attributes result).

Definition _validateSSMLTags (ssml : string) (result : ValidationReport)
  : option ValidationReport :=
  bind (execLoop openTagRegex ssml) (fun ms => foldM checkTag ms result).

(** *** Pass 4: [_calculateMetrics] *)

Definition floatOfNat (n : nat) : PrimFloat.float :=
  PrimFloat.of_uint63 (Uint63.of_Z (Z.of_nat n)).

Definition _calculateMetrics (ssml : string) (result : ValidationReport)
  : ValidationReport :=
  let textContent := removeAll anyTagRegex ssml in
  let characterCount := String.length textContent in
  let tagMatches := matchAll anyTagRegex ssml in
  let tagCount := List.length tagMatches in
  mkReport (valid result) (errors result) (warnings result)
    (mkInfo characterCount tagCount
       (Rates (PrimFloat.mul (PrimFloat.div (floatOfNat characterCount) 1000000%float) 4%float)
              (PrimFloat.mul (PrimFloat.div (floatOfNat characterCount) 1000000%float) 16%float))).

(** *** Pass 5: [_checkCommonIssues] and [_getMaxNesting] *)

(** One round of the while loop of [_getMaxNesting] on (maxDepth, currentDepth). *)
Definition nestingTag (st : Z * Z) (mt : jsmatch) : Z * Z :=
  let '(maxDepth, currentDepth) := st in
  let fullTag := m_text mt in
  if endsWith fullTag "/>" then (maxDepth, currentDepth)
  else if startsWith fullTag "</" then (maxDepth, (currentDepth - 1)%Z)
  else
    let currentDepth := (currentDepth + 1)%Z in
    (Z.max maxDepth currentDepth, currentDepth).

Definition _getMaxNesting (ssml : string) : option Z :=
  bind (execLoop tagRegex ssml) (fun ms =>
  Some (fst (fold_left nestingTag ms (0%Z, 0%Z)))).

(** The for loop over the segments, left at the first long one. *)
Fixpoint longSegment (textSegments : list string) : bool :=
  match textSegments with
  | [] => false
  | segment :: more =>
      let cleanText := removeAll anyTagRegex segment in
      if 500 <? String.length cleanText then true else longSegment more
  end.

Definition _checkCommonIssues (ssml : string) (result : ValidationReport)
  : option ValidationReport :=
  let textSegments := split breakRegex ssml in
  let result :=
    if longSegment textSegments then
      pushWarning "Long text segment without breaks - consider adding pauses for better speech flow"
        result
    else result in
  bind (_getMaxNesting ssml) (fun maxNesting =>
  let result :=
    if (5 <? maxNesting)%Z then
      pushWarning "Deep tag nesting detected - consider simplifying structure" result
    else result in
  Some (if includes ssml "><" then
          pushWarning "Empty tags detected - consider removing or adding content" result
        else result)).

(** *** [validate]

    [None] stands for a call that does not return.  No operation of the
    five passes throws on a string argument, so the handler of the try
    statement is never entered and the passes run one after the other;
    [valid] is assigned once more after the try statement. *)
Definition initial : ValidationReport :=
  mkReport true [] [] (mkInfo 0 0 Unset).

Definition passes (ssml : string) (result : ValidationReport) : option ValidationReport :=
  let result := _validateBasicStructure ssml result in
  bind (_validateXMLStructure ssml result) (fun result =>
  bind (_validateSSMLTags ssml result) (fun result =>
  let result := _calculateMetrics ssml result in
  _checkCommonIssues ssml result)).

Definition validate (ssml : string) : option ValidationReport :=
  let result := initial in
  bind (passes ssml result) (fun result =>
  Some (mkReport (List.length (errors result) =? 0)
          (errors result) (warnings result) (info result))).

End Validator.

(** ** The passes as the specification words them *)
Module Spec.
Import JSString Regex Validator.

(** A report with more messages at the end of its two lists. *)
Definition extend (r : ValidationReport) (e w : list string) : ValidationReport :=
  mkReport (valid r) (errors r ++ e) (warnings r ++ w) (info r).

(** [f] appends messages, errors that satisfy [PE] and warnings that
    satisfy [PW], the same ones whatever the report it starts from. *)
Definition emits (PE PW : string -> Prop)
  (f : ValidationReport -> option ValidationReport) : Prop :=
  exists e w, Forall PE e /\ Forall PW w /\ forall r, f r = Some (extend r e w).

(** The first character of a message is one of [cs]. *)
Definition initialIn (cs : list ascii) (s : string) : Prop :=
  match s with
  | String c _ => In c cs
  | EmptyString => False
  end.

Inductive kind : Type := SelfClosing | Closing | Opening.

(** The three-way test of the well-formedness pass on a token. *)
Definition kindOf (fullTag : string) : kind :=
  if includes fullTag "/>" && negb (startsWith fullTag "</") then SelfClosing
  else if startsWith fullTag "</" then Closing
  else Opening.

(** The stack discipline of the well-formedness pass: [opened] holds the
    names of the open tags, innermost first. *)
Fixpoint stackErrors (tokens : list jsmatch) (opened : list string) : list string :=
  match tokens with
  | [] =>
      match opened with
      | [] => []
      | _ => ["Unclosed tags: " +++ join ", " (map (fun tag => "<" +++ tag +++ ">") (rev opened))]
      end
  | t :: tokens' =>
      match kindOf (m_text t) with
      | SelfClosing => stackErrors tokens' opened
      | Opening => stackErrors tokens' (group 1 t :: opened)
      | Closing =>
          match opened with
          | [] => ("Unexpected closing tag: " +++ m_text t) :: stackErrors tokens' []
          | top :: below =>
              if String.eqb top (group 1 t) then stackErrors tokens' below
              else ("Mismatched tags: expected </" +++ top +++ ">, found " +++ m_text t)
                     :: stackErrors tokens' below
          end
      end
  end.

(** The three-way test of the nesting heuristic on a token. *)
Definition nestingKind (fullTag : string) : kind :=
  if endsWith fullTag "/>" then SelfClosing
  else if startsWith fullTag "</" then Closing
  else Opening.

Definition delta (k : kind) : Z :=
  match k with
  | Opening => 1
  | Closing => -1
  | SelfClosing => 0
  end.

(** The greatest depth reached along a sequence of depth changes,
    starting at depth 0. *)
Fixpoint peak (changes : list Z) : Z :=
  match changes with
  | [] => 0
  | d :: changes' => Z.max 0 (d + peak changes')
  end.

Definition alternatives (c : constraint) : list alternative :=
  match c with
  | OneOf alts => alts
  | Pattern r => [Pat r]
  end.

(** A value satisfies an alternative: it is the literal, or the whole of
    it matches the pattern between the anchors. *)
Definition satisfies (alt : alternative) (value : string) : Prop :=
  match alt with
  | Lit s => value = s
  | Pat r => exists body, r = anchored body /\ full_match body value = true
  end.

(** The root-structure pass: the messages it emits, in order. *)
Definition basicErrors (ssml : string) : list string :=
  let opens := List.length (matchAll speakOpenRegex ssml) in
  let closes := List.length (matchAll speakCloseRegex ssml) in
  (if startsWith (trim ssml) "<speak" then [] else ["SSML must start with <speak> tag"])
  ++ (if endsWith (trim ssml) "</speak>" then [] else ["SSML must end with </speak> tag"])
  ++ (if opens =? closes then [] else ["Unbalanced <speak> tags"])
  ++ (if 1 <? opens then ["Multiple <speak> tags found - only one is allowed"] else []).

(** The nesting depth of a document: the peak of the depth changes of
    its tokens. *)
Definition maxNesting (ssml : string) : Z :=
  peak (map (fun mt => delta (nestingKind (m_text mt))) (matchAll tagRegex ssml)).

(** The heuristic warnings, in order. *)
Definition commonWarnings (ssml : string) : list string :=
  (if longSegment (split breakRegex ssml)
   then ["Long text segment without breaks - consider adding pauses for better speech flow"]
   else [])
  ++ (if (5 <? maxNesting ssml)%Z
      then ["Deep tag nesting detected - consider simplifying structure"] else [])
  ++ (if includes ssml "><"
      then ["Empty tags detected - consider removing or adding content"] else []).

(** An alternative of the schema is a literal or a pattern between
    anchors. *)
Definition anchoredAlt (alt : alternative) : Prop :=
  match alt with
  | Lit _ => True
  | Pat r => exists body, r = anchored body
  end.

Definition anchoredAltb (alt : alternative) : bool :=
  match alt with
  | Lit _ => true
  | Pat (Seq Bol (Seq _ Eol)) => true
  | Pat _ => false
  end.

(** The two character classes of the tag patterns, as predicates. *)
Definition isNameChar : ascii -> bool :=
  in_class false [CRange "a" "z"; CRange "A" "Z"; CChar ":"; CChar "-"].

Definition isNotGt : ascii -> bool := in_class true [CChar ">"].


(** The written form of a token of the schema pass: a bracket, the name,
    the attribute text, a bracket. *)
Definition openTagShape (mt : jsmatch) : Prop :=
  exists name attributes,
    name <> EmptyString /\ every isNameChar name = true /\
    every isNotGt attributes = true /\
    m_text mt = "<" +++ name +++ attributes +++ ">" /\
    group 1 mt = name /\ group 2 mt = attributes.

Definition isAttrNameChar : ascii -> bool := in_class false [CWord; CChar "-"].

Definition isNotQuote : ascii -> bool := in_class true [CChar dquote].


End Spec.

(** ** Messages and sample documents named by the properties *)
Module Samples.
Import JSString.

Definition helloWorld : string :=
  "<speak>Hello <emphasis level=" +++ quoted "strong" +++ ">world</emphasis>!</speak>".

Definition badTagDocument : string := "<speak><badtag>x</badtag></speak>".


Definition deepNesting : string :=
  "Deep tag nesting detected - consider simplifying structure".

Definition sixLevels : string :=
  "<speak><p><s><prosody rate=" +++ quoted "slow" +++ "><emphasis level="
  +++ quoted "strong" +++ "><lang xml:lang=" +++ quoted "en-US"
  +++ ">deep</lang></emphasis></prosody></s></p></speak>".

Definition fiveLevels : string :=
  "<speak><p><s><prosody rate=" +++ quoted "slow" +++ "><emphasis level="
  +++ quoted "strong" +++ ">deep</emphasis></prosody></s></p></speak>".

Definition missingOpening : string := "SSML must start with <speak> tag".

End Samples.

(** ** What an error-free report says about a document *)
Module Conformance.
Import JSString Regex Validator Spec.

(** Tokens that nest properly: nothing, a self-closing token before
    properly nested tokens, or an opening token and a closing token of the
    same name around properly nested tokens, before properly nested
    tokens. *)
Inductive balanced : list jsmatch -> Prop :=
| balanced_nil : balanced []
| balanced_self (t : jsmatch) (l : list jsmatch) :
    kindOf (m_text t) = SelfClosing -> balanced l -> balanced (t :: l)
| balanced_pair (o : jsmatch) (inner : list jsmatch) (c : jsmatch) (l : list jsmatch) :
    kindOf (m_text o) = Opening -> kindOf (m_text c) = Closing ->
    group 1 o = group 1 c ->
    balanced inner -> balanced l -> balanced (o :: inner ++ c :: l).

(** [ms] closes the open tags [opened], innermost first, with properly
    nested tokens in between and after. *)
Fixpoint closesAll (opened : list string) (ms : list jsmatch) : Prop :=
  match opened with
  | [] => balanced ms
  | top :: below =>
      exists b c rest,
        ms = b ++ c :: rest /\ balanced b /\
        kindOf (m_text c) = Closing /\ group 1 c = top /\ closesAll below rest
  end.

(** The four conditions of the root-structure pass. *)
Definition rootOk (ssml : string) : Prop :=
  startsWith (trim ssml) "<speak" = true /\
  endsWith (trim ssml) "</speak>" = true /\
  List.length (matchAll speakOpenRegex ssml) = List.length (matchAll speakCloseRegex ssml) /\
  List.length (matchAll speakOpenRegex ssml) <= 1.

(** The names of the attributes parsed from the attribute text. *)
Definition attributeNames (attributes : string) : list string :=
  map (group 1) (matchAll attrRegex attributes).

(** A token of the schema pass has what its tag requires: the tag
    requires nothing, or the token is self-closing, or every required
    name is among its attributes. *)
Definition requiredOk (mt : jsmatch) : Prop :=
  forall required,
    own requiredAttributes (group 1 mt) = Some required ->
    includes (m_text mt) "/>" = true \/
    forall a, In a required -> In a (attributeNames (group 2 mt)).

(** A parsed attribute is fine for a table of constraints: the table
    says nothing about its name (and Object.prototype has no member of
    that name), or its value satisfies an alternative of the entry. *)
Definition attributeOk (table : list (string * constraint)) (am : jsmatch) : Prop :=
  match getProperty table (group 1 am) with
  | Undefined => True
  | Own c => exists alt, In alt (alternatives c) /\ satisfies alt (group 2 am)
  | Inherited => False
  end.

Definition attributesOk (mt : jsmatch) : Prop :=
  forall table,
    own validAttributeValues (group 1 mt) = Some table ->
    Forall (attributeOk table) (matchAll attrRegex (group 2 mt)).

(** A token of the schema pass causes no error. *)
Definition tokenOk (mt : jsmatch) : Prop :=
  has supportedTags (group 1 mt) = false \/ (requiredOk mt /\ attributesOk mt).

(** The errors of the schema pass for one token. *)
Definition requiredErrors (mt : jsmatch) : list string :=
  match own requiredAttributes (group 1 mt) with
  | Some required =>
      if includes (m_text mt) "/>" then []
      else map (fun a => "Missing required attribute '" +++ a +++ "' for tag <"
                         +++ group 1 mt +++ ">")
               (filter (fun a => negb (has (attributeNames (group 2 mt)) a)) required)
  | None => []
  end.

Definition attributeError (tagName : string) (table : list (string * constraint))
  (am : jsmatch) : list string :=
  let msg := "Invalid value '" +++ group 2 am +++ "' for attribute '" +++ group 1 am
             +++ "' in tag <" +++ tagName +++ ">" in
  match getProperty table (group 1 am) with
  | Undefined => []
  | Own c => if anyValid (alternatives c) (group 2 am) then [] else [msg]
  | Inherited => [msg]
  end.

Definition attributeErrors (mt : jsmatch) : list string :=
  match own validAttributeValues (group 1 mt) with
  | Some table => flat_map (attributeError (group 1 mt) table) (matchAll attrRegex (group 2 mt))
  | None => []
  end.

Definition tokenErrors (mt : jsmatch) : list string :=
  if has supportedTags (group 1 mt) then requiredErrors mt ++ attributeErrors mt else [].

Definition tokenWarnings (mt : jsmatch) : list string :=
  if has supportedTags (group 1 mt) then [] else ["Unsupported tag: <" +++ group 1 mt +++ ">"].

End Conformance.

(** ** Measures of a document and of its matches *)
Module Measures.
Import JSString Regex Validator.

(** The number of characters that a list of matches covers. *)
Definition totalLength (ms : list jsmatch) : nat :=
  list_sum (map (fun mt => String.length (m_text mt)) ms).

(** No character of [s] is an opening bracket. *)
Definition noBracket (s : string) : bool :=
  every (fun c => negb (Ascii.eqb c "<")) s.

(** A regular expression whose matches start with an opening bracket:
    it fails where the input is at its end or shows another character. *)
Definition opensWithBracket (r : regex) : Prop :=
  forall k st,
    match rest st with
    | EmptyString => True
    | String a _ => a <> "<"%char
    end ->
    run r k st = None.

Definition longSegmentWarning : string :=
  "Long text segment without breaks - consider adding pauses for better speech flow".

End Measures.

(** ** The builder (src/ssml-builder.js) and the text helpers of the client *)
Module Builder.
Import JSString Regex Validator.

(** [s.replace(/r/g, by)] for an [r] whose matches are not empty and a
    replacement string without dollar patterns: the text between the
    matches, joined by the replacement. *)
Definition replaceAll (r : regex) (by_ : string) (s : string) : string :=
  String.concat by_ (split r s).

(** [_escapeText(text)], the same in the builder and in the client: five
    replacements in a row, the ampersand first. *)
Definition _escapeText (text : string) : string :=
  replaceAll (Char "'") "&apos;"
    (replaceAll (Char dquote) "&quot;"
       (replaceAll (Char ">") "&gt;"
          (replaceAll (Char "<") "&lt;"
             (replaceAll (Char "&") "&amp;" text)))).

(** A call that returns or throws an Error with a message. *)
Inductive outcome (A : Type) : Type :=
| Returns (a : A)
| Throws (message : string).
Arguments Returns {A} a.
Arguments Throws {A} message.

Record SSMLBuilder : Type := mkBuilder {
  elements : list string;
  isInSpeak : bool
}.

(** [new SSMLBuilder()] *)
Definition newBuilder : SSMLBuilder := mkBuilder [] false.

(** [this.elements.push(element)] *)
Definition push (element : string) (b : SSMLBuilder) : SSMLBuilder :=
  mkBuilder (elements b ++ [element]) (isInSpeak b).

(** [_buildAttributes(attrs)]; the object is given by its entries, in
    the order of Object.entries, with string values. *)
Definition _buildAttributes (attrs : list (string * string)) : string :=
  match attrs with
  | [] => EmptyString
  | _ => " " +++ join " " (map (fun kv => fst kv +++ "=" +++ quoted (snd kv)) attrs)
  end.

(** [speak(attributes)] *)
Definition speak (attributes : list (string * string)) (b : SSMLBuilder)
  : outcome SSMLBuilder :=
  if isInSpeak b then Throws "Already inside a <speak> tag"
  else
    let attrs := _buildAttributes attributes in
    Returns (mkBuilder (elements b ++ ["<speak" +++ attrs +++ ">"]) true).

(** [text(text)] *)
Definition text (t : string) (b : SSMLBuilder) : SSMLBuilder :=
  push (_escapeText t) b.

Definition strengths : list string :=
  ["none"; "x-weak"; "weak"; "medium"; "strong"; "x-strong"].

(** [pause(time)] *)
Definition pause (time : string) (b : SSMLBuilder) : SSMLBuilder :=
  if existsb (String.eqb time) strengths
  then push ("<break strength=" +++ quoted time +++ "/>") b
  else push ("<break time=" +++ quoted time +++ "/>") b.

(** [emphasis(text, level)] *)
Definition emphasis (t level : string) (b : SSMLBuilder) : SSMLBuilder :=
  push ("<emphasis level=" +++ quoted level +++ ">" +++ _escapeText t +++ "</emphasis>") b.

(** [prosody(text, options)] *)
Definition prosody (t : string) (options : list (string * string)) (b : SSMLBuilder)
  : SSMLBuilder :=
  let attrs := _buildAttributes options in
  push ("<prosody" +++ attrs +++ ">" +++ _escapeText t +++ "</prosody>") b.

(** [voice(text, name)] *)
Definition voice (t name : string) (b : SSMLBuilder) : SSMLBuilder :=
  push ("<voice name=" +++ quoted name +++ ">" +++ _escapeText t +++ "</voice>") b.

(** [phoneme(text, ph, alphabet)] *)
Definition phoneme (t ph alphabet : string) (b : SSMLBuilder) : SSMLBuilder :=
  push ("<phoneme alphabet=" +++ quoted alphabet +++ " ph=" +++ quoted ph +++ ">"
        +++ _escapeText t +++ "</phoneme>") b.

(** [substitute(text, alias)] *)
Definition substitute (t alias : string) (b : SSMLBuilder) : SSMLBuilder :=
  push ("<sub alias=" +++ quoted alias +++ ">" +++ _escapeText t +++ "</sub>") b.

(** [audio(src, fallbackText)]; the empty string is falsy. *)
Definition audio (src fallbackText : string) (b : SSMLBuilder) : SSMLBuilder :=
  match fallbackText with
  | EmptyString => push ("<audio src=" +++ quoted src +++ "/>") b
  | _ => push ("<audio src=" +++ quoted src +++ ">" +++ _escapeText fallbackText
               +++ "</audio>") b
  end.

(** [breath(duration)] *)
Definition breath (duration : string) (b : SSMLBuilder) : SSMLBuilder :=
  push ("<amazon:breath duration=" +++ quoted duration +++ "/>") b.

(** [whisper(text)] *)
Definition whisper (t : string) (b : SSMLBuilder) : SSMLBuilder :=
  push ("<amazon:effect name=" +++ quoted "whispered" +++ ">" +++ _escapeText t
        +++ "</amazon:effect>") b.

(** [options.key || fallback] for a property of an options object: the
    fallback stands in for a missing property and for the empty string. *)
Definition orDefault (value : option string) (fallback : string) : string :=
  match value with
  | Some (String c v) => String c v
  | _ => fallback
  end.

(** [autoBreaths(text, options)]; the options object is given by its
    entries. *)
Definition autoBreaths (t : string) (options : list (string * string)) (b : SSMLBuilder)
  : SSMLBuilder :=
  let volume := orDefault (own options "volume") "medium" in
  let frequency := orDefault (own options "frequency") "medium" in
  let duration := orDefault (own options "duration") "medium" in
  push (("<amazon:auto-breaths volume=" +++ quoted volume +++ " frequency="
         +++ quoted frequency +++ " duration=" +++ quoted duration +++ ">")
        +++ _escapeText t +++ "</amazon:auto-breaths>") b.

(** [sayAs(text, interpretAs)], called without options: the attributes
    are those of the object with the one property interpret-as. *)
Definition sayAs (t interpretAs : string) (b : SSMLBuilder) : SSMLBuilder :=
  let attrString := _buildAttributes [("interpret-as", interpretAs)] in
  push ("<say-as" +++ attrString +++ ">" +++ _escapeText t +++ "</say-as>") b.

(** [sentence(text)] *)
Definition sentence (t : string) (b : SSMLBuilder) : SSMLBuilder :=
  push ("<s>" +++ _escapeText t +++ "</s>") b.

(** [paragraph(text)] *)
Definition paragraph (t : string) (b : SSMLBuilder) : SSMLBuilder :=
  push ("<p>" +++ _escapeText t +++ "</p>") b.

(** [raw(ssml)] *)
Definition raw (ssml : string) (b : SSMLBuilder) : SSMLBuilder := push ssml b.

(** [build()] *)
Definition build (b : SSMLBuilder) : outcome string :=
  if negb (isInSpeak b) then Throws "SSML document must start with speak()"
  else Returns (join EmptyString (elements b) +++ "</speak>").

(** [reset()] *)
Definition reset (b : SSMLBuilder) : SSMLBuilder := mkBuilder [] false.


(** Replacement of one character by a string, character by character. *)
Fixpoint substChar (c : ascii) (by_ : string) (s : string) : string :=
  match s with
  | EmptyString => EmptyString
  | String a s' => if Ascii.eqb c a then by_ +++ substChar c by_ s'
                   else String a (substChar c by_ s')
  end.

(** What escaping makes of one character. *)
Definition escapeChar (a : ascii) : string :=
  if Ascii.eqb a "&" then "&amp;"
  else if Ascii.eqb a "<" then "&lt;"
  else if Ascii.eqb a ">" then "&gt;"
  else if Ascii.eqb a dquote then "&quot;"
  else if Ascii.eqb a "'" then "&apos;"
  else String a EmptyString.

Fixpoint escapeChars (s : string) : string :=
  match s with
  | EmptyString => EmptyString
  | String a s' => escapeChar a +++ escapeChars s'
  end.

(** None of the four characters that open or close a tag or a quoted
    value. *)
Definition isPlain (c : ascii) : bool :=
  negb (Ascii.eqb c "<") && negb (Ascii.eqb c ">") &&
  negb (Ascii.eqb c dquote) && negb (Ascii.eqb c "'").

End Builder.

(** ** Documents made of tags and words *)
Module Parts.
Import JSString Regex Validator Measures.

(** A regular expression without the start anchor: its matches do not
    depend on where in the input they start. *)
Fixpoint bolFree (r : regex) : bool :=
  match r with
  | Bol => false
  | Eps | Char _ | Class _ _ | Eol => true
  | Seq a b | Alt a b => bolFree a && bolFree b
  | Star a | Plus a | Opt a | Group _ a => bolFree a
  end.

Definition shiftState (d : nat) (st : mstate) : mstate :=
  MState (pos st + d) (rest st) (caps st).

Definition shiftMatch (d : nat) (mt : jsmatch) : jsmatch :=
  JSMatch (m_index mt + d) (m_text mt) (m_caps mt).

(** The captures of the match of [r] on the tag alone, if it matches. *)
Definition capsOf (r : regex) (tag : string) : option (list (nat * string)) :=
  option_map caps (run r Some (MState 0 tag [])).

(** Whatever follows the tag, [r] matches the tag as a whole, with the
    same captures, or does not match where the tag starts. *)
Definition closedTag (r : regex) (tag : string) : Prop :=
  forall s,
    run r Some (MState 0 (tag +++ s) [])
    = option_map (MState (String.length tag) s) (capsOf r tag).

(** A piece of a document: a tag, or words without any opening
    bracket. *)
Inductive part : Type :=
| Markup (tag : string)
| Words (e : string).

Definition render1 (p : part) : string :=
  match p with
  | Markup tag => tag
  | Words e => e
  end.

Fixpoint render (parts : list part) : string :=
  match parts with
  | [] => EmptyString
  | p :: parts' => render1 p +++ render parts'
  end.

Definition wellFormedPart (p : part) : Prop :=
  match p with
  | Markup tag => exists body, tag = String "<" body /\ noBracket body = true
  | Words e => noBracket e = true
  end.

(** The matches of [r] in a rendered list of parts that starts at index
    [i]: one for each tag that [r] matches. *)
Fixpoint tokensOf (r : regex) (i : nat) (parts : list part) : list jsmatch :=
  match parts with
  | [] => []
  | Markup tag :: parts' =>
      match capsOf r tag with
      | Some c => JSMatch i tag c :: tokensOf r (i + String.length tag) parts'
      | None => tokensOf r (i + String.length tag) parts'
      end
  | Words e :: parts' => tokensOf r (i + String.length e) parts'
  end.

(** What is done to the result of a match can be done by its
    continuation. *)
Definition mapsThrough (body : cont -> cont) : Prop :=
  forall (f : mstate -> mstate) (k : cont) (st : mstate),
    body (fun st' => option_map f (k st')) st = option_map f (body k st).

(** Without the start anchor a match does not depend on the index. *)
Definition shifts (body : cont -> cont) : Prop :=
  forall (d : nat) (k : cont) (st : mstate),
    body k (shiftState d st) = body (fun st' => k (shiftState d st')) st.

Definition closedFor (r : regex) (p : part) : Prop :=
  match p with
  | Markup tag => closedTag r tag
  | Words _ => True
  end.

End Parts.

(** ** Elements as the builder writes them *)
Module Elements.
Import JSString Regex Validator Spec Conformance Measures Builder Parts.

(** What the builder pushes: an escaped text, an element with a content,
    or an empty element. *)
Inductive element : Type :=
| Plain (e : string)
| Element (name : string) (attrs : list (string * string)) (content : string)
| EmptyElement (name : string) (attrs : list (string * string)).

Definition openTag (name : string) (attrs : list (string * string)) : string :=
  "<" +++ name +++ _buildAttributes attrs +++ ">".

Definition closeTag (name : string) : string := "</" +++ name +++ ">".

Definition emptyTag (name : string) (attrs : list (string * string)) : string :=
  "<" +++ name +++ _buildAttributes attrs +++ "/>".

Definition renderElement (el : element) : string :=
  match el with
  | Plain e => e
  | Element name attrs content => openTag name attrs +++ content +++ closeTag name
  | EmptyElement name attrs => emptyTag name attrs
  end.

Definition partsOfElement (el : element) : list part :=
  match el with
  | Plain e => [Words e]
  | Element name attrs content =>
      [Markup (openTag name attrs); Words content; Markup (closeTag name)]
  | EmptyElement name attrs => [Markup (emptyTag name attrs)]
  end.

(** One attribute as [_buildAttributes] writes it. *)
Definition attrText (kv : string * string) : string :=
  fst kv +++ "=" +++ quoted (snd kv).

(** Neither a bracket nor a double quote. *)
Definition isSafeChar (c : ascii) : bool :=
  negb (Ascii.eqb c "<") && negb (Ascii.eqb c ">") && negb (Ascii.eqb c dquote).

(** An attribute that can be read back from its written form: the name
    is made of word characters and hyphens, the value has no bracket and
    no double quote. *)
Definition safeAttr (kv : string * string) : Prop :=
  fst kv <> EmptyString /\ every isAttrNameChar (fst kv) = true /\
  every isSafeChar (snd kv) = true.

(** The name and the value of a parsed attribute. *)
Definition groups (am : jsmatch) : string * string := (group 1 am, group 2 am).

(** What ends the attribute text of a tag holds no attribute. *)
Definition noAttribute (tail : string) : Prop :=
  forall i, scan attrRegex 0 i tail = [].

(** What follows the name of a tag does not go on with the name. *)
Definition nameEnds (extra : string) : Prop :=
  match extra with
  | EmptyString => True
  | String a _ => isNameChar a = false
  end.

(** The last character of [s] is [c]. *)
Fixpoint lastIs (c : ascii) (s : string) : bool :=
  match s with
  | EmptyString => false
  | String a s' =>
      match s' with
      | EmptyString => Ascii.eqb a c
      | String _ _ => lastIs c s'
      end
  end.

(** A tag name of name characters that does not start with speak. *)
Definition safeName (name : string) : Prop :=
  name <> EmptyString /\ every isNameChar name = true /\
  startsWith name "speak" = false.

Definition safeElement (el : element) : Prop :=
  match el with
  | Plain e => noBracket e = true
  | Element name attrs content =>
      safeName name /\ Forall safeAttr attrs /\ noBracket content = true
  | EmptyElement name attrs => safeName name /\ Forall safeAttr attrs
  end.

(** The error of [_validateAttributes] for an attribute given by its
    name and its value, under the table of its tag. *)
Definition valueError (tagName : string) (table : list (string * constraint))
  (kv : string * string) : list string :=
  let msg := "Invalid value '" +++ snd kv +++ "' for attribute '" +++ fst kv
             +++ "' in tag <" +++ tagName +++ ">" in
  match getProperty table (fst kv) with
  | Undefined => []
  | Own c => if anyValid (alternatives c) (snd kv) then [] else [msg]
  | Inherited => [msg]
  end.

Definition valueErrors (tagName : string) (attrs : list (string * string)) : list string :=
  match own validAttributeValues tagName with
  | Some table => flat_map (valueError tagName table) attrs
  | None => []
  end.

(** The errors of [_validateSSMLTags] for the required attributes that
    are not among [attrs]. *)
Definition missingErrors (tagName : string) (attrs : list (string * string)) : list string :=
  match own requiredAttributes tagName with
  | Some required =>
      map (fun a => "Missing required attribute '" +++ a +++ "' for tag <" +++ tagName +++ ">")
          (filter (fun a => negb (has (map fst attrs) a)) required)
  | None => []
  end.

(** The errors and the warnings of the schema pass for an element. *)
Definition elementErrors (el : element) : list string :=
  match el with
  | Plain _ => []
  | Element name attrs _ =>
      if has supportedTags name then missingErrors name attrs ++ valueErrors name attrs else []
  | EmptyElement name attrs =>
      if has supportedTags name then valueErrors name attrs else []
  end.

Definition elementWarnings (el : element) : list string :=
  match el with
  | Plain _ => []
  | Element name _ _ | EmptyElement name _ =>
      if has supportedTags name then [] else ["Unsupported tag: <" +++ name +++ ">"]
  end.

End Elements.

(** ** Programs that use the builder *)
Module Programs.
Import JSString Regex Validator Measures Builder Parts Elements.

(** A call of an element method of the builder. *)
Inductive call : Type :=
| CallText (t : string)
| CallSentence (t : string)
| CallParagraph (t : string)
| CallWhisper (t : string)
| CallEmphasis (t level : string)
| CallPause (time : string)
| CallBreath (duration : string)
| CallProsody (t : string) (options : list (string * string))
| CallVoice (t name : string)
| CallPhoneme (t ph alphabet : string)
| CallSubstitute (t alias : string)
| CallAudio (src fallbackText : string)
| CallAutoBreaths (t : string) (options : list (string * string))
| CallSayAs (t interpretAs : string).

Definition applyCall (b : SSMLBuilder) (c : call) : SSMLBuilder :=
  match c with
  | CallText t => text t b
  | CallSentence t => sentence t b
  | CallParagraph t => paragraph t b
  | CallWhisper t => whisper t b
  | CallEmphasis t level => emphasis t level b
  | CallPause time => pause time b
  | CallBreath duration => breath duration b
  | CallProsody t options => prosody t options b
  | CallVoice t name => voice t name b
  | CallPhoneme t ph alphabet => phoneme t ph alphabet b
  | CallSubstitute t alias => substitute t alias b
  | CallAudio src fallbackText => audio src fallbackText b
  | CallAutoBreaths t options => autoBreaths t options b
  | CallSayAs t interpretAs => sayAs t interpretAs b
  end.

(** The calls one after the other, as in a chain of method calls. *)
Definition applyCalls (calls : list call) (b : SSMLBuilder) : SSMLBuilder :=
  fold_left applyCall calls b.

(** The element that a call pushes, by its name, its attributes and its
    content. *)
Definition elementOfCall (c : call) : element :=
  match c with
  | CallText t => Plain (_escapeText t)
  | CallSentence t => Element "s" [] (_escapeText t)
  | CallParagraph t => Element "p" [] (_escapeText t)
  | CallWhisper t => Element "amazon:effect" [("name", "whispered")] (_escapeText t)
  | CallEmphasis t level => Element "emphasis" [("level", level)] (_escapeText t)
  | CallPause time =>
      if existsb (String.eqb time) strengths
      then EmptyElement "break" [("strength", time)]
      else EmptyElement "break" [("time", time)]
  | CallBreath duration => EmptyElement "amazon:breath" [("duration", duration)]
  | CallProsody t options => Element "prosody" options (_escapeText t)
  | CallVoice t name => Element "voice" [("name", name)] (_escapeText t)
  | CallPhoneme t ph alphabet =>
      Element "phoneme" [("alphabet", alphabet); ("ph", ph)] (_escapeText t)
  | CallSubstitute t alias => Element "sub" [("alias", alias)] (_escapeText t)
  | CallAudio src fallbackText =>
      match fallbackText with
      | EmptyString => EmptyElement "audio" [("src", src)]
      | _ => Element "audio" [("src", src)] (_escapeText fallbackText)
      end
  | CallAutoBreaths t options =>
      Element "amazon:auto-breaths"
        [("volume", orDefault (own options "volume") "medium");
         ("frequency", orDefault (own options "frequency") "medium");
         ("duration", orDefault (own options "duration") "medium")]
        (_escapeText t)
  | CallSayAs t interpretAs => Element "say-as" [("interpret-as", interpretAs)] (_escapeText t)
  end.

Definition tagOfElement (el : element) : string :=
  match el with
  | Plain _ => EmptyString
  | Element name _ _ | EmptyElement name _ => name
  end.

Definition attributesOfElement (el : element) : list (string * string) :=
  match el with
  | Plain _ => []
  | Element _ attrs _ | EmptyElement _ attrs => attrs
  end.

(** The attributes that a call writes can be read back: their values
    have no bracket and no double quote (the builder does not escape
    them), and the names of the options of [prosody] are made of word
    characters and hyphens. *)
Definition safeCall (c : call) : Prop :=
  Forall safeAttr (attributesOfElement (elementOfCall c)).

(** The errors of the validator for the attribute values that a call
    writes. *)
Definition callErrors (c : call) : list string :=
  valueErrors (tagOfElement (elementOfCall c)) (attributesOfElement (elementOfCall c)).

(** The element that a call pushes, as tags and words. *)
Definition partsOfCall (c : call) : list part := partsOfElement (elementOfCall c).

(** The parts of the document built by [speak()], the calls and
    [build()]. *)
Definition partsOfProgram (calls : list call) : list part :=
  Markup "<speak>" :: flat_map partsOfCall calls ++ [Markup "</speak>"].

Definition markupCount (parts : list part) : nat :=
  List.length (filter (fun p => match p with Markup _ => true | Words _ => false end) parts).

Definition wordsLength (parts : list part) : nat :=
  list_sum (map (fun p => match p with Markup _ => 0 | Words e => String.length e end) parts).

Definition markupLength (parts : list part) : nat :=
  list_sum (map (fun p => match p with Markup tag => String.length tag | Words _ => 0 end) parts).

(** The call pushes an element, not a text. *)
Definition pushesTag (c : call) : Prop :=
  match c with
  | CallText _ => False
  | _ => True
  end.

Definition emptyTagsWarning : string :=
  "Empty tags detected - consider removing or adding content".

(** The tag patterns of the passes that decide on the messages and the
    metrics. *)
Definition tagPatterns : list regex :=
  [speakOpenRegex; speakCloseRegex; tagRegex; openTagRegex; anyTagRegex].

End Programs.

(** ** Templates (src/templates/index.js) *)
Module Templates.
Import JSString Regex Validator Builder Elements Programs.

(** [new SSMLBuilder().speak() ... .build()]: the calls of a template on
    a new builder, between [speak()] and [build()]. *)
Definition chain (f : SSMLBuilder -> SSMLBuilder) : outcome string :=
  match speak [] newBuilder with
  | Returns b => build (f b)
  | Throws message => Throws message
  end.

Definition greetings : list (string * string) :=
  [ ("morning", "Good morning"); ("afternoon", "Good afternoon");
    ("evening", "Good evening"); ("day", "Hello") ].

Section Greeting.

(** The text that a template literal makes of the member of
    Object.prototype of a given name. *)
Variable memberText : string -> string.

(** The text of [greetings[timeOfDay]] in a template literal: the own
    entry, a member of Object.prototype, or undefined. *)
Definition greetingText (timeOfDay : string) : string :=
  match own greetings timeOfDay with
  | Some g => g
  | None => if has objectPrototype timeOfDay then memberText timeOfDay else "undefined"
  end.

(** [greeting(name, timeOfDay)] *)
Definition greeting (name timeOfDay : string) : outcome string :=
  chain (fun b =>
    text "Welcome!"
      (pause "300ms"
         (emphasis name "moderate"
            (text (greetingText timeOfDay +++ ", ") b)))).

End Greeting.

(** [newsAnnouncement(headline, content, reporter)]; [None] is null, and
    the empty string is falsy as null is. *)
Definition newsAnnouncement (headline content : string) (reporter : option string)
  : outcome string :=
  chain (fun b =>
    let builder :=
      text content
        (pause "1s"
           (prosody headline [("rate", "medium"); ("pitch", "high")]
              (pause "500ms"
                 (emphasis "Breaking News:" "strong" b)))) in
    match reporter with
    | Some (String c r) =>
        prosody ("Reporting, " +++ String c r) [("rate", "slow"); ("volume", "soft")]
          (pause "800ms" builder)
    | _ => builder
    end).

(** [phoneNumber(phoneNumber, context)] *)
Definition phoneNumber (number context : string) : outcome string :=
  chain (fun b =>
    let builder :=
      match context with
      | EmptyString => text "The number is " b
      | _ => text ("For " +++ context +++ ", please call ") b
      end in
    sayAs number "telephone"
      (text "Again, that number is "
         (pause "500ms"
            (sayAs number "telephone"
               (pause "300ms" builder))))).

(** [spelling(word, context)] *)
Definition spelling (word context : string) : outcome string :=
  chain (fun b =>
    let builder :=
      match context with
      | EmptyString => text "That is spelled: " b
      | _ => text (context +++ " is spelled: ") b
      end in
    sayAs word "spell-out"
      (text "Again, "
         (pause "500ms"
            (sayAs word "spell-out"
               (pause "300ms" builder))))).

(** The body of [paragraphs.forEach((paragraph, index) => ...)] of
    [storytelling], from [index] on; [len] is [paragraphs.length].  The
    three options are given as they are after the defaults, by their
    truth. *)
Fixpoint forEachParagraph (useWhisper addBreaths dramaticPauses : bool) (len index : nat)
  (paragraphs : list string) (b : SSMLBuilder) : SSMLBuilder :=
  match paragraphs with
  | [] => b
  | p :: more =>
      let b := if addBreaths && (0 <? index) then breath "short" b else b in
      let b := if useWhisper then whisper p b else paragraph p b in
      let b :=
        if dramaticPauses && (Z.of_nat index <? Z.of_nat len - 1)%Z
        then pause "1.5s" b else b in
      forEachParagraph useWhisper addBreaths dramaticPauses len (S index) more b
  end.

(** [storytelling(title, paragraphs, options)] *)
Definition storytelling (title : string) (paragraphs : list string)
  (useWhisper addBreaths dramaticPauses : bool) : outcome string :=
  chain (fun b =>
    prosody "The end" [("rate", "slow"); ("pitch", "low")]
      (pause "2s"
         (forEachParagraph useWhisper addBreaths dramaticPauses (List.length paragraphs) 0
            paragraphs
            (pause "2s"
               (emphasis title "strong" b))))).

(** [announcement(announcement, musicUrl, voiceId)]; [None] is null. *)
Definition announcement (message : string) (musicUrl : option string) (voiceId : string)
  : outcome string :=
  chain (fun b =>
    let b :=
      match musicUrl with
      | Some (String c u) => audio (String c u) EmptyString b
      | _ => b
      end in
    pause "2s" (voice message voiceId b)).

(** The calls of the loop of [storytelling], as a list. *)
Fixpoint storyCalls (useWhisper addBreaths dramaticPauses : bool) (len index : nat)
  (paragraphs : list string) : list call :=
  match paragraphs with
  | [] => []
  | p :: more =>
      (if addBreaths && (0 <? index) then [CallBreath "short"] else [])
      ++ [if useWhisper then CallWhisper p else CallParagraph p]
      ++ (if dramaticPauses && (Z.of_nat index <? Z.of_nat len - 1)%Z
          then [CallPause "1.5s"] else [])
      ++ storyCalls useWhisper addBreaths dramaticPauses len (S index) more
  end.

(** The call returns a document that the validator accepts without any
    error. *)
Definition accepted (o : outcome string) : Prop :=
  exists doc r, o = Returns doc /\ validate doc = Some r /\ valid r = true /\ errors r = [].

End Templates.

(** ** Facts about strings *)
Module StringFacts.
Import JSString.

Lemma length_append (a b : string) :
  String.length (a +++ b) = String.length a + String.length b.
Proof. induction a as [|c a IH]; simpl; [reflexivity | now rewrite IH]. Qed.

Lemma append_assoc (a b c : string) : (a +++ b) +++ c = a +++ (b +++ c).
Proof. induction a as [|x a IH]; simpl; [reflexivity | now rewrite IH]. Qed.

Lemma append_nil_r (a : string) : a +++ EmptyString = a.
Proof. induction a as [|x a IH]; simpl; [reflexivity | now rewrite IH]. Qed.

Lemma substring_whole_prefix (w x : string) :
  String.substring 0 (String.length w) (w +++ x) = w.
Proof.
  induction w as [|c w IH]; simpl.
  - destruct x; reflexivity.
  - now rewrite IH.
Qed.

Lemma startsWith_append (p s : string) : startsWith (p +++ s) p = true.
Proof.
  induction p as [|c p IH]; simpl.
  - reflexivity.
  - now rewrite Ascii.eqb_refl, IH.
Qed.

Lemma trimEnd_keep (c : ascii) (s : string) :
  isWhiteSpace c = false -> trimEnd (String c s) = String c (trimEnd s).
Proof. intros H. simpl. destruct (trimEnd s); now rewrite ?H. Qed.

Lemma trimStart_head (s : string) (a : ascii) (t : string) :
  trimStart s = String a t -> isWhiteSpace a = false.
Proof.
  induction s as [|c s IH]; simpl; [discriminate|].
  destruct (isWhiteSpace c) eqn:E; [exact IH|].
  intros H; injection H as <- _; exact E.
Qed.

Lemma trim_blank_start (lead : string) : trim lead = EmptyString -> trimStart lead = EmptyString.
Proof.
  unfold trim. destruct (trimStart lead) as [|a t] eqn:E; [reflexivity|].
  rewrite (trimEnd_keep a t (trimStart_head _ _ _ E)). discriminate.
Qed.

Lemma trimStart_blank (lead s : string) :
  trimStart lead = EmptyString -> trimStart (lead +++ s) = trimStart s.
Proof.
  induction lead as [|c lead IH]; simpl; [reflexivity|].
  destruct (isWhiteSpace c); [exact IH | discriminate].
Qed.

(** White space in front of the six characters does not hide them from
    the test on the trimmed document. *)
Lemma trim_speak_prefix (lead rest : string) :
  trim lead = EmptyString ->
  startsWith (trim (lead +++ "<speak" +++ rest)) "<speak" = true.
Proof.
  intros H. unfold trim. rewrite (trimStart_blank _ _ (trim_blank_start _ H)).
  cbn [String.append]. change (trimStart (String "<" ?x)) with (String "<"%char x).
  cbn [trimStart]. change (isWhiteSpace "<") with false. cbv iota.
  rewrite !trimEnd_keep by reflexivity. reflexivity.
Qed.

End StringFacts.

(** ** Facts about the matcher *)
Module RegexFacts.
Import Regex StringFacts.

Lemma advance_refl (st : mstate) : advance 0 st st.
Proof. exists EmptyString; simpl; repeat split; lia. Qed.

Lemma advance_trans (d1 d2 : nat) (a b c : mstate) :
  advance d1 a b -> advance d2 b c -> advance (d1 + d2) a c.
Proof.
  intros (w1 & R1 & P1 & L1) (w2 & R2 & P2 & L2).
  exists (w1 +++ w2). rewrite append_assoc, <- R2, <- R1, length_append.
  repeat split; lia.
Qed.

Lemma advance_weaken (d d' : nat) (a b : mstate) :
  d' <= d -> advance d a b -> advance d' a b.
Proof. intros Hd (w & R & P & L); exists w; repeat split; auto; lia. Qed.

Lemma advance_pos (d : nat) (a b : mstate) :
  advance d a b -> pos a + d <= pos b.
Proof. intros (w & _ & P & L); lia. Qed.

Lemma advance_length (d : nat) (a b : mstate) :
  advance d a b ->
  String.length (rest a) = String.length (rest b) + (pos b - pos a).
Proof. intros (w & R & P & _). rewrite R, length_append. lia. Qed.

Lemma orelse_some (a b : option mstate) (res : mstate) :
  orelse a b = Some res -> a = Some res \/ b = Some res.
Proof. destruct a; simpl; auto. Qed.

Lemma step_char_sound (p : ascii -> bool) : sound (step_char p) 1.
Proof.
  intros k st res. unfold step_char.
  destruct (rest st) as [|a s'] eqn:R; [discriminate|].
  destruct (p a); [|discriminate]. intros H.
  eexists; split; [|exact H].
  exists (String a EmptyString); simpl; rewrite R; repeat split; lia.
Qed.

Lemma repeat_sound (body : cont -> cont) :
  sound body 0 -> forall n, sound (fun k => repeat_greedy body k n) 0.
Proof.
  intros Hb n. induction n as [|n IH]; intros k st res; simpl.
  - intros H. exists st; split; [apply advance_refl | exact H].
  - intros H. apply orelse_some in H as [H|H].
    + apply Hb in H as (st1 & A1 & H1).
      destruct (pos st <? pos st1); [|discriminate].
      apply IH in H1 as (st2 & A2 & H2).
      exists st2; split; [|exact H2].
      exact (advance_trans 0 0 _ _ _ A1 A2).
    + exists st; split; [apply advance_refl | exact H].
Qed.

Lemma sound_weaken (body : cont -> cont) (d d' : nat) :
  d' <= d -> sound body d -> sound body d'.
Proof.
  intros Hd Hs k st res H. apply Hs in H as (st' & A & H).
  exists st'; split; [eapply advance_weaken; eauto | exact H].
Qed.

Lemma run_sound (r : regex) : sound (run r) (min_len r).
Proof.
  induction r as [ | c | neg items | a IHa b IHb | a IHa b IHb | a IHa | a IHa
                 | a IHa | n a IHa | | ]; intros k st res; simpl.
  - intros H; exists st; split; [apply advance_refl | exact H].
  - apply step_char_sound.
  - apply step_char_sound.
  - intros H. apply IHa in H as (st1 & A1 & H). apply IHb in H as (st2 & A2 & H).
    exists st2; split; [eapply advance_trans; eauto | exact H].
  - intros H. apply orelse_some in H as [H|H].
    + apply IHa in H as (st1 & A & H). exists st1; split; [|exact H].
      eapply advance_weaken; [|exact A]. apply Nat.le_min_l.
    + apply IHb in H as (st1 & A & H). exists st1; split; [|exact H].
      eapply advance_weaken; [|exact A]. apply Nat.le_min_r.
  - apply (repeat_sound (run a)). eapply sound_weaken; [|exact IHa]. lia.
  - intros H. apply IHa in H as (st1 & A1 & H).
    apply (repeat_sound (run a)) in H as (st2 & A2 & H);
      [|eapply sound_weaken; [|exact IHa]; lia].
    exists st2; split; [|exact H].
    replace (min_len a) with (min_len a + 0) by lia. eapply advance_trans; eauto.
  - intros H. apply orelse_some in H as [H|H].
    + apply IHa in H as (st1 & A & H). destruct (pos st <? pos st1); [|discriminate].
      exists st1; split; [|exact H]. eapply advance_weaken; [|exact A]. lia.
    + exists st; split; [apply advance_refl | exact H].
  - intros H. apply IHa in H as (st1 & A & H).
    eexists; split; [|exact H]. exact A.
  - destruct (pos st =? 0); [|discriminate].
    intros H; exists st; split; [apply advance_refl | exact H].
  - destruct (rest st) eqn:R; [|discriminate].
    intros H; exists st; split; [apply advance_refl | exact H].
Qed.

Lemma advance_0_trans (a b c : mstate) : advance 0 a b -> advance 0 b c -> advance 0 a c.
Proof. exact (advance_trans 0 0 a b c). Qed.

Lemma step_char_local (p : ascii -> bool) : local (step_char p).
Proof.
  intros k1 k2 st H. unfold step_char.
  destruct (rest st) as [|a s'] eqn:R; [reflexivity|].
  destruct (p a); [|reflexivity]. apply H.
  exists (String a EmptyString); simpl; rewrite R; repeat split; lia.
Qed.

Lemma repeat_local (body : cont -> cont) :
  local body -> forall n, local (fun k => repeat_greedy body k n).
Proof.
  intros Hb n. induction n as [|n IH]; intros k1 k2 st H; simpl.
  - apply H, advance_refl.
  - rewrite (H st (advance_refl st)). f_equal.
    apply Hb. intros st1 A1. destruct (pos st <? pos st1); [|reflexivity].
    apply IH. intros st2 A2. apply H. eapply advance_0_trans; eauto.
Qed.

Lemma run_local (r : regex) : local (run r).
Proof.
  induction r as [ | c | neg items | a IHa b IHb | a IHa b IHb | a IHa | a IHa
                 | a IHa | n a IHa | | ]; intros k1 k2 st H; simpl.
  - apply H, advance_refl.
  - now apply step_char_local.
  - now apply step_char_local.
  - apply IHa. intros st1 A1. apply IHb. intros st2 A2.
    apply H. eapply advance_0_trans; eauto.
  - rewrite (IHa k1 k2 st H), (IHb k1 k2 st H). reflexivity.
  - now apply (repeat_local (run a)).
  - apply IHa. intros st1 A1. apply (repeat_local (run a)); [exact IHa|].
    intros st2 A2. apply H. eapply advance_0_trans; eauto.
  - rewrite (H st (advance_refl st)). f_equal.
    apply IHa. intros st1 A1. destruct (pos st <? pos st1); [|reflexivity].
    now apply H.
  - apply IHa. intros st1 A1. apply H.
    destruct A1 as (w & R & P & L). exists w; simpl; auto.
  - destruct (pos st =? 0); [apply H, advance_refl | reflexivity].
  - destruct (rest st); [apply H, advance_refl | reflexivity].
Qed.

Lemma run_fails (r : regex) (k : cont) (st : mstate) :
  (forall st', advance 0 st st' -> k st' = None) -> run r k st = None.
Proof.
  intros H. destruct (run r k st) as [res|] eqn:E; [|reflexivity].
  apply run_sound in E as (st' & A & E).
  rewrite H in E; [discriminate|]. eapply advance_weaken; [|exact A]. lia.
Qed.

(** The bound on the rounds of a starred group is never reached: any
    larger bound gives the same result. *)
Lemma repeat_greedy_bound (a : regex) (k : cont) (n m : nat) (st : mstate) :
  String.length (rest st) <= n -> String.length (rest st) <= m ->
  repeat_greedy (run a) k n st = repeat_greedy (run a) k m st.
Proof.
  revert m st. induction n as [|n IH]; intros m st Hn Hm.
  - destruct m as [|m]; [reflexivity|]. simpl.
    rewrite run_fails; [reflexivity|].
    intros st' A. pose proof (advance_length _ _ _ A).
    destruct (Nat.ltb_spec (pos st) (pos st')); [lia | reflexivity].
  - destruct m as [|m]; simpl.
    + rewrite run_fails; [reflexivity|].
      intros st' A. pose proof (advance_length _ _ _ A).
      destruct (Nat.ltb_spec (pos st) (pos st')); [lia | reflexivity].
    + f_equal. apply run_local. intros st' A.
      pose proof (advance_length _ _ _ A). pose proof (advance_pos _ _ _ A).
      destruct (Nat.ltb_spec (pos st) (pos st')); [|reflexivity].
      apply IH; lia.
Qed.

Lemma step_char_faithful (p : ascii -> bool) : faithful (step_char p) (reads p).
Proof.
  intros k st res. unfold step_char.
  destruct (rest st) as [|a s'] eqn:R; [discriminate|].
  destruct (p a) eqn:Pa; [|discriminate]. intros H.
  eexists; split; [|exact H]. exists a; simpl; auto.
Qed.

Lemma repeat_faithful (body : cont -> cont) (R : mstate -> mstate -> Prop) :
  faithful body R -> forall n, faithful (fun k => repeat_greedy body k n) (rounds R).
Proof.
  intros Hb n. induction n as [|n IH]; intros k st res; simpl.
  - intros H. exists st; split; [constructor | exact H].
  - intros H. apply orelse_some in H as [H|H].
    + apply Hb in H as (st1 & R1 & H1).
      destruct (Nat.ltb_spec (pos st) (pos st1)) as [L|]; [|discriminate].
      apply IH in H1 as (st2 & R2 & H2).
      exists st2; split; [|exact H2]. econstructor; eauto.
    + exists st; split; [constructor | exact H].
Qed.

Lemma run_faithful (r : regex) : faithful (run r) (derives r).
Proof.
  induction r as [ | c | neg items | a IHa b IHb | a IHa b IHb | a IHa | a IHa
                 | a IHa | n a IHa | | ]; intros k st res; cbn [run derives].
  - intros H; exists st; auto.
  - apply step_char_faithful.
  - apply step_char_faithful.
  - intros H. apply IHa in H as (st1 & D1 & H). apply IHb in H as (st2 & D2 & H).
    exists st2; split; [exists st1; auto | exact H].
  - intros H. apply orelse_some in H as [H|H].
    + apply IHa in H as (st1 & D & H). exists st1; auto.
    + apply IHb in H as (st1 & D & H). exists st1; auto.
  - apply (repeat_faithful (run a) (derives a) IHa).
  - intros H. apply IHa in H as (st1 & D1 & H).
    apply (repeat_faithful (run a) (derives a) IHa) in H as (st2 & D2 & H).
    exists st2; split; [exists st1; auto | exact H].
  - intros H. apply orelse_some in H as [H|H].
    + apply IHa in H as (st1 & D & H). destruct (pos st <? pos st1); [|discriminate].
      exists st1; auto.
    + exists st; auto.
  - intros H. apply IHa in H as (st1 & D & H).
    eexists; split; [|exact H]. exists st1; auto.
  - destruct (Nat.eqb_spec (pos st) 0); [|discriminate].
    intros H; exists st; auto.
  - destruct (rest st) eqn:R; [|discriminate].
    intros H; exists st; auto.
Qed.

(** Rounds of one character class read a run of characters of the class
    and leave the captures alone. *)
Lemma rounds_reads (p : ascii -> bool) (st st' : mstate) :
  rounds (reads p) st st' ->
  exists w, every p w = true /\ rest st = w +++ rest st' /\
            pos st' = pos st + String.length w /\ caps st' = caps st.
Proof.
  induction 1 as [st | st st1 st2 (a & Pa & R & P & C) _ _ (w & Ew & Rw & Pw & Cw)].
  - exists EmptyString; simpl; auto.
  - exists (String a w); simpl. rewrite Pa, Ew, R, Rw, Pw, Cw, P, C.
    repeat split; auto; lia.
Qed.

End RegexFacts.

(** ** Facts about successive matches *)
Module ScanFacts.
Import Regex StringFacts RegexFacts.

Lemma match_at_text (r : regex) (i : nat) (s : string) (mt : jsmatch) :
  match_at r i s = Some mt ->
  m_index mt = i /\ min_len r <= String.length (m_text mt) /\
  exists tail, s = m_text mt +++ tail.
Proof.
  unfold match_at. destruct (run r Some (MState i s [])) as [res|] eqn:E; [|discriminate].
  intros H; injection H as <-; simpl.
  apply run_sound in E as (st' & (w & R & P & L) & K).
  injection K as ->. simpl in R, P.
  replace (pos res - i) with (String.length w) by lia.
  rewrite R, substring_whole_prefix. split; [reflexivity|]. split; [exact L|].
  now exists (rest res).
Qed.

Lemma scan_step (r : regex) (skip i : nat) (c : ascii) (s : string) :
  scan r skip i (String c s) =
  match skip with
  | S k => scan r k (S i) s
  | 0 =>
      match match_at r i (String c s) with
      | Some mt => mt :: scan r (String.length (m_text mt) - 1) (S i) s
      | None => scan r 0 (S i) s
      end
  end.
Proof. destruct skip; reflexivity. Qed.

Lemma scan_end (r : regex) (skip i : nat) :
  scan r skip i EmptyString =
  match skip with
  | S _ => []
  | 0 => match match_at r i EmptyString with Some mt => [mt] | None => [] end
  end.
Proof. destruct skip; reflexivity. Qed.

(** Every match found by [scan] is a match at its index. *)
Lemma scan_matches (r : regex) (P : jsmatch -> Prop) :
  (forall i s mt, match_at r i s = Some mt -> P mt) ->
  forall s skip i, Forall P (scan r skip i s).
Proof.
  intros HP s. induction s as [|c s IH]; intros skip i.
  - rewrite scan_end. destruct skip; [|constructor].
    destruct (match_at r i EmptyString) eqn:E; [|constructor].
    constructor; [eapply HP; eauto | constructor].
  - rewrite scan_step. destruct skip; [|apply IH].
    destruct (match_at r i (String c s)) eqn:E; [|apply IH].
    constructor; [eapply HP; eauto | apply IH].
Qed.

Lemma matchAll_min_len (r : regex) (s : string) :
  Forall (fun mt => min_len r <= String.length (m_text mt)) (matchAll r s).
Proof.
  apply scan_matches. intros i s' mt H. now apply match_at_text in H.
Qed.

(** A regular expression that cannot match the empty string makes the
    exec loop advance: the loop ends, having seen every match. *)
Lemma execLoop_returns (r : regex) (s : string) :
  1 <= min_len r -> execLoop r s = Some (matchAll r s).
Proof.
  intros Hr. unfold execLoop.
  pose proof (matchAll_min_len r s) as F.
  induction F as [|mt ms Hmt F IH]; [reflexivity|]. simpl.
  destruct (Nat.eqb_spec (String.length (m_text mt)) 0); [lia|]. simpl.
  destruct (existsb _ ms); [discriminate IH | reflexivity].
Qed.

End ScanFacts.

(** ** Facts about the passes *)
Module ValidatorFacts.
Import JSString Regex Validator Spec StringFacts RegexFacts ScanFacts.

Lemma extend_nil (r : ValidationReport) : extend r [] [] = r.
Proof. destruct r; unfold extend; simpl; now rewrite !app_nil_r. Qed.

Lemma extend_extend (r : ValidationReport) (e w e' w' : list string) :
  extend (extend r e w) e' w' = extend r (e ++ e') (w ++ w').
Proof. unfold extend; simpl; now rewrite !app_assoc. Qed.

Lemma pushError_extend (m : string) (r : ValidationReport) :
  pushError m r = extend r [m] [].
Proof. unfold pushError, extend; now rewrite app_nil_r. Qed.

Lemma pushWarning_extend (m : string) (r : ValidationReport) :
  pushWarning m r = extend r [] [m].
Proof. unfold pushWarning, extend; now rewrite app_nil_r. Qed.

Section Emits.
Variables PE PW : string -> Prop.

Lemma emits_skip : emits PE PW Some.
Proof. exists [], []; repeat split; auto. intros r; now rewrite extend_nil. Qed.

Lemma emits_error (m : string) : PE m -> emits PE PW (fun r => Some (pushError m r)).
Proof.
  intros H; exists [m], []; repeat split; auto.
  intros r; now rewrite pushError_extend.
Qed.

Lemma emits_warning (m : string) : PW m -> emits PE PW (fun r => Some (pushWarning m r)).
Proof.
  intros H; exists [], [m]; repeat split; auto.
  intros r; now rewrite pushWarning_extend.
Qed.

Lemma emits_bind (f g : ValidationReport -> option ValidationReport) :
  emits PE PW f -> emits PE PW g -> emits PE PW (fun r => bind (f r) g).
Proof.
  intros (e1 & w1 & E1 & W1 & F) (e2 & w2 & E2 & W2 & G).
  exists (e1 ++ e2), (w1 ++ w2). repeat split; try (apply Forall_app; auto).
  intros r. rewrite F; simpl. now rewrite G, extend_extend.
Qed.

Lemma emits_ext (f g : ValidationReport -> option ValidationReport) :
  (forall r, f r = g r) -> emits PE PW f -> emits PE PW g.
Proof.
  intros H (e & w & E & W & F). exists e, w; repeat split; auto.
  intros r; now rewrite <- H.
Qed.

Lemma emits_foldM {B : Type} (f : ValidationReport -> B -> option ValidationReport) :
  (forall x, emits PE PW (fun r => f r x)) -> forall l, emits PE PW (foldM f l).
Proof.
  intros H l. induction l as [|x l IH].
  - exact emits_skip.
  - apply (emits_ext (fun r => bind (f r x) (foldM f l))).
    + intros r; simpl. destruct (f r x); reflexivity.
    + apply emits_bind; [apply H | exact IH].
Qed.

Lemma emits_fold_left {B : Type} (f : ValidationReport -> B -> ValidationReport) :
  (forall x, emits PE PW (fun r => Some (f r x))) ->
  forall l, emits PE PW (fun r => Some (fold_left f l r)).
Proof.
  intros H l. induction l as [|x l IH].
  - exact emits_skip.
  - apply (emits_ext (fun r => bind (Some (f r x)) (fun r' => Some (fold_left f l r')))).
    + intros r; reflexivity.
    + apply (emits_bind (fun r => Some (f r x))); [apply H | exact IH].
Qed.

End Emits.

Lemma emits_weaken (PE PW PE' PW' : string -> Prop)
  (f : ValidationReport -> option ValidationReport) :
  (forall s, PE s -> PE' s) -> (forall s, PW s -> PW' s) ->
  emits PE PW f -> emits PE' PW' f.
Proof.
  intros HE HW (e & w & E & W & F). exists e, w; repeat split; auto.
  - eapply Forall_impl; eauto.
  - eapply Forall_impl; eauto.
Qed.

(** The three exec loops of the validator return. *)
Lemma execLoop_tagRegex (s : string) : execLoop tagRegex s = Some (matchAll tagRegex s).
Proof. apply execLoop_returns. vm_compute. lia. Qed.

Lemma execLoop_openTagRegex (s : string) :
  execLoop openTagRegex s = Some (matchAll openTagRegex s).
Proof. apply execLoop_returns. vm_compute. lia. Qed.

Lemma execLoop_attrRegex (s : string) : execLoop attrRegex s = Some (matchAll attrRegex s).
Proof. apply execLoop_returns. vm_compute. lia. Qed.

(** *** Pass 1 *)
Lemma basic_extend (ssml : string) (r : ValidationReport) :
  _validateBasicStructure ssml r = extend r (basicErrors ssml) [].
Proof.
  unfold _validateBasicStructure, basicErrors.
  destruct (startsWith (trim ssml) "<speak"), (endsWith (trim ssml) "</speak>"),
    (List.length (matchAll speakOpenRegex ssml) =? List.length (matchAll speakCloseRegex ssml)),
    (1 <? List.length (matchAll speakOpenRegex ssml));
    cbn [negb app]; rewrite ?pushError_extend, ?extend_extend; cbn [app];
    now rewrite ?extend_nil.
Qed.

(** *** Pass 2 *)
Lemma xml_fold (ms : list jsmatch) :
  forall (opened : list string) (r : ValidationReport),
    (let '(stack, r') := fold_left xmlTag ms (rev opened, r) in unclosed stack r')
    = extend r (stackErrors ms opened) [].
Proof.
  induction ms as [|mt ms IH]; intros opened r.
  - cbn [fold_left stackErrors]. unfold unclosed.
    destruct opened as [|top below].
    + simpl. now rewrite extend_nil.
    + replace (0 <? List.length (rev (top :: below))) with true.
      * now rewrite pushError_extend.
      * symmetry. apply Nat.ltb_lt. rewrite length_rev. simpl. lia.
  - cbn [fold_left stackErrors]. unfold xmlTag at 2, kindOf.
    destruct (includes (m_text mt) "/>" && negb (startsWith (m_text mt) "</")).
    { apply IH. }
    destruct (startsWith (m_text mt) "</").
    + destruct opened as [|top below].
      * cbn [rev List.length Nat.eqb]. rewrite (IH [] _), pushError_extend, extend_extend.
        reflexivity.
      * cbn [rev]. rewrite length_app, Nat.add_comm. cbn [List.length Nat.add Nat.eqb].
        rewrite last_last, removelast_last.
        destruct (String.eqb top (group 1 mt)); cbn [negb].
        -- apply IH.
        -- rewrite IH, pushError_extend, extend_extend. reflexivity.
    + apply (IH (group 1 mt :: opened)).
Qed.

Lemma xml_extend (ssml : string) (r : ValidationReport) :
  _validateXMLStructure ssml r
  = Some (extend r (stackErrors (matchAll tagRegex ssml) []) []).
Proof.
  unfold _validateXMLStructure. rewrite execLoop_tagRegex. cbn [bind].
  pose proof (xml_fold (matchAll tagRegex ssml) [] r) as H. cbn [rev] in H.
  destruct (fold_left xmlTag (matchAll tagRegex ssml) ([], r)) as [stack r'].
  now rewrite H.
Qed.

Lemma stackErrors_initial (ms : list jsmatch) :
  forall opened, Forall (initialIn ["U"; "M"]%char) (stackErrors ms opened).
Proof.
  induction ms as [|mt ms IH]; intros opened; cbn [stackErrors].
  - destruct opened; constructor; [simpl; auto | constructor].
  - destruct (kindOf (m_text mt)); [apply IH | | apply IH].
    destruct opened as [|top below].
    + constructor; [simpl; auto | apply IH].
    + destruct (String.eqb top (group 1 mt)); [apply IH|].
      constructor; [simpl; auto | apply IH].
Qed.

(** *** Pass 5 *)
Lemma peak_nonneg (l : list Z) : (0 <= peak l)%Z.
Proof. destruct l; simpl; lia. Qed.

Lemma nesting_fold (ms : list jsmatch) :
  forall mx cur : Z, (cur <= mx)%Z ->
    fst (fold_left nestingTag ms (mx, cur))
    = Z.max mx (cur + peak (map (fun mt => delta (nestingKind (m_text mt))) ms)).
Proof.
  induction ms as [|mt ms IH]; intros mx cur H.
  - simpl. lia.
  - cbn [fold_left map peak]. unfold nestingTag at 2, nestingKind.
    pose proof (peak_nonneg (map (fun mt => delta (nestingKind (m_text mt))) ms)) as P.
    unfold nestingKind in P.
    destruct (endsWith (m_text mt) "/>"); [|destruct (startsWith (m_text mt) "</")];
      rewrite IH by lia; cbn [delta]; unfold nestingKind; lia.
Qed.

Lemma getMaxNesting_peak (ssml : string) : _getMaxNesting ssml = Some (maxNesting ssml).
Proof.
  unfold _getMaxNesting, maxNesting. rewrite execLoop_tagRegex. cbn [bind].
  rewrite nesting_fold by lia.
  f_equal.
  pose proof (peak_nonneg (map (fun mt => delta (nestingKind (m_text mt)))
                             (matchAll tagRegex ssml))).
  lia.
Qed.

Lemma common_extend (ssml : string) (r : ValidationReport) :
  _checkCommonIssues ssml r = Some (extend r [] (commonWarnings ssml)).
Proof.
  unfold _checkCommonIssues, commonWarnings. rewrite getMaxNesting_peak. cbn [bind].
  destruct (longSegment (split breakRegex ssml)), (5 <? maxNesting ssml)%Z,
    (includes ssml "><");
    rewrite ?pushWarning_extend, ?extend_extend; cbn [app]; now rewrite ?extend_nil.
Qed.

(** *** Pass 3 *)
Section SchemaPass.
Let PE : string -> Prop := initialIn ["M"; "I"]%char.
Let PW : string -> Prop := initialIn ["U"]%char.

Lemma checkRequired_emits (tagName : string) (foundAttrs : list string) (x : string) :
  emits PE PW (fun r => Some (checkRequired tagName foundAttrs r x)).
Proof.
  unfold checkRequired. destruct (negb (has foundAttrs x)).
  - apply emits_error. simpl; auto.
  - apply emits_skip.
Qed.

Lemma checkAttribute_emits (tagName : string) (table : list (string * constraint))
  (mt : jsmatch) :
  emits PE PW (fun r => Some (checkAttribute tagName table r mt)).
Proof.
  unfold checkAttribute.
  destruct (getProperty table (group 1 mt)) as [[alts|re]| |].
  - destruct (negb (anyValid alts (group 2 mt)));
      [apply emits_error; simpl; auto | apply emits_skip].
  - destruct (negb (test re (group 2 mt)));
      [apply emits_error; simpl; auto | apply emits_skip].
  - cbn [negb]. apply emits_error; simpl; auto.
  - apply emits_skip.
Qed.

Lemma validateAttributes_emits (tagName attributes : string) :
  emits PE PW (_validateAttributes tagName attributes).
Proof.
  unfold _validateAttributes. destruct (own validAttributeValues tagName) as [table|].
  - rewrite execLoop_attrRegex. cbn [bind].
    apply emits_fold_left. intros mt. apply checkAttribute_emits.
  - apply emits_skip.
Qed.

Lemma checkTag_emits (mt : jsmatch) : emits PE PW (fun r => checkTag r mt).
Proof.
  unfold checkTag.
  destruct (startsWith (m_text mt) "</"); [apply emits_skip|].
  destruct (negb (has supportedTags (group 1 mt))).
  { apply emits_warning. simpl; auto. }
  apply emits_bind; [|apply validateAttributes_emits].
  destruct (own requiredAttributes (group 1 mt)) as [required|]; [|apply emits_skip].
  destruct (negb (includes (m_text mt) "/>")); [|apply emits_skip].
  rewrite execLoop_attrRegex. cbn [bind].
  apply emits_fold_left. intros x. apply checkRequired_emits.
Qed.

Lemma tags_emits (ssml : string) : emits PE PW (_validateSSMLTags ssml).
Proof.
  unfold _validateSSMLTags. rewrite execLoop_openTagRegex. cbn [bind].
  apply emits_foldM. exact checkTag_emits.
Qed.

End SchemaPass.

(** *** The whole call *)
Lemma passes_shape (ssml : string) :
  exists e3 w3,
    Forall (initialIn ["M"; "I"]%char) e3 /\ Forall (initialIn ["U"]%char) w3 /\
    (forall r0, _validateSSMLTags ssml r0 = Some (extend r0 e3 w3)) /\
    passes ssml initial =
    Some (mkReport true
            (basicErrors ssml ++ stackErrors (matchAll tagRegex ssml) [] ++ e3)
            (w3 ++ commonWarnings ssml)
            (info (_calculateMetrics ssml initial))).
Proof.
  destruct (tags_emits ssml) as (e3 & w3 & E3 & W3 & F).
  exists e3, w3. repeat split; auto.
  unfold passes.
  rewrite basic_extend, xml_extend. cbn [bind].
  rewrite F. cbn [bind].
  rewrite common_extend.
  unfold _calculateMetrics, extend, initial.
  cbn [errors warnings info valid app].
  rewrite app_nil_r, <- app_assoc. reflexivity.
Qed.

Lemma validate_shape (ssml : string) :
  exists e3 w3,
    Forall (initialIn ["M"; "I"]%char) e3 /\ Forall (initialIn ["U"]%char) w3 /\
    (forall r0, _validateSSMLTags ssml r0 = Some (extend r0 e3 w3)) /\
    validate ssml =
    Some (mkReport
            (List.length (basicErrors ssml ++ stackErrors (matchAll tagRegex ssml) [] ++ e3) =? 0)
            (basicErrors ssml ++ stackErrors (matchAll tagRegex ssml) [] ++ e3)
            (w3 ++ commonWarnings ssml)
            (info (_calculateMetrics ssml initial))).
Proof.
  destruct (passes_shape ssml) as (e3 & w3 & E3 & W3 & F & P).
  exists e3, w3. repeat split; auto.
  unfold validate. rewrite P. reflexivity.
Qed.

(** A token of the schema pass never starts with the two characters of a
    closing tag: its second character is a name character. *)
Lemma openTag_text (i : nat) (s : string) (mt : jsmatch) :
  match_at openTagRegex i s = Some mt -> startsWith (m_text mt) "</" = false.
Proof.
  intros H. destruct (match_at_text _ _ _ _ H) as (_ & L & tail & E).
  unfold match_at in H.
  destruct (run openTagRegex Some (MState i s [])) as [res|] eqn:R; [|discriminate].
  clear H. unfold openTagRegex, nameChar in R. cbn [run] in R.
  unfold step_char at 1 in R. cbn [rest] in R.
  destruct s as [|a s1]; [discriminate|].
  destruct (Ascii.eqb "<" a); [|discriminate].
  unfold step_char at 1 in R. cbn [rest] in R.
  destruct s1 as [|b s2]; [discriminate|].
  destruct (in_class false [CRange "a" "z"; CRange "A" "Z"; CChar ":"; CChar "-"] b) eqn:Eb;
    [|discriminate].
  clear R. change (min_len openTagRegex) with 3 in L.
  destruct (m_text mt) as [|a' [|b' t]]; simpl in L; try lia.
  simpl in E. injection E as -> -> _.
  cbn [startsWith].
  destruct (Ascii.eqb_spec b' "/") as [->|]; [|now rewrite andb_false_r].
  vm_compute in Eb. discriminate Eb.
Qed.

Lemma openTag_matches (ssml : string) :
  Forall (fun mt => startsWith (m_text mt) "</" = false) (matchAll openTagRegex ssml).
Proof. apply scan_matches. exact openTag_text. Qed.

(** Messages already in the report stay there. *)
Lemma foldM_checkTag_keeps (ms : list jsmatch) (r r' : ValidationReport) (msg : string) :
  foldM checkTag ms r = Some r' -> In msg (warnings r) -> In msg (warnings r').
Proof.
  intros H Hin.
  destruct (emits_foldM _ _ checkTag checkTag_emits ms) as (e & w & _ & _ & F).
  rewrite F in H. injection H as <-. simpl. apply in_or_app. now left.
Qed.

Lemma unsupported_step (result : ValidationReport) (mt : jsmatch) :
  startsWith (m_text mt) "</" = false ->
  has supportedTags (group 1 mt) = false ->
  checkTag result mt
  = Some (pushWarning ("Unsupported tag: <" +++ group 1 mt +++ ">") result).
Proof. intros H1 H2. unfold checkTag. now rewrite H1, H2. Qed.

Lemma foldM_checkTag_unsupported (ms : list jsmatch) :
  forall (r r' : ValidationReport) (mt : jsmatch),
    Forall (fun mt => startsWith (m_text mt) "</" = false) ms ->
    foldM checkTag ms r = Some r' ->
    In mt ms -> has supportedTags (group 1 mt) = false ->
    In ("Unsupported tag: <" +++ group 1 mt +++ ">") (warnings r').
Proof.
  induction ms as [|m0 ms IH]; intros r r' mt F H Hin Hun; [contradiction|].
  inversion F as [|? ? F0 F']; subst. cbn [foldM] in H.
  destruct (checkTag r m0) as [r1|] eqn:E; [|discriminate].
  destruct Hin as [->|Hin].
  - rewrite (unsupported_step r mt F0 Hun) in E. injection E as E. subst r1.
    eapply foldM_checkTag_keeps; [exact H|].
    simpl. apply in_or_app. right. now left.
  - eapply IH; eauto.
Qed.

(** *** Tokens *)
Lemma reads_eqb (c : ascii) (st st' : mstate) :
  reads (Ascii.eqb c) st st' ->
  rest st = String c (rest st') /\ pos st' = S (pos st) /\ caps st' = caps st.
Proof.
  intros (a & E & R & P & C). apply Ascii.eqb_eq in E as <-. auto.
Qed.



Lemma openTagRegex_token (i : nat) (s : string) (mt : jsmatch) :
  match_at openTagRegex i s = Some mt -> openTagShape mt.
Proof.
  unfold match_at.
  destruct (run openTagRegex Some (MState i s [])) as [res|] eqn:R; [|discriminate].
  intros H; injection H as <-.
  apply run_faithful in R as (st' & D & K). injection K as ->.
  unfold openTagRegex, nameChar, notGt in D. cbn [derives] in D.
  destruct D as (st1 & R1 & st2 & (inner & (n1 & Rn & RS) & E2)
                 & st3 & (inner2 & RS2 & E3) & R5).
  apply reads_eqb in R1 as (R1 & P1 & C1). cbn [rest pos caps] in R1, P1, C1.
  destruct Rn as (a1 & Pa & Rn & Pn & Cn).
  apply rounds_reads in RS as (w1 & Ew1 & Rw1 & Pw1 & Cw1).
  subst st2. cbn [rest pos caps] in RS2, E3.
  apply rounds_reads in RS2 as (attributes & Ex & Rx & Px & Cx).
  cbn [rest pos caps] in Rx, Px, Cx.
  subst st3. apply reads_eqb in R5 as (R5 & P5 & C5). cbn [rest pos caps] in R5, P5, C5.
  exists (String a1 w1), attributes.
  assert (Ecap1 : String.substring 0 (pos inner - pos st1) (rest st1) = String a1 w1).
  { rewrite Rn, Rw1.
    replace (pos inner - pos st1) with (String.length (String a1 w1)) by (simpl; lia).
    exact (substring_whole_prefix (String a1 w1) (rest inner)). }
  assert (Ecap2 : String.substring 0 (pos inner2 - pos inner) (rest inner) = attributes).
  { rewrite Rx.
    replace (pos inner2 - pos inner) with (String.length attributes) by lia.
    apply substring_whole_prefix. }
  split; [discriminate|].
  split; [simpl; unfold isNameChar; now rewrite Pa, Ew1|].
  split; [exact Ex|]. split; [|split].
  - cbn [m_text].
    assert (Es : s = ("<" +++ String a1 w1 +++ attributes +++ ">") +++ rest res).
    { rewrite R1, Rn, Rw1, Rx, R5. rewrite !append_assoc. reflexivity. }
    rewrite Es at 1.
    replace (pos res - i) with (String.length ("<" +++ String a1 w1 +++ attributes +++ ">")).
    + apply substring_whole_prefix.
    + rewrite !length_append. simpl. rewrite ?length_append. simpl. lia.
  - unfold group. cbn [m_caps]. rewrite C5. cbn [assoc Nat.eqb]. rewrite Cx.
    cbn [assoc Nat.eqb]. exact Ecap1.
  - unfold group. cbn [m_caps]. rewrite C5. cbn [assoc Nat.eqb]. exact Ecap2.
Qed.

Lemma openTagRegex_tokens (ssml : string) : Forall openTagShape (matchAll openTagRegex ssml).
Proof. apply scan_matches. exact openTagRegex_token. Qed.



End ValidatorFacts.

(** ** The validity flag, the passes and the sample documents *)
Module Report.
Import JSString Regex Validator Spec StringFacts RegexFacts ScanFacts ValidatorFacts Samples.

(** C1. The report that [validate] returns has [valid] equal to the test
    that its final list of errors is empty, whatever its warnings: the
    flag is true exactly when there is no error.  The flag is not kept up
    to date along the way: when the last pass is over it still has its
    initial value, and the last statement computes it from the errors
    that the passes left. *)
Theorem valid_iff_no_errors (ssml : string) :
  exists r after,
    passes ssml initial = Some after /\ valid after = true /\
    validate ssml = Some r /\
    errors r = errors after /\ warnings r = warnings after /\
    valid r = (List.length (errors r) =? 0) /\
    (valid r = true <-> errors r = []).
Proof.
  destruct (passes_shape ssml) as (e3 & w3 & _ & _ & _ & P).
  eexists; eexists. split; [exact P|]. split; [reflexivity|].
  unfold validate. rewrite P. cbn [bind valid errors warnings].
  split; [reflexivity|]. split; [reflexivity|]. split; [reflexivity|].
  split; [reflexivity|].
  destruct (basicErrors ssml ++ stackErrors (matchAll tagRegex ssml) [] ++ e3);
    simpl; split; congruence.
Qed.

Example invalid_report_flag :
  option_map valid (passes "no markup" initial) = Some true /\
  option_map valid (validate "no markup") = Some false.
Proof. split; vm_compute; reflexivity. Qed.

(** C2 as stated fails: for the hello-world document the report does not
    have characterCount 13 and tagCount 3. *)
Lemma hello_world_not_13_and_3 :
  ~ (exists r, validate helloWorld = Some r /\ valid r = true /\ errors r = [] /\
               characterCount (info r) = 13 /\ tagCount (info r) = 3).
Proof.
  intros (r & H & _ & _ & Hc & _).
  vm_compute in H. injection H as <-. discriminate Hc.
Qed.

(** C2, amended. For the hello-world document [validate] returns a valid
    report without errors whose characterCount is 12 (the length of
    "Hello world!") and whose tagCount is 4 (two opening and two closing
    tags). *)
Theorem hello_world_report :
  exists r, validate helloWorld = Some r /\ valid r = true /\ errors r = [] /\
            characterCount (info r) = 12 /\ tagCount (info r) = 4.
Proof. eexists; split; [vm_compute; reflexivity|]. repeat split. Qed.

(** C5. [validate] returns a report for every string: no loop of the
    call runs for ever and nothing is thrown.  The empty string and a text
    without markup come back as reports that carry the two root-tag
    errors. *)
Theorem validate_total :
  (forall ssml, exists r, validate ssml = Some r) /\
  (exists r, validate EmptyString = Some r /\ valid r = false /\
             errors r = ["SSML must start with <speak> tag";
                         "SSML must end with </speak> tag"]) /\
  (exists r, validate "plain text" = Some r /\ valid r = false /\
             errors r = ["SSML must start with <speak> tag";
                         "SSML must end with </speak> tag"]).
Proof.
  split; [|split].
  - intros ssml. destruct (validate_shape ssml) as (e3 & w3 & _ & _ & _ & H).
    eexists; exact H.
  - eexists; split; [vm_compute; reflexivity|]. split; reflexivity.
  - eexists; split; [vm_compute; reflexivity|]. split; reflexivity.
Qed.

(** C8. Every pass runs on every call: the errors of the report are the
    errors of the root-structure pass, then those of the well-formedness
    pass, then those of the schema pass, each as the pass emits them on
    its own; the warnings are those of the schema pass, then the
    heuristic ones; the metrics are those of the metrics pass.  The
    unterminated document is invalid with both the missing closing root
    tag and the unclosed speak tag reported. *)
Theorem passes_accumulate :
  (forall ssml, exists r r2 r3 r5,
      validate ssml = Some r /\
      _validateXMLStructure ssml initial = Some r2 /\
      _validateSSMLTags ssml initial = Some r3 /\
      _checkCommonIssues ssml initial = Some r5 /\
      errors r = errors (_validateBasicStructure ssml initial) ++ errors r2 ++ errors r3 /\
      warnings r = warnings r3 ++ warnings r5 /\
      info r = info (_calculateMetrics ssml initial)) /\
  (exists r, validate "<speak>unterminated" = Some r /\ valid r = false /\
             In "SSML must end with </speak> tag" (errors r) /\
             In "Unclosed tags: <speak>" (errors r)).
Proof.
  split.
  - intros ssml. destruct (validate_shape ssml) as (e3 & w3 & _ & _ & F & H).
    eexists; eexists; eexists; eexists.
    split; [exact H|].
    split; [apply xml_extend|].
    split; [apply F|].
    split; [apply common_extend|].
    rewrite basic_extend. cbn [errors warnings info extend initial app].
    repeat split.
  - eexists; split; [vm_compute; reflexivity|]. cbn [valid errors].
    split; [reflexivity|]. split; simpl; auto.
Qed.

End Report.

(** ** The well-formedness pass *)
Module WellFormed.
Import JSString Regex Validator Spec ValidatorFacts.


(** The two three-way tests part on a closing tag written with a slash
    before its bracket: the well-formedness pass pops on it, the nesting
    heuristic passes over it. *)
Example closing_slash_token_kinds :
  kindOf "</a/>" = Closing /\ nestingKind "</a/>" = SelfClosing.
Proof. split; reflexivity. Qed.

Example unclosed_in_push_order :
  option_map errors (_validateXMLStructure "<a><b><c/>" initial)
  = Some ["Unclosed tags: <a>, <b>"].
Proof. vm_compute. reflexivity. Qed.

Example mismatch_discards_frame :
  option_map errors (_validateXMLStructure "<a><b></a></a>" initial)
  = Some ["Mismatched tags: expected </b>, found </a>"].
Proof. vm_compute. reflexivity. Qed.

Example unexpected_then_continue :
  option_map errors (_validateXMLStructure "</a><b>" initial)
  = Some ["Unexpected closing tag: </a>"; "Unclosed tags: <b>"].
Proof. vm_compute. reflexivity. Qed.

End WellFormed.

(** ** The schema pass *)
Module Schema.
Import JSString Regex Validator Spec StringFacts RegexFacts ScanFacts ValidatorFacts Samples.

Lemma own_In {A : Type} (obj : list (string * A)) (key : string) (v : A) :
  own obj key = Some v -> In (key, v) obj.
Proof.
  induction obj as [|[k x] obj IH]; simpl; [discriminate|].
  destruct (String.eqb_spec k key) as [->|].
  - intros H; injection H as ->; now left.
  - intros H; right; auto.
Qed.

Lemma anchoredAltb_sound (alt : alternative) : anchoredAltb alt = true -> anchoredAlt alt.
Proof.
  destruct alt as [lit|r]; simpl; [trivial|].
  destruct r as [ | | | r1 r2 | | | | | | | ]; try discriminate.
  destruct r1; try discriminate.
  destruct r2 as [ | | | body e | | | | | | | ]; try discriminate.
  destruct e; try discriminate.
  intros _. now exists body.
Qed.

Lemma schema_anchored (tagName attrName : string) (table : list (string * constraint))
  (c : constraint) :
  own validAttributeValues tagName = Some table ->
  own table attrName = Some c ->
  Forall anchoredAlt (alternatives c).
Proof.
  intros Ht Hc. apply own_In in Ht, Hc.
  assert (B : forallb (fun tv => forallb (fun ac => forallb anchoredAltb (alternatives (snd ac)))
                                   (snd tv)) validAttributeValues = true)
    by (vm_compute; reflexivity).
  rewrite forallb_forall in B. specialize (B _ Ht). cbn [snd] in B.
  rewrite forallb_forall in B. specialize (B _ Hc). cbn [snd] in B.
  rewrite forallb_forall in B. apply Forall_forall. intros alt Ha.
  now apply anchoredAltb_sound, B.
Qed.

(** Between anchors a pattern is tested against the whole value. *)
Lemma test_from_anchored_later (body : regex) (s : string) (i : nat) :
  test_from (anchored body) (S i) s = false.
Proof.
  revert i. induction s as [|c s IH]; intros i; simpl; [reflexivity | apply IH].
Qed.

Lemma test_anchored (body : regex) (value : string) :
  test (anchored body) value = full_match body value.
Proof.
  unfold test, full_match.
  assert (E : run (anchored body) Some (MState 0 value [])
              = run body (fun st => match rest st with
                                    | EmptyString => Some st
                                    | String _ _ => None
                                    end) (MState 0 value [])) by reflexivity.
  destruct value as [|c value]; cbn [test_from]; rewrite E;
    destruct (run body _ _); try reflexivity.
  apply test_from_anchored_later.
Qed.

Lemma anchored_inj (b1 b2 : regex) : anchored b1 = anchored b2 -> b1 = b2.
Proof. unfold anchored. intros H; now injection H. Qed.

Lemma anyValid_satisfies (alts : list alternative) (value : string) :
  Forall anchoredAlt alts ->
  (anyValid alts value = true <-> exists alt, In alt alts /\ satisfies alt value).
Proof.
  induction 1 as [|alt alts Ha F IH]; cbn [anyValid].
  - split; [discriminate | intros (alt & [] & _)].
  - destruct alt as [lit|r].
    + destruct (String.eqb_spec lit value) as [->|N].
      * split; [|reflexivity]. intros _. exists (Lit value). split; [now left | reflexivity].
      * rewrite IH. split.
        -- intros (alt & Hin & Hs). exists alt; split; [now right | exact Hs].
        -- intros (alt & [<-|Hin] & Hs); [simpl in Hs; congruence | eauto].
    + destruct Ha as (body & ->). rewrite test_anchored.
      destruct (full_match body value) eqn:E.
      * split; [|reflexivity]. intros _. exists (Pat (anchored body)).
        split; [now left | now exists body].
      * rewrite IH. split.
        -- intros (alt & Hin & Hs). exists alt; split; [now right | exact Hs].
        -- intros (alt & [<-|Hin] & Hs); [|eauto].
           destruct Hs as (b & Hb & Hm). apply anchored_inj in Hb as <-. congruence.
Qed.

Lemma checkRequired_fold (tagName : string) (foundAttrs required : list string) :
  forall r,
    fold_left (checkRequired tagName foundAttrs) required r
    = extend r
        (map (fun a => "Missing required attribute '" +++ a +++ "' for tag <" +++ tagName +++ ">")
             (filter (fun a => negb (has foundAttrs a)) required)) [].
Proof.
  induction required as [|a required IH]; intros r; cbn [fold_left filter map].
  - now rewrite extend_nil.
  - rewrite IH. unfold checkRequired.
    destruct (negb (has foundAttrs a)); cbn [map]; [|reflexivity].
    now rewrite pushError_extend, extend_extend.
Qed.

(** C4. A token of the schema pass (a bracket, a name, the attribute
    text, a bracket) whose name is not a supported tag adds one warning, the unsupported-tag message with its name, and nothing
    else: no error, no further check for that token; the warning is in the
    report that [validate] returns.  The bad-tag document is valid and
    carries the warning for badtag. *)
Theorem unsupported_tag_is_warning :
  (forall ssml mt,
      In mt (matchAll openTagRegex ssml) ->
      has supportedTags (group 1 mt) = false ->
      openTagShape mt /\
      (forall result, exists r',
          checkTag result mt = Some r' /\
          errors r' = errors result /\
          warnings r' = warnings result ++ ["Unsupported tag: <" +++ group 1 mt +++ ">"]) /\
      (exists r, validate ssml = Some r /\
                 In ("Unsupported tag: <" +++ group 1 mt +++ ">") (warnings r))) /\
  (exists r, validate badTagDocument = Some r /\ valid r = true /\
             In "Unsupported tag: <badtag>" (warnings r)).
Proof.
  split.
  - intros ssml mt Hin Hun.
    pose proof (openTag_matches ssml) as F.
    assert (Hopen : startsWith (m_text mt) "</" = false)
      by (rewrite Forall_forall in F; now apply F).
    split; [|split].
    + pose proof (openTagRegex_tokens ssml) as T. rewrite Forall_forall in T. now apply T.
    + intros result. eexists. split; [now apply unsupported_step|]. split; reflexivity.
    + destruct (validate_shape ssml) as (e3 & w3 & _ & _ & T & H).
      eexists; split; [exact H|]. cbn [warnings]. apply in_or_app; left.
      specialize (T initial). unfold _validateSSMLTags in T.
      rewrite execLoop_openTagRegex in T. cbn [bind] in T.
      exact (foldM_checkTag_unsupported _ _ _ mt F T Hin Hun).
  - eexists; split; [vm_compute; reflexivity|]. split; [reflexivity|]. simpl; auto.
Qed.

Lemma unsupported_tag_is_warning_witness :
  In (JSMatch 7 "<badtag>" [(2, EmptyString); (1, "badtag")])
     (matchAll openTagRegex badTagDocument) /\
  has supportedTags "badtag" = false /\
  exists r, validate badTagDocument = Some r /\
            In "Unsupported tag: <badtag>" (warnings r).
Proof.
  assert (Hin : In (JSMatch 7 "<badtag>" [(2, EmptyString); (1, "badtag")])
                   (matchAll openTagRegex badTagDocument))
    by (vm_compute; auto).
  split; [exact Hin|]. split; [reflexivity|].
  exact (proj2 (proj2 (proj1 unsupported_tag_is_warning badTagDocument _ Hin eq_refl))).
Defined.



Example self_closing_skips_required :
  option_map errors (validate "<speak><audio/></speak>") = Some [].
Proof. vm_compute. reflexivity. Qed.

Example missing_required_reported :
  option_map errors (validate ("<speak><phoneme ph=" +++ quoted "x" +++ ">a</phoneme></speak>"))
  = Some ["Missing required attribute 'alphabet' for tag <phoneme>"].
Proof. vm_compute. reflexivity. Qed.



Example time_pattern_accepts :
  option_map errors (validate ("<speak><break time=" +++ quoted "1.5s" +++ "/></speak>")) = Some [].
Proof. vm_compute. reflexivity. Qed.

Example time_pattern_rejects_partial :
  option_map errors (validate ("<speak><break time=" +++ quoted "x1.5s" +++ "/></speak>"))
  = Some ["Invalid value 'x1.5s' for attribute 'time' in tag <break>"].
Proof. vm_compute. reflexivity. Qed.

(** An attribute whose name is a member of Object.prototype finds a
    value that is neither an array nor a RegExp. *)
Example inherited_name_rejected :
  option_map errors (validate ("<speak><break constructor=" +++ quoted "x" +++ "/></speak>"))
  = Some ["Invalid value 'x' for attribute 'constructor' in tag <break>"].
Proof. vm_compute. reflexivity. Qed.

End Schema.

(** ** The heuristic warnings *)
Module Heuristics.
Import JSString Regex Validator Spec ValidatorFacts Samples.

(** C9. The depth that [_getMaxNesting] returns is the peak of the depth
    along the tokens, up by one on an opening token, down by one on a
    closing token, unchanged on a self-closing token (for this heuristic
    a token that ends with a slash and a bracket); the deep-nesting
    warning is in the report exactly when that depth exceeds 5.  Six
    nested supported tags carry the warning, five do not. *)
Theorem deep_nesting_warning :
  (forall ssml, exists r,
      validate ssml = Some r /\
      _getMaxNesting ssml = Some (maxNesting ssml) /\
      (In deepNesting (warnings r) <-> (5 < maxNesting ssml)%Z)) /\
  (maxNesting sixLevels = 6%Z /\
   exists r, validate sixLevels = Some r /\ valid r = true /\ In deepNesting (warnings r)) /\
  (maxNesting fiveLevels = 5%Z /\
   exists r, validate fiveLevels = Some r /\ valid r = true /\ ~ In deepNesting (warnings r)).
Proof.
  split; [|split].
  - intros ssml. destruct (validate_shape ssml) as (e3 & w3 & _ & W3 & _ & H).
    eexists; split; [exact H|]. split; [apply getMaxNesting_peak|].
    cbn [warnings]. rewrite in_app_iff. unfold deepNesting.
    assert (N : ~ In "Deep tag nesting detected - consider simplifying structure" w3).
    { intros Hin. rewrite Forall_forall in W3. apply W3 in Hin.
      simpl in Hin. destruct Hin as [Hin|[]]. discriminate Hin. }
    unfold commonWarnings.
    destruct (Z.ltb_spec 5 (maxNesting ssml)) as [L|L];
      destruct (longSegment (split breakRegex ssml)), (includes ssml "><");
      simpl; split; intros G; try lia; auto;
      repeat (destruct G as [G|G]; try discriminate G; try contradiction).
  - split; [vm_compute; reflexivity|].
    eexists; split; [vm_compute; reflexivity|]. split; [reflexivity|]. simpl; auto.
  - split; [vm_compute; reflexivity|].
    eexists; split; [vm_compute; reflexivity|]. split; [reflexivity|].
    simpl. intros G. repeat (destruct G as [G|G]; try discriminate G). exact G.
Qed.

End Heuristics.

(** ** The root-structure pass *)
Module RootStructure.
Import JSString Regex Validator Spec StringFacts ValidatorFacts Samples.

Lemma basicErrors_opening (ssml : string) :
  In missingOpening (basicErrors ssml) <-> startsWith (trim ssml) "<speak" = false.
Proof.
  unfold basicErrors, missingOpening.
  destruct (startsWith (trim ssml) "<speak"), (endsWith (trim ssml) "</speak>"),
    (List.length (matchAll speakOpenRegex ssml) =? List.length (matchAll speakCloseRegex ssml)),
    (1 <? List.length (matchAll speakOpenRegex ssml));
    simpl; split; intros G; auto; try discriminate G; try contradiction;
    repeat (destruct G as [G|G]; try discriminate G; try contradiction).
Qed.

(** C10. The missing-opening-root error is reported exactly when the
    trimmed document does not begin with the six characters of the
    opening root tag without its bracket; so a document that begins,
    after white space, with these six characters is never reported for
    it, whatever follows them: a first tag named speaker passes the
    check. *)
Theorem root_open_check_is_prefix_test :
  (forall ssml,
      (In missingOpening (errors (_validateBasicStructure ssml initial))
       <-> startsWith (trim ssml) "<speak" = false) /\
      exists r, validate ssml = Some r /\
                (In missingOpening (errors r) <-> startsWith (trim ssml) "<speak" = false)) /\
  (forall lead rest,
      trim lead = EmptyString ->
      exists r, validate (lead +++ "<speak" +++ rest) = Some r /\
                ~ In missingOpening (errors r)) /\
  (exists r, validate "<speaker>hi</speaker>" = Some r /\ ~ In missingOpening (errors r)).
Proof.
  assert (V : forall ssml, exists r,
               validate ssml = Some r /\
               (In missingOpening (errors r) <-> startsWith (trim ssml) "<speak" = false)).
  { intros ssml. destruct (validate_shape ssml) as (e3 & w3 & E3 & _ & _ & H).
    eexists; split; [exact H|]. cbn [errors]. rewrite !in_app_iff.
    rewrite basicErrors_opening.
    assert (N2 : ~ In missingOpening (stackErrors (matchAll tagRegex ssml) [])).
    { intros Hin. pose proof (stackErrors_initial (matchAll tagRegex ssml) []) as F.
      rewrite Forall_forall in F. apply F in Hin. simpl in Hin.
      repeat (destruct Hin as [Hin|Hin]; try discriminate Hin). exact Hin. }
    assert (N3 : ~ In missingOpening e3).
    { intros Hin. rewrite Forall_forall in E3. apply E3 in Hin. simpl in Hin.
      repeat (destruct Hin as [Hin|Hin]; try discriminate Hin). exact Hin. }
    tauto. }
  split; [|split].
  - intros ssml. split; [|apply V].
    rewrite basic_extend. cbn [errors extend initial app]. apply basicErrors_opening.
  - intros lead rest Hlead.
    destruct (V (lead +++ "<speak" +++ rest)) as (r & Hr & I).
    exists r; split; [exact Hr|]. intros Hin. apply I in Hin.
    rewrite (trim_speak_prefix lead rest Hlead) in Hin. discriminate Hin.
  - eexists; split; [vm_compute; reflexivity|]. unfold missingOpening. simpl.
    intros G. repeat (destruct G as [G|G]; try discriminate G). exact G.
Qed.

Lemma root_open_check_is_prefix_test_witness :
  trim "  " = EmptyString /\
  exists r, validate ("  " +++ "<speak" +++ "er>hi</speaker>") = Some r /\
            ~ In missingOpening (errors r).
Proof.
  split; [reflexivity|].
  exact (proj1 (proj2 root_open_check_is_prefix_test) "  " "er>hi</speaker>" eq_refl).
Defined.

End RootStructure.

(** ** Error-free reports *)
Module ConformanceFacts.
Import JSString Regex Validator Spec Conformance StringFacts ScanFacts ValidatorFacts.

Lemma balanced_skip (b : list jsmatch) :
  balanced b ->
  forall rest opened, stackErrors (b ++ rest) opened = stackErrors rest opened.
Proof.
  induction 1 as [ | t l Ht _ IH | o inner c l Ho Hc Hn _ IHi _ IHl ]; intros rest opened.
  - reflexivity.
  - cbn [app stackErrors]. rewrite Ht. apply IH.
  - cbn [app stackErrors]. rewrite Ho. rewrite <- app_assoc. rewrite IHi.
    cbn [app stackErrors]. rewrite Hc, Hn, String.eqb_refl. apply IHl.
Qed.

Lemma closesAll_self (t : jsmatch) (opened : list string) (ms : list jsmatch) :
  kindOf (m_text t) = SelfClosing -> closesAll opened ms -> closesAll opened (t :: ms).
Proof.
  intros Ht. destruct opened as [|top below]; cbn [closesAll].
  - now constructor.
  - intros (b & c & rest & -> & Hb & Hc & Hn & Hr).
    exists (t :: b), c, rest. repeat split; auto. now constructor.
Qed.

Lemma closesAll_open (o : jsmatch) (opened : list string) (ms : list jsmatch) :
  kindOf (m_text o) = Opening ->
  closesAll (group 1 o :: opened) ms -> closesAll opened (o :: ms).
Proof.
  intros Ho (b & c & rest & -> & Hb & Hc & Hn & Hr).
  destruct opened as [|top below]; cbn [closesAll] in *.
  - now constructor.
  - destruct Hr as (b2 & c2 & rest2 & -> & Hb2 & Hc2 & Hn2 & Hr2).
    exists (o :: b ++ c :: b2), c2, rest2. repeat split; auto.
    + cbn [app]. now rewrite <- app_assoc.
    + now constructor.
Qed.

Lemma stackErrors_nil_closesAll (ms : list jsmatch) :
  forall opened, stackErrors ms opened = [] -> closesAll opened ms.
Proof.
  induction ms as [|t ms IH]; intros opened; cbn [stackErrors].
  - destruct opened; [constructor | discriminate].
  - destruct (kindOf (m_text t)) eqn:K.
    + intros H. apply closesAll_self; auto.
    + destruct opened as [|top below]; [discriminate|].
      destruct (String.eqb_spec top (group 1 t)) as [E|]; [|discriminate].
      intros H. cbn [closesAll]. exists [], t, ms. repeat split; auto. constructor.
    + intros H. apply closesAll_open; auto.
Qed.

Lemma stackErrors_nil_iff (ms : list jsmatch) : stackErrors ms [] = [] <-> balanced ms.
Proof.
  split.
  - apply (stackErrors_nil_closesAll ms []).
  - intros H. rewrite <- (app_nil_r ms). now rewrite balanced_skip.
Qed.

(** *** The messages of the schema pass, token by token *)
Lemma has_In (l : list string) (x : string) : has l x = true <-> In x l.
Proof.
  unfold has. rewrite existsb_exists. split.
  - intros (y & Hy & E). apply String.eqb_eq in E. now subst.
  - intros H. exists x. split; [exact H | apply String.eqb_refl].
Qed.

Lemma checkAttribute_fold (tagName : string) (table : list (string * constraint))
  (ms : list jsmatch) :
  forall r,
    fold_left (checkAttribute tagName table) ms r
    = extend r (flat_map (attributeError tagName table) ms) [].
Proof.
  induction ms as [|am ms IH]; intros r; cbn [fold_left flat_map].
  - now rewrite extend_nil.
  - rewrite IH. unfold checkAttribute, attributeError.
    destruct (getProperty table (group 1 am)) as [[alts|re]| |]; cbn [alternatives anyValid].
    + destruct (anyValid alts (group 2 am)); cbn [negb app]; [reflexivity|].
      now rewrite pushError_extend, extend_extend.
    + destruct (test re (group 2 am)); cbn [negb app]; [reflexivity|].
      now rewrite pushError_extend, extend_extend.
    + cbn [negb app]. now rewrite pushError_extend, extend_extend.
    + reflexivity.
Qed.

Lemma checkTag_messages (r : ValidationReport) (mt : jsmatch) :
  startsWith (m_text mt) "</" = false ->
  checkTag r mt = Some (extend r (tokenErrors mt) (tokenWarnings mt)).
Proof.
  intros Hopen. unfold checkTag, tokenErrors, tokenWarnings. rewrite Hopen.
  destruct (has supportedTags (group 1 mt)); cbn [negb].
  2: { now rewrite pushWarning_extend. }
  assert (R : match own requiredAttributes (group 1 mt) with
              | Some required =>
                  if negb (includes (m_text mt) "/>") then
                    bind (execLoop attrRegex (group 2 mt)) (fun ms =>
                    Some (fold_left (checkRequired (group 1 mt) (map (group 1) ms)) required r))
                  else Some r
              | None => Some r
              end = Some (extend r (requiredErrors mt) [])).
  { unfold requiredErrors.
    destruct (own requiredAttributes (group 1 mt)) as [required|];
      [|now rewrite extend_nil].
    destruct (includes (m_text mt) "/>"); cbn [negb]; [now rewrite extend_nil|].
    rewrite execLoop_attrRegex. cbn [bind].
    now rewrite Schema.checkRequired_fold. }
  rewrite R. cbn [bind]. unfold _validateAttributes, attributeErrors.
  destruct (own validAttributeValues (group 1 mt)) as [table|].
  - rewrite execLoop_attrRegex. cbn [bind].
    now rewrite checkAttribute_fold, extend_extend.
  - now rewrite app_nil_r.
Qed.

Lemma foldM_checkTag_messages (ms : list jsmatch) :
  Forall (fun mt => startsWith (m_text mt) "</" = false) ms ->
  forall r,
    foldM checkTag ms r
    = Some (extend r (flat_map tokenErrors ms) (flat_map tokenWarnings ms)).
Proof.
  induction 1 as [|mt ms Hmt _ IH]; intros r; cbn [foldM flat_map].
  - now rewrite extend_nil.
  - rewrite (checkTag_messages r mt Hmt). now rewrite IH, extend_extend.
Qed.

Lemma validate_messages (ssml : string) :
  validate ssml =
  Some (mkReport
          (List.length (basicErrors ssml ++ stackErrors (matchAll tagRegex ssml) []
                        ++ flat_map tokenErrors (matchAll openTagRegex ssml)) =? 0)
          (basicErrors ssml ++ stackErrors (matchAll tagRegex ssml) []
           ++ flat_map tokenErrors (matchAll openTagRegex ssml))
          (flat_map tokenWarnings (matchAll openTagRegex ssml) ++ commonWarnings ssml)
          (info (_calculateMetrics ssml initial))).
Proof.
  unfold validate, passes.
  rewrite basic_extend, xml_extend. cbn [bind].
  unfold _validateSSMLTags. rewrite execLoop_openTagRegex. cbn [bind].
  rewrite (foldM_checkTag_messages _ (openTag_matches ssml)). cbn [bind].
  rewrite common_extend. cbn [bind].
  unfold _calculateMetrics, extend, initial.
  cbn [errors warnings info valid app].
  rewrite app_nil_r, <- app_assoc. reflexivity.
Qed.

Lemma basicErrors_nil (ssml : string) : basicErrors ssml = [] <-> rootOk ssml.
Proof.
  unfold basicErrors, rootOk.
  destruct (startsWith (trim ssml) "<speak"), (endsWith (trim ssml) "</speak>"),
    (Nat.eqb_spec (List.length (matchAll speakOpenRegex ssml))
                  (List.length (matchAll speakCloseRegex ssml))),
    (Nat.ltb_spec 1 (List.length (matchAll speakOpenRegex ssml)));
    cbn [app]; split; intros G; try discriminate G;
    try (destruct G as (G1 & G2 & G3 & G4); try discriminate; try lia);
    try reflexivity.
  repeat split; auto.
Qed.

Lemma requiredErrors_nil (mt : jsmatch) : requiredErrors mt = [] <-> requiredOk mt.
Proof.
  unfold requiredErrors, requiredOk.
  destruct (own requiredAttributes (group 1 mt)) as [required|].
  2: { split; [intros _ required H; discriminate H | reflexivity]. }
  destruct (includes (m_text mt) "/>").
  { split; [intros _ req H; now left | reflexivity]. }
  split.
  - intros H req E. injection E as <-. right. intros a Ha.
    apply has_In. destruct (has (attributeNames (group 2 mt)) a) eqn:Hh; [reflexivity|].
    assert (Hf : In a (filter (fun a => negb (has (attributeNames (group 2 mt)) a)) required))
      by (apply filter_In; split; [exact Ha | now rewrite Hh]).
    apply map_eq_nil in H. rewrite H in Hf. contradiction.
  - intros H. destruct (H required eq_refl) as [H'|H']; [discriminate H'|].
    clear H.
    replace (filter (fun a => negb (has (attributeNames (group 2 mt)) a)) required)
      with (@nil string); [reflexivity|].
    symmetry. induction required as [|a required IH]; [reflexivity|]. cbn [filter].
    assert (Ha : has (attributeNames (group 2 mt)) a = true)
      by (apply has_In, H'; now left).
    rewrite Ha. cbn [negb]. apply IH. intros x Hx. apply H'. now right.
Qed.

Lemma attributeError_nil (tagName attrName : string) (table : list (string * constraint))
  (am : jsmatch) :
  own validAttributeValues tagName = Some table ->
  (attributeError tagName table am = [] <-> attributeOk table am).
Proof.
  intros Ht. unfold attributeError, attributeOk, getProperty.
  destruct (own table (group 1 am)) as [c|] eqn:Hc.
  - rewrite <- (Schema.anyValid_satisfies _ _ (Schema.schema_anchored _ _ _ _ Ht Hc)).
    destruct (anyValid (alternatives c) (group 2 am)); split; congruence.
  - destruct (has objectPrototype (group 1 am)); split; auto; try discriminate.
    contradiction.
Qed.

Lemma flat_map_nil {A B : Type} (f : A -> list B) (l : list A) :
  flat_map f l = [] <-> Forall (fun x => f x = []) l.
Proof.
  induction l as [|x l IH]; cbn [flat_map].
  - split; constructor.
  - split.
    + intros H. apply app_eq_nil in H as (H1 & H2). constructor; [exact H1 | now apply IH].
    + intros H. inversion H as [|? ? H1 H2]; subst. rewrite H1. now apply IH.
Qed.

Lemma attributeErrors_nil (mt : jsmatch) : attributeErrors mt = [] <-> attributesOk mt.
Proof.
  unfold attributeErrors, attributesOk.
  destruct (own validAttributeValues (group 1 mt)) as [table|] eqn:Ht.
  2: { split; [intros _ table H; discriminate H | reflexivity]. }
  rewrite flat_map_nil. split.
  - intros H tbl E. injection E as <-. eapply Forall_impl; [|exact H].
    intros am Ham. now apply (attributeError_nil _ (group 1 am) _ _ Ht).
  - intros H. eapply Forall_impl; [|exact (H table eq_refl)].
    intros am Ham. now apply (attributeError_nil _ (group 1 am) _ _ Ht).
Qed.

Lemma tokenErrors_nil (mt : jsmatch) : tokenErrors mt = [] <-> tokenOk mt.
Proof.
  unfold tokenErrors, tokenOk.
  destruct (has supportedTags (group 1 mt)).
  - rewrite <- requiredErrors_nil, <- attributeErrors_nil. split.
    + intros H. apply app_eq_nil in H. now right.
    + intros [H|(H1 & H2)]; [discriminate H | now rewrite H1, H2].
  - split; [now left | reflexivity].
Qed.

(** X1. The well-formedness pass adds no error exactly when the tokens of
    the document nest properly: self-closing tokens apart, every opening
    token is closed by a closing token of the same name, innermost
    first, and no closing token comes alone. *)
Theorem no_structure_error_iff_balanced (ssml : string) (result : ValidationReport) :
  exists r, _validateXMLStructure ssml result = Some r /\
            (errors r = errors result <-> balanced (matchAll tagRegex ssml)).
Proof.
  eexists; split; [apply xml_extend|]. cbn [errors extend].
  rewrite <- stackErrors_nil_iff. split.
  - intros H. rewrite <- (app_nil_r (errors result)) in H at 2.
    now apply app_inv_head in H.
  - intros ->. now rewrite app_nil_r.
Qed.

(** X2. A document is valid exactly when the four conditions on the root
    tag hold, its tokens nest properly, and every token of the schema
    pass either has an unsupported name or has the attributes its tag
    requires (unless it is self-closing) and only legal values for the
    attributes its tag constrains. *)
Theorem valid_iff_conformant (ssml : string) :
  exists r, validate ssml = Some r /\
            (valid r = true <->
             rootOk ssml /\ balanced (matchAll tagRegex ssml) /\
             Forall tokenOk (matchAll openTagRegex ssml)).
Proof.
  eexists; split; [apply validate_messages|]. cbn [valid].
  rewrite <- basicErrors_nil, <- stackErrors_nil_iff.
  assert (T : Forall tokenOk (matchAll openTagRegex ssml)
              <-> flat_map tokenErrors (matchAll openTagRegex ssml) = []).
  { rewrite flat_map_nil. split; intros H; (eapply Forall_impl; [|exact H]);
      intros mt Hmt; now apply tokenErrors_nil. }
  rewrite T. rewrite Nat.eqb_eq, length_zero_iff_nil. split.
  - intros H. apply app_eq_nil in H as (H1 & H). apply app_eq_nil in H as (H2 & H3). auto.
  - intros (H1 & H2 & H3). now rewrite H1, H2, H3.
Qed.

End ConformanceFacts.

(** ** Lengths of the stripped text and of the matches *)
Module MeasureFacts.
Import JSString Regex Validator Spec Conformance Measures.
Import StringFacts RegexFacts ScanFacts ValidatorFacts ConformanceFacts.

Lemma length_substring (s : string) (n m : nat) :
  n + m <= String.length s -> String.length (String.substring n m s) = m.
Proof.
  revert n m. induction s as [|c s IH]; intros n m H; simpl in H.
  - assert (n = 0) by lia. assert (m = 0) by lia. subst. reflexivity.
  - destruct n as [|n]; simpl.
    + destruct m as [|m]; [reflexivity|]. simpl. f_equal. apply (IH 0 m). lia.
    + apply IH. lia.
Qed.

Lemma length_substring_le (s : string) (n m : nat) :
  String.length (String.substring n m s) <= String.length s.
Proof.
  revert n m. induction s as [|c s IH]; intros n m.
  - destruct n, m; simpl; lia.
  - destruct n as [|n]; simpl.
    + destruct m as [|m]; simpl; [lia|]. specialize (IH 0 m). lia.
    + specialize (IH n m). lia.
Qed.

Lemma substring_all (s : string) : String.substring 0 (String.length s) s = s.
Proof. induction s as [|c s IH]; simpl; [reflexivity | now rewrite IH]. Qed.

Lemma length_concat_cons (x : string) (l : list string) :
  String.length (String.concat EmptyString (x :: l))
  = String.length x + String.length (String.concat EmptyString l).
Proof.
  destruct l as [|y l]; cbn [String.concat].
  - simpl. lia.
  - rewrite !length_append. reflexivity.
Qed.

Lemma append_cons_assoc (pre : string) (c : ascii) (s : string) :
  (pre +++ String c EmptyString) +++ s = pre +++ String c s.
Proof. now rewrite append_assoc. Qed.

Lemma totalLength_nil : totalLength [] = 0.
Proof. reflexivity. Qed.

Lemma totalLength_cons (mt : jsmatch) (ms : list jsmatch) :
  totalLength (mt :: ms) = String.length (m_text mt) + totalLength ms.
Proof. reflexivity. Qed.

(** What is left between the matches and what the matches cover make up
    the input. *)
Lemma pieces_scan_length (r : regex) (s : string) :
  forall skip i cur pre,
    String.length pre = i ->
    (skip = 0 /\ cur <= i) \/ (0 < skip /\ cur = i + skip /\ skip <= String.length s) ->
    String.length (String.concat EmptyString (pieces (scan r skip i s) cur (pre +++ s)))
    + totalLength (scan r skip i s)
    = String.length (pre +++ s) - cur.
Proof.
  induction s as [|c s IH]; intros skip i cur pre Hpre Hc.
  - rewrite scan_end. destruct Hc as [(-> & Hc)|(H1 & _ & H2)]; [|simpl in H2; lia].
    rewrite append_nil_r.
    destruct (match_at r i EmptyString) as [mt|] eqn:E.
    + apply match_at_text in E as (Ei & _ & tail & Et).
      destruct (m_text mt) eqn:T; [|discriminate Et].
      cbn [pieces]. rewrite Ei, totalLength_cons, totalLength_nil, T.
      rewrite length_concat_cons. cbn [String.concat String.length].
      rewrite !length_substring by lia. lia.
    + cbn [pieces String.concat]. rewrite totalLength_nil.
      rewrite length_substring by lia. lia.
  - rewrite scan_step.
    assert (W : forall k cur',
               (k = 0 /\ cur' <= S i) \/
               (0 < k /\ cur' = S i + k /\ k <= String.length s) ->
               String.length
                 (String.concat EmptyString (pieces (scan r k (S i) s) cur' (pre +++ String c s)))
               + totalLength (scan r k (S i) s)
               = String.length (pre +++ String c s) - cur').
    { intros k cur' Hk. rewrite <- append_cons_assoc. apply IH; [|exact Hk].
      rewrite length_append. simpl. lia. }
    assert (Lw : String.length (pre +++ String c s) = i + S (String.length s))
      by (rewrite length_append; simpl; lia).
    destruct skip as [|k].
    + destruct Hc as [(_ & Hc)|(H1 & _)]; [|lia].
      destruct (match_at r i (String c s)) as [mt|] eqn:E.
      * apply match_at_text in E as (Ei & _ & tail & Et).
        assert (Lt : String.length (m_text mt) <= S (String.length s)).
        { apply (f_equal String.length) in Et. rewrite length_append in Et.
          simpl in Et. lia. }
        cbn [pieces]. rewrite length_concat_cons.
        rewrite totalLength_cons, Ei. rewrite length_substring by lia.
        set (L := String.length (m_text mt)) in *.
        assert (Hk : (L - 1 = 0 /\ i + L <= S i) \/
                     (0 < L - 1 /\ i + L = S i + (L - 1) /\ L - 1 <= String.length s))
          by lia.
        pose proof (W (L - 1) (i + L) Hk) as Wk.
        rewrite Lw in Wk |- *. lia.
      * apply W. left. lia.
    + destruct Hc as [(Hc & _)|(_ & Hc & Hs)]; [discriminate|].
      apply W. simpl in Hs. destruct k; [left; lia | right; lia].
Qed.

Lemma removeAll_length (r : regex) (s : string) :
  String.length (removeAll r s) + totalLength (matchAll r s) = String.length s.
Proof.
  unfold removeAll, split, matchAll.
  pose proof (pieces_scan_length r s 0 0 0 EmptyString eq_refl) as H.
  cbn [String.append] in H. rewrite H by (left; lia). lia.
Qed.

Lemma totalLength_min (r : regex) (s : string) :
  min_len r * List.length (matchAll r s) <= totalLength (matchAll r s).
Proof.
  pose proof (matchAll_min_len r s) as F.
  induction F as [|mt ms Hmt _ IH]; rewrite ?totalLength_cons, ?totalLength_nil;
    cbn [List.length]; lia.
Qed.

Lemma removed_tags_length (ssml : string) :
  String.length (removeAll anyTagRegex ssml) + totalLength (matchAll anyTagRegex ssml)
  = String.length ssml.
Proof. pose proof (removeAll_length anyTagRegex ssml). lia. Qed.

(** X3. The character count and the characters covered by the tags make
    up the document: the count is the length of the document less the
    lengths of its tags, so it never exceeds that length, and with two
    characters at least for each tag, the count and twice the number of
    tags stay within the length of the document. *)
Theorem metrics_account_for_document (ssml : string) (result : ValidationReport) :
  characterCount (info (_calculateMetrics ssml result))
  + totalLength (matchAll anyTagRegex ssml) = String.length ssml /\
  characterCount (info (_calculateMetrics ssml result))
  + 2 * tagCount (info (_calculateMetrics ssml result)) <= String.length ssml /\
  errors (_calculateMetrics ssml result) = errors result /\
  warnings (_calculateMetrics ssml result) = warnings result.
Proof.
  unfold _calculateMetrics. cbn [info characterCount tagCount errors warnings].
  pose proof (removeAll_length anyTagRegex ssml) as H.
  pose proof (totalLength_min anyTagRegex ssml) as M.
  change (min_len anyTagRegex) with 2 in M.
  repeat split; lia.
Qed.

(** *** The long-segment warning *)
Lemma pieces_length (ms : list jsmatch) (s : string) :
  forall cur, Forall (fun p => String.length p <= String.length s) (pieces ms cur s).
Proof.
  induction ms as [|mt ms IH]; intros cur; cbn [pieces].
  - constructor; [apply length_substring_le | constructor].
  - constructor; [apply length_substring_le | apply IH].
Qed.

Lemma longSegment_length (l : list string) (n : nat) :
  Forall (fun p => String.length p <= n) l -> longSegment l = true -> 500 < n.
Proof.
  induction 1 as [|p l Hp _ IH]; cbn [longSegment]; [discriminate|].
  destruct (Nat.ltb_spec 500 (String.length (removeAll anyTagRegex p))) as [L|_]; [|exact IH].
  intros _. pose proof (removeAll_length anyTagRegex p). lia.
Qed.

Lemma tokenWarnings_initial (ms : list jsmatch) (x : string) :
  In x (flat_map tokenWarnings ms) -> exists name, x = "Unsupported tag: <" +++ name +++ ">".
Proof.
  rewrite in_flat_map. intros (mt & _ & H). unfold tokenWarnings in H.
  destruct (has supportedTags (group 1 mt)); [contradiction|].
  destruct H as [<-|[]]. now exists (group 1 mt).
Qed.

(** X4. A document of at most 500 characters never gets the long-segment
    warning. *)
Theorem short_document_has_no_long_segment (ssml : string) :
  String.length ssml <= 500 ->
  exists r, validate ssml = Some r /\ ~ In longSegmentWarning (warnings r).
Proof.
  intros Hlen. eexists; split; [apply validate_messages|]. cbn [warnings].
  rewrite in_app_iff. intros [H|H].
  - apply tokenWarnings_initial in H as (name & H). discriminate H.
  - unfold commonWarnings in H.
    destruct (longSegment (split breakRegex ssml)) eqn:E.
    + apply (longSegment_length _ (String.length ssml)) in E; [lia|].
      apply pieces_length.
    + unfold longSegmentWarning in H.
      destruct (5 <? maxNesting ssml)%Z, (includes ssml "><"); simpl in H;
        repeat (destruct H as [H|H]; try discriminate H); exact H.
Qed.

Lemma short_document_has_no_long_segment_witness :
  String.length "<speak>short</speak>" <= 500 /\
  exists r, validate "<speak>short</speak>" = Some r /\
            ~ In longSegmentWarning (warnings r).
Proof.
  assert (H : String.length "<speak>short</speak>" <= 500) by (simpl; lia).
  split; [exact H|]. exact (short_document_has_no_long_segment _ H).
Defined.

(** *** Documents without an opening bracket *)
Lemma opensWithBracket_seq (r : regex) :
  opensWithBracket (Seq (Char "<") r).
Proof.
  intros k st H. cbn [run]. unfold step_char.
  destruct (rest st) as [|a s']; [reflexivity|].
  destruct (Ascii.eqb_spec "<" a) as [<-|]; [now elim H | reflexivity].
Qed.

Lemma opensWithBracket_lit (r : regex) (word : string) :
  opensWithBracket (Seq (lit (String "<" word)) r).
Proof.
  intros k st H. cbn [run lit]. unfold step_char.
  destruct (rest st) as [|a s']; [reflexivity|].
  destruct (Ascii.eqb_spec "<" a) as [<-|]; [now elim H | reflexivity].
Qed.

Lemma opensWithBracket_closeSpeak : opensWithBracket speakCloseRegex.
Proof.
  intros k st H. unfold speakCloseRegex. cbn [run lit]. unfold step_char at 1.
  destruct (rest st) as [|a s']; [reflexivity|].
  destruct (Ascii.eqb_spec "<" a) as [<-|]; [now elim H | reflexivity].
Qed.

Lemma match_at_noBracket (r : regex) (i : nat) (s : string) :
  opensWithBracket r ->
  match s with EmptyString => True | String a _ => a <> "<"%char end ->
  match_at r i s = None.
Proof.
  intros Hr Hs. unfold match_at. now rewrite Hr.
Qed.

Lemma scan_noBracket (r : regex) (t : string) :
  opensWithBracket r -> noBracket t = true -> forall i, scan r 0 i t = [].
Proof.
  intros Hr. induction t as [|c t IH]; intros Ht i.
  - rewrite scan_end. now rewrite match_at_noBracket.
  - unfold noBracket in Ht. cbn [every] in Ht. apply andb_prop in Ht as (Hc & Ht).
    rewrite scan_step, match_at_noBracket; auto.
    intros ->. discriminate Hc.
Qed.

Lemma every_trimStart (p : ascii -> bool) (s : string) :
  every p s = true -> every p (trimStart s) = true.
Proof.
  induction s as [|c s IH]; cbn [trimStart]; [auto|].
  destruct (isWhiteSpace c); [|auto].
  cbn [every]. intros H. apply andb_prop in H as (_ & H). auto.
Qed.

Lemma every_trimEnd (p : ascii -> bool) (s : string) :
  every p s = true -> every p (trimEnd s) = true.
Proof.
  induction s as [|c s IH]; cbn [trimEnd]; [auto|].
  cbn [every]. intros H. apply andb_prop in H as (Hc & H). specialize (IH H).
  destruct (trimEnd s); [destruct (isWhiteSpace c); cbn [every]; now rewrite ?Hc|].
  cbn [every] in *. now rewrite Hc, IH.
Qed.

Lemma every_substring (p : ascii -> bool) (s : string) :
  every p s = true -> forall n m, every p (String.substring n m s) = true.
Proof.
  induction s as [|c s IH]; intros H n m.
  - destruct n, m; reflexivity.
  - cbn [every] in H. apply andb_prop in H as (Hc & H).
    destruct n as [|n]; cbn [String.substring].
    + destruct m as [|m]; [reflexivity|]. cbn [every]. now rewrite Hc, IH.
    + now apply IH.
Qed.

Lemma noBracket_startsWith (s p : string) :
  noBracket s = true -> startsWith s (String "<" p) = false.
Proof.
  destruct s as [|a s]; cbn [startsWith]; [reflexivity|].
  unfold noBracket. cbn [every]. intros H. apply andb_prop in H as (Ha & _).
  destruct (Ascii.eqb a "<"); [discriminate Ha | reflexivity].
Qed.

Lemma noBracket_includes (s p : string) :
  noBracket s = true -> noBracket p = false -> includes s p = false.
Proof.
  intros Hs Hp.
  assert (P : forall x, noBracket x = true -> startsWith x p = false).
  { revert Hp. clear. induction p as [|c p IH]; intros Hp x Hx; [discriminate Hp|].
    destruct x as [|a x]; cbn [startsWith]; [reflexivity|].
    unfold noBracket in *. cbn [every] in *.
    apply andb_prop in Hx as (Ha & Hx).
    destruct (Ascii.eqb_spec a c) as [->|]; [|reflexivity].
    rewrite Ha in Hp. cbn [andb] in *. now apply IH. }
  induction s as [|a s IH]; cbn [includes].
  - now rewrite P.
  - rewrite (P _ Hs). unfold noBracket in Hs. cbn [every] in Hs.
    apply andb_prop in Hs as (_ & Hs). now apply IH.
Qed.

(** X5. A document without any opening bracket is reported with exactly
    the two errors about the root tag; it has no tag, its character count
    is its length, and its only possible warning is the long-segment one,
    given exactly when it is longer than 500 characters. *)
Theorem text_without_markup (ssml : string) :
  noBracket ssml = true ->
  exists r, validate ssml = Some r /\ valid r = false /\
            errors r = ["SSML must start with <speak> tag"; "SSML must end with </speak> tag"] /\
            warnings r = (if 500 <? String.length ssml then [longSegmentWarning] else []) /\
            characterCount (info r) = String.length ssml /\
            tagCount (info r) = 0.
Proof.
  intros H. eexists; split; [apply validate_messages|].
  assert (S1 : matchAll speakOpenRegex ssml = [])
    by (apply scan_noBracket; [apply opensWithBracket_lit | exact H]).
  assert (S2 : matchAll speakCloseRegex ssml = [])
    by (apply scan_noBracket; [apply opensWithBracket_closeSpeak | exact H]).
  assert (S3 : matchAll tagRegex ssml = [])
    by (apply scan_noBracket; [apply opensWithBracket_seq | exact H]).
  assert (S4 : matchAll openTagRegex ssml = [])
    by (apply scan_noBracket; [apply opensWithBracket_seq | exact H]).
  assert (S5 : matchAll anyTagRegex ssml = [])
    by (apply scan_noBracket; [apply opensWithBracket_seq | exact H]).
  assert (S6 : matchAll breakRegex ssml = [])
    by (apply scan_noBracket; [apply opensWithBracket_lit | exact H]).
  assert (T : noBracket (trim ssml) = true)
    by (apply every_trimEnd, every_trimStart, H).
  assert (B : basicErrors ssml
              = ["SSML must start with <speak> tag"; "SSML must end with </speak> tag"]).
  { unfold basicErrors. rewrite S1, S2.
    rewrite (noBracket_startsWith _ "speak" T).
    replace (endsWith (trim ssml) "</speak>") with false; [reflexivity|].
    symmetry. unfold endsWith. apply andb_false_iff. right.
    apply String.eqb_neq. intros E.
    pose proof (every_substring _ _ T (String.length (trim ssml) - String.length "</speak>")
                  (String.length "</speak>")) as Q.
    rewrite E in Q. discriminate Q. }
  assert (R : removeAll anyTagRegex ssml = ssml).
  { unfold removeAll, split. rewrite S5. cbn [pieces String.concat].
    rewrite Nat.sub_0_r. apply substring_all. }
  assert (W : commonWarnings ssml
              = if 500 <? String.length ssml then [longSegmentWarning] else []).
  { unfold commonWarnings, maxNesting, split. rewrite S3, S6.
    cbn [pieces map peak longSegment]. rewrite Nat.sub_0_r, substring_all, R.
    rewrite (noBracket_includes ssml "><" H eq_refl).
    destruct (500 <? String.length ssml); reflexivity. }
  rewrite B, S3, S4, W. cbn [stackErrors flat_map app valid errors warnings].
  unfold _calculateMetrics. cbn [info characterCount tagCount].
  rewrite R, S5. repeat split.
Qed.

Lemma text_without_markup_witness :
  noBracket "plain words" = true /\
  exists r, validate "plain words" = Some r /\ valid r = false /\
            errors r = ["SSML must start with <speak> tag"; "SSML must end with </speak> tag"] /\
            warnings r = (if 500 <? String.length "plain words"
                          then [longSegmentWarning] else []) /\
            characterCount (info r) = String.length "plain words" /\
            tagCount (info r) = 0.
Proof.
  split; [reflexivity|]. exact (text_without_markup "plain words" eq_refl).
Defined.

End MeasureFacts.

(** ** Escaping *)
Module EscapeFacts.
Import JSString Regex Validator Measures Builder.
Import StringFacts RegexFacts ScanFacts MeasureFacts.

Lemma substring_zero (s : string) (n : nat) : String.substring n 0 s = EmptyString.
Proof.
  revert n. induction s as [|c s IH]; intros [|n]; simpl; auto.
Qed.

Lemma substring_snoc (pre : string) (a : ascii) (s : string) :
  forall cur,
    cur <= String.length pre ->
    String.substring cur (S (String.length pre) - cur) (pre +++ String a s)
    = String.substring cur (String.length pre - cur) (pre +++ String a s)
      +++ String a EmptyString.
Proof.
  induction pre as [|c pre IH]; intros cur H; simpl in H.
  - assert (cur = 0) by lia. subst. simpl. now rewrite substring_zero.
  - destruct cur as [|cur].
    + simpl String.length. rewrite !Nat.sub_0_r. cbn [String.append String.substring].
      f_equal. specialize (IH 0 (Nat.le_0_l _)). now rewrite !Nat.sub_0_r in IH.
    + cbn [String.append String.substring String.length].
      replace (S (S (String.length pre)) - S cur) with (S (String.length pre) - cur) by lia.
      replace (S (String.length pre) - S cur) with (String.length pre - cur) by lia.
      apply IH. lia.
Qed.

Lemma concat_pieces_cons (by_ x : string) (ms : list jsmatch) (cur : nat) (s : string) :
  String.concat by_ (x :: pieces ms cur s)
  = x +++ by_ +++ String.concat by_ (pieces ms cur s).
Proof. destruct ms; reflexivity. Qed.

Lemma match_at_char (c a : ascii) (i : nat) (s : string) :
  match_at (Char c) i (String a s)
  = if Ascii.eqb c a then Some (JSMatch i (String a EmptyString) []) else None.
Proof.
  unfold match_at. cbn [run]. unfold step_char. cbn [rest pos caps].
  destruct (Ascii.eqb c a); [|reflexivity]. cbn [rest pos caps].
  replace (S i - i) with 1 by lia. cbn [String.substring]. now rewrite substring_zero.
Qed.

Lemma match_at_char_end (c : ascii) (i : nat) : match_at (Char c) i EmptyString = None.
Proof. reflexivity. Qed.

(** Replacing the matches of a one-character pattern is replacing the
    character wherever it stands. *)
Lemma replace_char_scan (c : ascii) (by_ : string) (s : string) :
  forall cur pre,
    cur <= String.length pre ->
    String.concat by_ (pieces (scan (Char c) 0 (String.length pre) s) cur (pre +++ s))
    = String.substring cur (String.length pre - cur) (pre +++ s) +++ substChar c by_ s.
Proof.
  induction s as [|a s IH]; intros cur pre H.
  - rewrite scan_end, match_at_char_end. cbn [pieces String.concat substChar].
    rewrite !append_nil_r. reflexivity.
  - rewrite scan_step, match_at_char. cbn [substChar].
    assert (L : String.length (pre +++ String a EmptyString) = S (String.length pre))
      by (rewrite length_append; simpl; lia).
    destruct (Ascii.eqb c a).
    + cbn [m_text String.length Nat.sub pieces m_index].
      rewrite concat_pieces_cons. f_equal. f_equal.
      specialize (IH (String.length pre + 1) (pre +++ String a EmptyString)).
      rewrite L, append_cons_assoc in IH. rewrite IH by lia.
      replace (S (String.length pre) - (String.length pre + 1)) with 0 by lia.
      now rewrite substring_zero.
    + specialize (IH cur (pre +++ String a EmptyString)).
      rewrite L, append_cons_assoc in IH. rewrite IH by lia.
      rewrite substring_snoc by lia. now rewrite append_assoc.
Qed.

Lemma replaceAll_char (c : ascii) (by_ s : string) :
  replaceAll (Char c) by_ s = substChar c by_ s.
Proof.
  unfold replaceAll, split, matchAll.
  pose proof (replace_char_scan c by_ s 0 EmptyString (Nat.le_0_l _)) as H.
  cbn [String.length String.append] in H. rewrite H. cbn [Nat.sub].
  now rewrite substring_zero.
Qed.

Lemma substChar_append (c : ascii) (by_ a b : string) :
  substChar c by_ (a +++ b) = substChar c by_ a +++ substChar c by_ b.
Proof.
  induction a as [|x a IH]; cbn [String.append substChar]; [reflexivity|].
  rewrite IH. destruct (Ascii.eqb c x); [now rewrite append_assoc | reflexivity].
Qed.

Lemma escapeText_chars (t : string) : _escapeText t = escapeChars t.
Proof.
  unfold _escapeText. rewrite !replaceAll_char.
  induction t as [|a t IH]; [reflexivity|].
  cbn [escapeChars]. rewrite <- IH. clear IH.
  cbn [substChar]. unfold escapeChar.
  destruct (Ascii.eqb_spec "&" a) as [<-|N1].
  { cbn [Ascii.eqb Bool.eqb]. rewrite !substChar_append. reflexivity. }
  rewrite (proj2 (Ascii.eqb_neq a "&")) by congruence.
  destruct (Ascii.eqb_spec a "<") as [->|N2].
  { cbn [substChar Ascii.eqb Bool.eqb]. rewrite !substChar_append. reflexivity. }
  cbn [substChar]. rewrite (proj2 (Ascii.eqb_neq "<" a)) by congruence.
  destruct (Ascii.eqb_spec a ">") as [->|N3].
  { cbn [substChar Ascii.eqb Bool.eqb]. rewrite !substChar_append. reflexivity. }
  cbn [substChar]. rewrite (proj2 (Ascii.eqb_neq ">" a)) by congruence.
  destruct (Ascii.eqb_spec a dquote) as [->|N4].
  { cbn [substChar]. rewrite Ascii.eqb_refl. rewrite !substChar_append. reflexivity. }
  cbn [substChar]. rewrite (proj2 (Ascii.eqb_neq dquote a)) by congruence.
  destruct (Ascii.eqb_spec a "'") as [->|N5].
  { cbn [substChar Ascii.eqb Bool.eqb]. reflexivity. }
  cbn [substChar]. rewrite (proj2 (Ascii.eqb_neq "'" a)) by congruence.
  reflexivity.
Qed.

Lemma escapeChar_cases (a : ascii) :
  (a = "&"%char /\ escapeChar a = "&amp;") \/
  (a = "<"%char /\ escapeChar a = "&lt;") \/
  (a = ">"%char /\ escapeChar a = "&gt;") \/
  (a = dquote /\ escapeChar a = "&quot;") \/
  (a = "'"%char /\ escapeChar a = "&apos;") \/
  (a <> "&"%char /\ isPlain a = true /\ escapeChar a = String a EmptyString).
Proof.
  unfold escapeChar, isPlain.
  destruct (Ascii.eqb_spec a "&") as [->|N1]; [now left|].
  destruct (Ascii.eqb_spec a "<") as [->|N2]; [right; now left|].
  destruct (Ascii.eqb_spec a ">") as [->|N3]; [right; right; now left|].
  destruct (Ascii.eqb_spec a dquote) as [->|N4]; [right; right; right; now left|].
  destruct (Ascii.eqb_spec a "'") as [->|N5]; [right; right; right; right; now left|].
  right; right; right; right; right. auto.
Qed.

Lemma escapeChars_append (a b : string) :
  escapeChars (a +++ b) = escapeChars a +++ escapeChars b.
Proof.
  induction a as [|x a IH]; cbn [String.append escapeChars]; [reflexivity|].
  now rewrite IH, append_assoc.
Qed.

Lemma escapeChars_plain (t : string) : every isPlain (escapeChars t) = true.
Proof.
  induction t as [|a t IH]; [reflexivity|]. cbn [escapeChars].
  destruct (escapeChar_cases a) as [(_ & E)|[(_ & E)|[(_ & E)|[(_ & E)|[(_ & E)|(_ & P & E)]]]]];
    rewrite E; cbn [String.append every]; rewrite IH; try reflexivity.
  now rewrite P.
Qed.

Lemma escapeChars_length (t : string) : String.length t <= String.length (escapeChars t).
Proof.
  induction t as [|a t IH]; [simpl; lia|]. cbn [escapeChars]. rewrite length_append.
  destruct (escapeChar_cases a) as [(_ & E)|[(_ & E)|[(_ & E)|[(_ & E)|[(_ & E)|(_ & _ & E)]]]]];
    rewrite E; simpl; lia.
Qed.

Lemma escapeChars_injective (a : string) :
  forall b, escapeChars a = escapeChars b -> a = b.
Proof.
  induction a as [|x a IH]; intros [|y b]; cbn [escapeChars]; intros H.
  - reflexivity.
  - destruct (escapeChar_cases y) as [(_ & E)|[(_ & E)|[(_ & E)|[(_ & E)|[(_ & E)|(_ & _ & E)]]]]];
      rewrite E in H; discriminate H.
  - destruct (escapeChar_cases x) as [(_ & E)|[(_ & E)|[(_ & E)|[(_ & E)|[(_ & E)|(_ & _ & E)]]]]];
      rewrite E in H; discriminate H.
  - destruct (escapeChar_cases x) as [(X & E)|[(X & E)|[(X & E)|[(X & E)|[(X & E)|(X & _ & E)]]]]];
      destruct (escapeChar_cases y) as [(Y & F)|[(Y & F)|[(Y & F)|[(Y & F)|[(Y & F)|(Y & _ & F)]]]]];
      rewrite E, F in H; cbn [String.append] in H;
      try discriminate H;
      try (injection H as H; subst; f_equal; now apply IH);
      try (injection H as H1 H; subst; try congruence; f_equal; now apply IH).
Qed.

Lemma escapeText_noBracket (t : string) : noBracket (_escapeText t) = true.
Proof.
  rewrite escapeText_chars. pose proof (escapeChars_plain t) as P. unfold noBracket.
  induction (escapeChars t) as [|c s IH]; [reflexivity|].
  cbn [every] in *. apply andb_prop in P as (Pc & P). rewrite (IH P), andb_true_r.
  unfold isPlain in Pc. now destruct (Ascii.eqb c "<").
Qed.

(** X6. Escaping leaves none of the characters that open or close a tag
    or a quoted value: the escaped text has no bracket, no double quote
    and no apostrophe.  It is at least as long as the text, and escaping
    two texts one after the other gives the escaped texts one after the
    other. *)
Theorem escaped_text_is_plain (t u : string) :
  every isPlain (_escapeText t) = true /\
  noBracket (_escapeText t) = true /\
  String.length t <= String.length (_escapeText t) /\
  _escapeText (t +++ u) = _escapeText t +++ _escapeText u.
Proof.
  split; [rewrite escapeText_chars; apply escapeChars_plain|].
  split; [apply escapeText_noBracket|].
  rewrite !escapeText_chars.
  split; [apply escapeChars_length | apply escapeChars_append].
Qed.

(** X7. Escaping loses nothing: two texts with the same escaped form are
    the same text. *)
Theorem escape_is_injective (t u : string) :
  _escapeText t = _escapeText u -> t = u.
Proof. rewrite !escapeText_chars. apply escapeChars_injective. Qed.

Lemma escape_is_injective_witness :
  _escapeText "a<b&c" = _escapeText "a<b&c" /\ "a<b&c" = "a<b&c".
Proof.
  split; [reflexivity|]. exact (escape_is_injective "a<b&c" "a<b&c" eq_refl).
Defined.

Example escape_sample : _escapeText "a<b & 'c'" = "a&lt;b &amp; &apos;c&apos;".
Proof. vm_compute. reflexivity. Qed.

End EscapeFacts.

(** ** Scanning a document part by part *)
Module PartFacts.
Import JSString Regex Validator Measures Parts.
Import StringFacts RegexFacts ScanFacts MeasureFacts.

Lemma orelse_map (f : mstate -> mstate) (a b : option mstate) :
  orelse (option_map f a) (option_map f b) = option_map f (orelse a b).
Proof. destruct a; reflexivity. Qed.

Lemma step_char_maps (p : ascii -> bool) : mapsThrough (step_char p).
Proof.
  intros f k st. unfold step_char.
  destruct (rest st) as [|a s']; [reflexivity|]. destruct (p a); reflexivity.
Qed.

Lemma repeat_maps (body : cont -> cont) :
  mapsThrough body -> local body ->
  forall n, mapsThrough (fun k => repeat_greedy body k n).
Proof.
  intros Hm Hl n. induction n as [|n IH]; intros f k st; cbn [repeat_greedy].
  - reflexivity.
  - rewrite <- orelse_map. f_equal. rewrite <- Hm. apply Hl.
    intros st' _. destruct (pos st <? pos st'); [apply IH | reflexivity].
Qed.

Lemma run_maps (r : regex) : mapsThrough (run r).
Proof.
  induction r as [ | c | neg items | a IHa b IHb | a IHa b IHb | a IHa | a IHa
                 | a IHa | n a IHa | | ]; intros f k st; cbn [run].
  - reflexivity.
  - apply step_char_maps.
  - apply step_char_maps.
  - rewrite <- IHa. apply run_local. intros st' _. apply IHb.
  - rewrite <- orelse_map. now rewrite IHa, IHb.
  - apply (repeat_maps (run a) IHa (run_local a)).
  - rewrite <- IHa. apply run_local. intros st' _.
    apply (repeat_maps (run a) IHa (run_local a)).
  - rewrite <- orelse_map. f_equal. rewrite <- IHa. apply run_local.
    intros st' _. destruct (pos st <? pos st'); reflexivity.
  - rewrite <- IHa. reflexivity.
  - destruct (pos st =? 0); reflexivity.
  - destruct (rest st); reflexivity.
Qed.

Lemma step_char_shifts (p : ascii -> bool) : shifts (step_char p).
Proof.
  intros d k st. unfold step_char, shiftState. cbn [rest pos caps].
  destruct (rest st) as [|a s']; [reflexivity|]. destruct (p a); reflexivity.
Qed.

Lemma ltb_shift (a b d : nat) : (a + d <? b + d) = (a <? b).
Proof.
  destruct (Nat.ltb_spec a b), (Nat.ltb_spec (a + d) (b + d)); auto; lia.
Qed.

Lemma repeat_shifts (body : cont -> cont) :
  shifts body -> local body -> forall n, shifts (fun k => repeat_greedy body k n).
Proof.
  intros Hs Hl n. induction n as [|n IH]; intros d k st; cbn [repeat_greedy].
  - reflexivity.
  - f_equal. rewrite Hs. apply Hl. intros st' _.
    unfold shiftState at 1 2. cbn [pos]. rewrite ltb_shift.
    destruct (pos st <? pos st'); [apply IH | reflexivity].
Qed.

Lemma run_shifts (r : regex) : bolFree r = true -> shifts (run r).
Proof.
  induction r as [ | c | neg items | a IHa b IHb | a IHa b IHb | a IHa | a IHa
                 | a IHa | n a IHa | | ]; cbn [bolFree]; intros B d k st; cbn [run];
    try (apply andb_prop in B as (Ba & Bb)).
  - reflexivity.
  - apply step_char_shifts.
  - apply step_char_shifts.
  - rewrite (IHa Ba). apply run_local. intros st' _. apply (IHb Bb).
  - now rewrite (IHa Ba), (IHb Bb).
  - apply (repeat_shifts (run a) (IHa B) (run_local a)).
  - rewrite (IHa B). apply run_local. intros st' _.
    apply (repeat_shifts (run a) (IHa B) (run_local a)).
  - f_equal. rewrite (IHa B). apply run_local. intros st' _.
    unfold shiftState at 1 2. cbn [pos]. rewrite ltb_shift. reflexivity.
  - rewrite (IHa B). apply run_local. intros st' _.
    unfold shiftState. cbn [pos rest caps].
    replace (pos st' + d - (pos st + d)) with (pos st' - pos st) by lia. reflexivity.
  - discriminate B.
  - reflexivity.
Qed.

Lemma match_at_shift (r : regex) (i d : nat) (s : string) :
  bolFree r = true ->
  match_at r (i + d) s = option_map (shiftMatch d) (match_at r i s).
Proof.
  intros B. unfold match_at.
  change (MState (i + d) s []) with (shiftState d (MState i s [])).
  rewrite (run_shifts r B).
  change (fun st' => Some (shiftState d st'))
    with (fun st' => option_map (shiftState d) (Some st')).
  rewrite run_maps.
  destruct (run r Some (MState i s [])) as [st'|]; [|reflexivity].
  unfold shiftMatch, shiftState. cbn [option_map pos rest caps m_index m_text m_caps].
  replace (pos st' + d - (i + d)) with (pos st' - i) by lia. reflexivity.
Qed.

Lemma scan_shift (r : regex) (d : nat) (s : string) :
  bolFree r = true ->
  forall skip i, scan r skip (i + d) s = map (shiftMatch d) (scan r skip i s).
Proof.
  intros B. induction s as [|c s IH]; intros skip i.
  - rewrite !scan_end. destruct skip; [|reflexivity].
    rewrite (match_at_shift r i d _ B).
    destruct (match_at r i EmptyString); reflexivity.
  - rewrite !scan_step. destruct skip; [|apply (IH skip (S i))].
    rewrite (match_at_shift r i d _ B).
    destruct (match_at r i (String c s)) as [mt|]; cbn [option_map map].
    + f_equal. apply (IH _ (S i)).
    + apply (IH 0 (S i)).
Qed.

Lemma scan_skip (r : regex) (w s : string) :
  forall i, scan r (String.length w) i (w +++ s) = scan r 0 (i + String.length w) s.
Proof.
  induction w as [|a w IH]; intros i.
  - cbn [String.length String.append]. now rewrite Nat.add_0_r.
  - cbn [String.length String.append]. rewrite scan_step, IH. f_equal. lia.
Qed.

Lemma scan_noBracket_app (r : regex) (e s : string) :
  opensWithBracket r -> noBracket e = true ->
  forall i, scan r 0 i (e +++ s) = scan r 0 (i + String.length e) s.
Proof.
  intros Hr. induction e as [|c e IH]; intros He i.
  - cbn [String.length String.append]. now rewrite Nat.add_0_r.
  - unfold noBracket in He. cbn [every] in He. apply andb_prop in He as (Hc & He).
    cbn [String.length String.append].
    rewrite scan_step, match_at_noBracket; auto.
    + rewrite (IH He). f_equal. lia.
    + intros ->. discriminate Hc.
Qed.

Lemma scan_closedTag (r : regex) (tag : string) :
  bolFree r = true -> opensWithBracket r -> closedTag r tag ->
  wellFormedPart (Markup tag) ->
  forall i s,
    scan r 0 i (tag +++ s)
    = match capsOf r tag with
      | Some c => JSMatch i tag c :: scan r 0 (i + String.length tag) s
      | None => scan r 0 (i + String.length tag) s
      end.
Proof.
  intros B Hr Hc (body & -> & Hb) i s.
  assert (M : match_at r i (String "<" body +++ s)
              = option_map (fun c => JSMatch i (String "<" body) c) (capsOf r (String "<" body))).
  { change i with (0 + i). rewrite (match_at_shift r 0 i _ B). unfold match_at.
    rewrite Hc. destruct (capsOf r (String "<" body)) as [c|]; [|reflexivity].
    cbn [option_map pos caps]. rewrite Nat.sub_0_r, substring_whole_prefix.
    reflexivity. }
  cbn [String.append] in *. rewrite scan_step, M.
  destruct (capsOf r (String "<" body)) as [c|]; cbn [option_map m_text String.length].
  - f_equal. replace (S (String.length body) - 1) with (String.length body) by lia.
    rewrite scan_skip. f_equal. lia.
  - rewrite (scan_noBracket_app r body s Hr Hb). f_equal. lia.
Qed.

Lemma scan_parts (r : regex) (parts : list part) :
  bolFree r = true -> opensWithBracket r ->
  Forall (fun p => match p with Markup tag => closedTag r tag | Words _ => True end) parts ->
  Forall wellFormedPart parts ->
  forall i s,
    scan r 0 i (render parts +++ s)
    = tokensOf r i parts ++ scan r 0 (i + String.length (render parts)) s.
Proof.
  intros B Hr Hc Hw. induction parts as [|p parts IH]; intros i s.
  - cbn [render tokensOf String.append String.length app]. now rewrite Nat.add_0_r.
  - inversion Hc as [|? ? Hc1 Hc2]; inversion Hw as [|? ? Hw1 Hw2]; subst.
    cbn [render]. rewrite append_assoc, length_append.
    destruct p as [tag|e]; cbn [render1 tokensOf].
    + rewrite (scan_closedTag r tag B Hr Hc1 Hw1).
      rewrite (IH Hc2 Hw2). rewrite Nat.add_assoc.
      destruct (capsOf r tag); reflexivity.
    + rewrite (scan_noBracket_app r e _ Hr Hw1).
      rewrite (IH Hc2 Hw2). now rewrite Nat.add_assoc.
Qed.

Lemma matchAll_parts (r : regex) (parts : list part) :
  bolFree r = true -> opensWithBracket r ->
  Forall (fun p => match p with Markup tag => closedTag r tag | Words _ => True end) parts ->
  Forall wellFormedPart parts ->
  matchAll r (render parts) = tokensOf r 0 parts.
Proof.
  intros B Hr Hc Hw. unfold matchAll.
  rewrite <- (append_nil_r (render parts)).
  rewrite (scan_parts r parts B Hr Hc Hw).
  rewrite scan_end, match_at_noBracket by (auto; exact I).
  now rewrite app_nil_r.
Qed.

End PartFacts.

(** ** What the patterns of the validator find in a written element *)
Module ElementFacts.
Import JSString Regex Validator Spec Conformance Measures Builder Parts Elements Programs.
Import StringFacts RegexFacts ScanFacts ValidatorFacts ConformanceFacts MeasureFacts.
Import EscapeFacts PartFacts.

Lemma substring_append_skip (x p : string) (n : nat) :
  String.substring (String.length x) n (x +++ p) = String.substring 0 n p.
Proof. induction x as [|a x IH]; [reflexivity | exact IH]. Qed.

Lemma endsWith_append (x p : string) : endsWith (x +++ p) p = true.
Proof.
  unfold endsWith. rewrite length_append.
  replace (String.length x + String.length p - String.length p) with (String.length x) by lia.
  rewrite substring_append_skip, substring_all, String.eqb_refl.
  apply andb_true_iff. split; [apply Nat.leb_le; lia | reflexivity].
Qed.

Lemma orelse_none_r (a : option mstate) : orelse a None = a.
Proof. now destruct a. Qed.

Lemma every_append (p : ascii -> bool) (a b : string) :
  every p (a +++ b) = every p a && every p b.
Proof.
  induction a as [|c a IH]; [reflexivity|].
  cbn [String.append every]. now rewrite IH, andb_assoc.
Qed.

(** A starred class reads the whole of a run of its characters when what
    follows fails wherever a character of the class comes next. *)
Lemma greedy_class (p : ascii -> bool) (t : string) (K : cont) :
  match t with
  | EmptyString => True
  | String a _ => p a = false
  end ->
  (forall j a u c', p a = true -> K (MState j (String a u) c') = None) ->
  forall w n i c,
    every p w = true -> String.length w <= n ->
    repeat_greedy (step_char p) K n (MState i (w +++ t) c)
    = K (MState (i + String.length w) t c).
Proof.
  intros Ht HK w. induction w as [|a w IH]; intros n i c Hw Hn.
  - cbn [String.append String.length]. rewrite Nat.add_0_r.
    destruct n as [|n]; [reflexivity|]. cbn [repeat_greedy].
    unfold step_char. cbn [rest pos caps].
    destruct t as [|b t]; [reflexivity|]. now rewrite Ht.
  - cbn [every] in Hw. apply andb_prop in Hw as (Ha & Hw).
    cbn [String.length] in Hn. destruct n as [|n]; [lia|].
    cbn [String.append String.length repeat_greedy].
    unfold step_char at 1. cbn [rest pos caps]. rewrite Ha.
    replace (i <? S i) with true by (symmetry; apply Nat.ltb_lt; lia).
    rewrite (IH n (S i) c Hw) by lia.
    rewrite (HK i a (w +++ t) c Ha), orelse_none_r. f_equal. f_equal. lia.
Qed.

(** A class under a quantifier reads the whole of a run of its
    characters when what follows succeeds after the run. *)
Lemma greedy_class_some (p : ascii -> bool) (t : string) (K : cont) :
  match t with
  | EmptyString => True
  | String a _ => p a = false
  end ->
  forall w n i c,
    every p w = true -> String.length w <= n ->
    K (MState (i + String.length w) t c) <> None ->
    repeat_greedy (step_char p) K n (MState i (w +++ t) c)
    = K (MState (i + String.length w) t c).
Proof.
  intros Ht w. induction w as [|a w IH]; intros n i c Hw Hn HK.
  - cbn [String.append String.length]. rewrite Nat.add_0_r.
    destruct n as [|n]; [reflexivity|]. cbn [repeat_greedy].
    unfold step_char. cbn [rest pos caps].
    destruct t as [|b t]; [reflexivity|]. now rewrite Ht.
  - cbn [every] in Hw. apply andb_prop in Hw as (Ha & Hw).
    cbn [String.length] in Hn. destruct n as [|n]; [lia|].
    cbn [String.append String.length repeat_greedy].
    unfold step_char at 1. cbn [rest pos caps]. rewrite Ha.
    replace (i <? S i) with true by (symmetry; apply Nat.ltb_lt; lia).
    cbn [String.length] in HK.
    replace (i + S (String.length w)) with (S i + String.length w) in * by lia.
    rewrite (IH n (S i) c Hw) by (auto; lia).
    destruct (K (MState (S i + String.length w) t c)); [reflexivity | now elim HK].
Qed.

Lemma star_class (neg : bool) (items : list citem) (w t : string) (K : cont) (i : nat)
  (c : list (nat * string)) :
  match t with
  | EmptyString => True
  | String a _ => in_class neg items a = false
  end ->
  (forall j a u c', in_class neg items a = true -> K (MState j (String a u) c') = None) ->
  every (in_class neg items) w = true ->
  run (Star (Class neg items)) K (MState i (w +++ t) c)
  = K (MState (i + String.length w) t c).
Proof.
  intros Ht HK Hw. cbn [run rest].
  apply (greedy_class (in_class neg items) t K Ht HK); auto.
  rewrite length_append. lia.
Qed.

Lemma plus_class (neg : bool) (items : list citem) (w t : string) (K : cont) (i : nat)
  (c : list (nat * string)) :
  match t with
  | EmptyString => True
  | String a _ => in_class neg items a = false
  end ->
  w <> EmptyString -> every (in_class neg items) w = true ->
  K (MState (i + String.length w) t c) <> None ->
  run (Plus (Class neg items)) K (MState i (w +++ t) c)
  = K (MState (i + String.length w) t c).
Proof.
  intros Ht Nw Hw HK. destruct w as [|a w]; [now elim Nw|].
  cbn [every] in Hw. apply andb_prop in Hw as (Ha & Hw).
  cbn [run String.append]. unfold step_char at 1. cbn [rest pos caps]. rewrite Ha.
  cbn [String.length] in *.
  replace (i + S (String.length w)) with (S i + String.length w) in * by lia.
  apply (greedy_class_some (in_class neg items) t K Ht); auto.
  rewrite length_append. lia.
Qed.

Lemma char_fails_on_class (neg : bool) (items : list citem) (c0 : ascii) (k : cont) :
  in_class neg items c0 = false ->
  forall j a u c', in_class neg items a = true ->
                   run (Char c0) k (MState j (String a u) c') = None.
Proof.
  intros H0 j a u c' Ha. cbn [run]. unfold step_char. cbn [rest].
  destruct (Ascii.eqb_spec c0 a) as [->|]; [congruence | reflexivity].
Qed.

Lemma run_seq (a b : regex) (k : cont) (st : mstate) :
  run (Seq a b) k st = run a (run b k) st.
Proof. reflexivity. Qed.

Lemma run_char_hit (c : ascii) (s : string) (k : cont) (i : nat) (cs : list (nat * string)) :
  run (Char c) k (MState i (String c s) cs) = k (MState (S i) s cs).
Proof. cbn [run]. unfold step_char. cbn [rest pos caps]. now rewrite Ascii.eqb_refl. Qed.

Lemma run_opt_char_miss (c a : ascii) (s : string) (k : cont) (i : nat)
  (cs : list (nat * string)) :
  a <> c ->
  run (Opt (Char c)) k (MState i (String a s) cs) = k (MState i (String a s) cs).
Proof.
  intros N. cbn [run]. unfold step_char. cbn [rest pos caps].
  destruct (Ascii.eqb_spec c a) as [->|]; [now elim N | reflexivity].
Qed.

Lemma run_opt_char_some (c : ascii) (s : string) (k : cont) (i : nat)
  (cs : list (nat * string)) (res : mstate) :
  k (MState (S i) s cs) = Some res ->
  run (Opt (Char c)) k (MState i (String c s) cs) = Some res.
Proof.
  intros H. cbn [run]. unfold step_char. cbn [rest pos caps].
  rewrite Ascii.eqb_refl.
  replace (i <? S i) with true by (symmetry; apply Nat.ltb_lt; lia).
  now rewrite H.
Qed.

Lemma run_group (n : nat) (r : regex) (k : cont) (st : mstate) :
  run (Group n r) k st
  = run r (fun st' =>
             k (MState (pos st') (rest st')
                  ((n, String.substring 0 (pos st' - pos st) (rest st)) :: caps st'))) st.
Proof. reflexivity. Qed.

Lemma run_anyTag (body s : string) (k : cont) (i : nat) (c : list (nat * string)) :
  every isNotGt body = true ->
  run anyTagRegex k (MState i (String "<" (body +++ String ">" s)) c)
  = k (MState (i + String.length body + 2) s c).
Proof.
  intros Hb. unfold anyTagRegex, notGt. rewrite run_seq, run_char_hit, run_seq.
  rewrite star_class; auto.
  - rewrite run_char_hit. f_equal. f_equal. lia.
  - exact (char_fails_on_class true [CChar ">"] ">" k eq_refl).
Qed.

Lemma name_head (name : string) :
  name <> EmptyString -> every isNameChar name = true ->
  exists a name', name = String a name' /\ isNameChar a = true.
Proof.
  intros N H. destruct name as [|a name']; [now elim N|].
  cbn [every] in H. apply andb_prop in H as (Ha & _). eauto.
Qed.

Lemma nameEnds_append (extra : string) (c : ascii) (s : string) :
  nameEnds extra -> isNameChar c = false ->
  match extra +++ String c s with
  | EmptyString => True
  | String a _ => isNameChar a = false
  end.
Proof. destruct extra; cbn [String.append]; auto. Qed.

Lemma run_tagRegex (name extra s : string) :
  name <> EmptyString -> every isNameChar name = true ->
  nameEnds extra -> every isNotGt extra = true ->
  run tagRegex Some (MState 0 (String "<" (name +++ extra +++ String ">" s)) [])
  = Some (MState (String.length (String "<" (name +++ extra +++ String ">" EmptyString))) s
            [(1, name)]).
Proof.
  intros N Hn He Hx. destruct (name_head name N Hn) as (a & name' & E & Ha).
  unfold tagRegex. rewrite run_seq, run_char_hit, run_seq.
  rewrite E at 1. cbn [String.append]. rewrite run_opt_char_miss
    by (intros ->; discriminate Ha).
  change (String a (name' +++ extra +++ String ">" s))
    with (String a name' +++ extra +++ String ">" s). rewrite <- E.
  rewrite run_seq, run_group. unfold nameChar.
  assert (F : run (Star notGt ;; Char ">") Some
                (MState (1 + String.length name) (extra +++ String ">" s)
                   [(1, String.substring 0 (1 + String.length name - 1)
                          (name +++ extra +++ String ">" s))])
              = Some (MState (String.length
                                (String "<" (name +++ extra +++ String ">" EmptyString))) s
                        [(1, name)])).
  { rewrite run_seq. unfold notGt. rewrite star_class; auto.
    - rewrite run_char_hit. f_equal. f_equal.
      + cbn [String.length]. rewrite !length_append. cbn [String.length]. lia.
      + replace (1 + String.length name - 1) with (String.length name) by lia.
        now rewrite substring_whole_prefix.
    - exact (char_fails_on_class true [CChar ">"] ">" Some eq_refl). }
  rewrite plus_class; cbn [pos rest caps]; auto.
  - now apply nameEnds_append.
  - rewrite F. discriminate.
Qed.

Lemma run_openTagRegex (name extra s : string) :
  name <> EmptyString -> every isNameChar name = true ->
  nameEnds extra -> every isNotGt extra = true ->
  run openTagRegex Some (MState 0 (String "<" (name +++ extra +++ String ">" s)) [])
  = Some (MState (String.length (String "<" (name +++ extra +++ String ">" EmptyString))) s
            [(2, extra); (1, name)]).
Proof.
  intros N Hn He Hx.
  unfold openTagRegex. rewrite run_seq, run_char_hit, run_seq, run_group. unfold nameChar.
  assert (F : run (Group 2 (Star notGt) ;; Char ">") Some
                (MState (1 + String.length name) (extra +++ String ">" s)
                   [(1, String.substring 0 (1 + String.length name - 1)
                          (name +++ extra +++ String ">" s))])
              = Some (MState (String.length
                                (String "<" (name +++ extra +++ String ">" EmptyString))) s
                        [(2, extra); (1, name)])).
  { rewrite run_seq, run_group. unfold notGt. rewrite star_class; auto.
    - cbn [pos rest caps]. rewrite run_char_hit. f_equal. f_equal.
      + cbn [String.length]. rewrite !length_append. cbn [String.length]. lia.
      + replace (1 + String.length name + String.length extra - (1 + String.length name))
          with (String.length extra) by lia.
        replace (1 + String.length name - 1) with (String.length name) by lia.
        now rewrite !substring_whole_prefix.
    - intros j a u c' Ha. cbn [pos rest caps].
      now apply (char_fails_on_class true [CChar ">"] ">" Some eq_refl). }
  rewrite plus_class; cbn [pos rest caps]; auto.
  - now apply nameEnds_append.
  - rewrite F. discriminate.
Qed.

(** *** Closed tags from runs *)
Lemma closed_by (r : regex) (tag : string) (cs : list (nat * string)) :
  (forall s, run r Some (MState 0 (tag +++ s) [])
             = Some (MState (String.length tag) s cs)) ->
  capsOf r tag = Some cs /\ closedTag r tag.
Proof.
  intros H.
  assert (C : capsOf r tag = Some cs).
  { unfold capsOf. rewrite <- (append_nil_r tag) at 1. now rewrite H. }
  split; [exact C|]. intros s. now rewrite H, C.
Qed.

Lemma failed_by (r : regex) (tag : string) :
  (forall s, run r Some (MState 0 (tag +++ s) []) = None) ->
  capsOf r tag = None /\ closedTag r tag.
Proof.
  intros H.
  assert (C : capsOf r tag = None).
  { unfold capsOf. rewrite <- (append_nil_r tag) at 1. now rewrite H. }
  split; [exact C|]. intros s. now rewrite H, C.
Qed.

Lemma buildAttributes_cons (kv : string * string) (attrs : list (string * string)) :
  _buildAttributes (kv :: attrs) = " " +++ attrText kv +++ _buildAttributes attrs.
Proof.
  unfold _buildAttributes, join, attrText. cbn [map String.concat].
  destruct attrs as [|kv' attrs]; cbn [map]; [now rewrite append_nil_r|].
  now rewrite !append_assoc.
Qed.

Lemma every_impl (p q : ascii -> bool) (s : string) :
  (forall c, p c = true -> q c = true) -> every p s = true -> every q s = true.
Proof.
  intros H. induction s as [|c s IH]; [reflexivity|]. cbn [every]. intros E.
  apply andb_prop in E as (Ec & Es). now rewrite (H c Ec), IH.
Qed.

Lemma safe_notQuote (c : ascii) : isSafeChar c = true -> isNotQuote c = true.
Proof.
  unfold isSafeChar, isNotQuote, in_class. cbn [existsb in_item].
  destruct (Ascii.eqb_spec c dquote) as [->|N]; [now rewrite !andb_false_r|].
  intros _. destruct (Ascii.eqb_spec dquote c) as [<-|]; [now elim N | reflexivity].
Qed.

Lemma safe_notGt (c : ascii) : isSafeChar c = true -> isNotGt c = true.
Proof.
  unfold isSafeChar, isNotGt, in_class. cbn [existsb in_item].
  destruct (Ascii.eqb_spec c ">") as [->|N]; [now rewrite !andb_false_r|].
  intros _. destruct (Ascii.eqb_spec ">" c) as [<-|]; [now elim N | reflexivity].
Qed.

Lemma safe_notLt (c : ascii) : isSafeChar c = true -> negb (Ascii.eqb c "<") = true.
Proof. unfold isSafeChar. intros H. now apply andb_prop in H as (H & _); apply andb_prop in H as (H & _). Qed.

Lemma attrName_safe (c : ascii) : isAttrNameChar c = true -> isSafeChar c = true.
Proof.
  destruct c as [[] [] [] [] [] [] [] []]; intros H; first [reflexivity | discriminate H].
Qed.

Lemma name_safe (c : ascii) : isNameChar c = true -> isSafeChar c = true.
Proof.
  destruct c as [[] [] [] [] [] [] [] []]; intros H; first [reflexivity | discriminate H].
Qed.

Lemma run_attrRegex (k v s : string) (i : nat) :
  k <> EmptyString -> every isAttrNameChar k = true -> every isNotQuote v = true ->
  run attrRegex Some (MState i (attrText (k, v) +++ s) [])
  = Some (MState (i + String.length (attrText (k, v))) s [(2, v); (1, k)]).
Proof.
  intros N Hk Hv. unfold attrText, quoted. cbn [fst snd].
  rewrite !append_assoc. cbn [String.append]. rewrite !append_assoc. cbn [String.append].
  unfold attrRegex. rewrite run_seq, run_group.
  assert (F : run (Char "=" ;; Char dquote ;; Group 2 (Star (Class true [CChar dquote]))
                   ;; Char dquote) Some
                (MState (i + String.length k) (String "=" (String dquote (v +++ String dquote s)))
                   [(1, String.substring 0 (i + String.length k - i)
                          (k +++ String "=" (String dquote (v +++ String dquote s))))])
              = Some (MState (i + String.length
                                    (k +++ String "=" (String dquote (v +++ String dquote EmptyString))))
                        s [(2, v); (1, k)])).
  { rewrite run_seq, run_char_hit, run_seq, run_char_hit, run_seq, run_group.
    rewrite star_class; auto.
    - cbn [pos rest caps]. rewrite run_char_hit. f_equal. f_equal.
      + rewrite !length_append. cbn [String.length]. rewrite !length_append.
        cbn [String.length]. lia.
      + replace (S (S (i + String.length k)) + String.length v - S (S (i + String.length k)))
          with (String.length v) by lia.
        replace (i + String.length k - i) with (String.length k) by lia.
        now rewrite !substring_whole_prefix.
    - intros j a u c' Ha. cbn [pos rest caps].
      now apply (char_fails_on_class true [CChar dquote] dquote Some eq_refl). }
  rewrite plus_class; cbn [pos rest caps]; auto.
  rewrite F. discriminate.
Qed.

Lemma scan_prefix_match (r : regex) (w s : string) (i : nat) (cs : list (nat * string)) :
  w <> EmptyString ->
  run r Some (MState i (w +++ s) []) = Some (MState (i + String.length w) s cs) ->
  scan r 0 i (w +++ s) = JSMatch i w cs :: scan r 0 (i + String.length w) s.
Proof.
  intros N H.
  assert (M : match_at r i (w +++ s) = Some (JSMatch i w cs)).
  { unfold match_at. rewrite H. cbn [pos caps].
    replace (i + String.length w - i) with (String.length w) by lia.
    now rewrite substring_whole_prefix. }
  destruct w as [|a w]; [now elim N|]. cbn [String.append] in *.
  rewrite scan_step, M. cbn [m_text String.length]. f_equal.
  replace (S (String.length w) - 1) with (String.length w) by lia.
  rewrite scan_skip. f_equal. lia.
Qed.

Lemma scan_attr_miss (c : ascii) (s : string) (i : nat) :
  isAttrNameChar c = false -> scan attrRegex 0 i (String c s) = scan attrRegex 0 (S i) s.
Proof.
  intros H. rewrite scan_step. unfold match_at, attrRegex. rewrite run_seq, run_group.
  cbn [run]. unfold step_char at 1. cbn [rest]. unfold isAttrNameChar in H. now rewrite H.
Qed.

(** Parsing the attribute text that the builder writes gives back the
    names and the values. *)
Lemma attributes_parsed (tail : string) (attrs : list (string * string)) :
  noAttribute tail -> Forall safeAttr attrs ->
  forall i, map groups (scan attrRegex 0 i (_buildAttributes attrs +++ tail)) = attrs.
Proof.
  intros Ht. induction 1 as [|[k v] attrs (N & Hk & Hv) _ IH]; intros i.
  - cbn [_buildAttributes String.append]. now rewrite Ht.
  - cbn [fst snd] in *. rewrite buildAttributes_cons.
    cbn [String.append]. rewrite scan_attr_miss by reflexivity.
    rewrite append_assoc.
    rewrite (scan_prefix_match attrRegex (attrText (k, v)) _ (S i) [(2, v); (1, k)]).
    + cbn [map]. rewrite IH. reflexivity.
    + unfold attrText. cbn [fst]. destruct k; [now elim N | discriminate].
    + apply run_attrRegex; auto. eapply every_impl; [exact safe_notQuote | exact Hv].
Qed.

Lemma includes_slash_gt (w : string) :
  every isNotGt w = true -> includes (w +++ ">") "/>" = lastIs "/" w.
Proof.
  induction w as [|a w IH]; [reflexivity|]. cbn [every]. intros H.
  apply andb_prop in H as (Ha & Hw). cbn [String.append includes startsWith lastIs].
  destruct w as [|b w].
  - cbn [String.append includes startsWith]. cbn. now rewrite !andb_true_r, !orb_false_r.
  - rewrite <- IH by exact Hw. cbn [String.append].
    cbn [every] in Hw. apply andb_prop in Hw as (Hb & _).
    replace (Ascii.eqb b ">") with false; [now rewrite andb_false_r|].
    destruct (Ascii.eqb_spec b ">") as [->|]; [discriminate Hb | reflexivity].
Qed.

Lemma lastIs_append (c : ascii) (x y : string) :
  y <> EmptyString -> lastIs c (x +++ y) = lastIs c y.
Proof.
  intros N. induction x as [|a x IH]; [reflexivity|].
  cbn [String.append lastIs]. rewrite IH.
  destruct (x +++ y) eqn:E; [|reflexivity].
  destruct x; [now elim N | discriminate E].
Qed.

Lemma lastIs_every (p : ascii -> bool) (c : ascii) (s : string) :
  p c = false -> every p s = true -> lastIs c s = false.
Proof.
  intros Hc. induction s as [|a s IH]; [reflexivity|]. cbn [every lastIs]. intros H.
  apply andb_prop in H as (Ha & Hs). destruct s as [|b s]; [|now apply IH].
  destruct (Ascii.eqb_spec a c) as [->|]; [congruence | reflexivity].
Qed.

Lemma attrText_quote (kv : string * string) :
  exists x, attrText kv = x +++ String dquote EmptyString.
Proof.
  exists (fst kv +++ "=" +++ String dquote (snd kv)). unfold attrText, quoted.
  rewrite !append_assoc. cbn [String.append]. now rewrite ?append_assoc.
Qed.

Lemma lastIs_buildAttributes (c : ascii) (attrs : list (string * string)) :
  c <> dquote ->
  forall before, lastIs c before = false ->
                 lastIs c (before +++ _buildAttributes attrs) = false.
Proof.
  intros Nq. induction attrs as [|kv attrs IH]; intros before H.
  - cbn [_buildAttributes]. now rewrite append_nil_r.
  - rewrite buildAttributes_cons. destruct (attrText_quote kv) as (x & ->).
    rewrite <- !append_assoc. apply IH. rewrite lastIs_append by discriminate.
    cbn [lastIs]. destruct (Ascii.eqb_spec dquote c) as [<-|]; [now elim Nq | reflexivity].
Qed.

Lemma lastIs_tag (c : ascii) (name : string) (attrs : list (string * string)) :
  c <> dquote -> isNameChar c = false -> safeName name ->
  lastIs c (String "<" (name +++ _buildAttributes attrs)) = false.
Proof.
  intros Nq Nc (N & Hn & _).
  change (String "<" (name +++ _buildAttributes attrs))
    with ("<" +++ name +++ _buildAttributes attrs).
  rewrite <- append_assoc. apply lastIs_buildAttributes; [exact Nq|].
  rewrite lastIs_append by exact N. now apply (lastIs_every isNameChar).
Qed.

Lemma every_buildAttributes (p : ascii -> bool) (attrs : list (string * string)) :
  p " "%char = true -> p "="%char = true -> p dquote = true ->
  (forall c, isSafeChar c = true -> p c = true) ->
  Forall safeAttr attrs -> every p (_buildAttributes attrs) = true.
Proof.
  intros P1 P2 P3 Hp. induction 1 as [|[k v] attrs (_ & Hk & Hv) _ IH]; [reflexivity|].
  cbn [fst snd] in *. rewrite buildAttributes_cons. unfold attrText, quoted. cbn [fst snd].
  cbn [String.append every]. rewrite P1. cbn [andb].
  rewrite !every_append. cbn [every]. rewrite !every_append. cbn [every].
  rewrite P2, P3, IH.
  rewrite (every_impl isAttrNameChar p k) by (auto using attrName_safe).
  now rewrite (every_impl isSafeChar p v).
Qed.

Lemma notGt_buildAttributes (attrs : list (string * string)) :
  Forall safeAttr attrs -> every isNotGt (_buildAttributes attrs) = true.
Proof. apply every_buildAttributes; try reflexivity. exact safe_notGt. Qed.

Lemma noBracket_buildAttributes (attrs : list (string * string)) :
  Forall safeAttr attrs -> noBracket (_buildAttributes attrs) = true.
Proof. apply every_buildAttributes; try reflexivity. exact safe_notLt. Qed.

Lemma nameEnds_attributes (attrs : list (string * string)) :
  nameEnds (_buildAttributes attrs).
Proof.
  destruct attrs as [|kv attrs]; [exact I|]. rewrite buildAttributes_cons. reflexivity.
Qed.

Lemma nameEnds_buildAttributes (attrs : list (string * string)) (tail : string) :
  nameEnds tail -> nameEnds (_buildAttributes attrs +++ tail).
Proof.
  destruct attrs as [|kv attrs]; [auto|]. rewrite buildAttributes_cons. reflexivity.
Qed.

(** The text of the three tags, as a bracket, a name and what follows
    the name. *)
Lemma openTag_written (name : string) (attrs : list (string * string)) (s : string) :
  openTag name attrs +++ s
  = String "<" (name +++ _buildAttributes attrs +++ String ">" s).
Proof.
  unfold openTag. rewrite !append_assoc. cbn [String.append]. now rewrite ?append_assoc.
Qed.

Lemma emptyTag_written (name : string) (attrs : list (string * string)) (s : string) :
  emptyTag name attrs +++ s
  = String "<" (name +++ (_buildAttributes attrs +++ "/") +++ String ">" s).
Proof.
  unfold emptyTag. rewrite !append_assoc. cbn [String.append]. now rewrite ?append_assoc.
Qed.

Lemma closeTag_written (name : string) (s : string) :
  closeTag name +++ s = String "<" (String "/" (name +++ String ">" s)).
Proof.
  unfold closeTag. rewrite !append_assoc. cbn [String.append]. now rewrite ?append_assoc.
Qed.

Lemma notGt_slash (attrs : list (string * string)) :
  Forall safeAttr attrs -> every isNotGt (_buildAttributes attrs +++ "/") = true.
Proof. intros H. now rewrite every_append, notGt_buildAttributes. Qed.

(** *** What the patterns find on the tags of an element *)
Lemma openTag_tagRegex (name : string) (attrs : list (string * string)) :
  safeName name -> Forall safeAttr attrs ->
  capsOf tagRegex (openTag name attrs) = Some [(1, name)] /\
  closedTag tagRegex (openTag name attrs).
Proof.
  intros (N & Hn & _) Ha. apply closed_by. intros s.
  rewrite openTag_written, run_tagRegex;
    [reflexivity | exact N | exact Hn | apply nameEnds_attributes
    | now apply notGt_buildAttributes].
Qed.

Lemma openTag_openTagRegex (name : string) (attrs : list (string * string)) :
  safeName name -> Forall safeAttr attrs ->
  capsOf openTagRegex (openTag name attrs) = Some [(2, _buildAttributes attrs); (1, name)] /\
  closedTag openTagRegex (openTag name attrs).
Proof.
  intros (N & Hn & _) Ha. apply closed_by. intros s.
  rewrite openTag_written, run_openTagRegex;
    [reflexivity | exact N | exact Hn | apply nameEnds_attributes
    | now apply notGt_buildAttributes].
Qed.

Lemma emptyTag_tagRegex (name : string) (attrs : list (string * string)) :
  safeName name -> Forall safeAttr attrs ->
  capsOf tagRegex (emptyTag name attrs) = Some [(1, name)] /\
  closedTag tagRegex (emptyTag name attrs).
Proof.
  intros (N & Hn & _) Ha. apply closed_by. intros s.
  rewrite emptyTag_written, run_tagRegex;
    [ now rewrite <- (emptyTag_written name attrs EmptyString), append_nil_r
    | exact N | exact Hn | now apply nameEnds_buildAttributes | now apply notGt_slash].
Qed.

Lemma emptyTag_openTagRegex (name : string) (attrs : list (string * string)) :
  safeName name -> Forall safeAttr attrs ->
  capsOf openTagRegex (emptyTag name attrs)
  = Some [(2, _buildAttributes attrs +++ "/"); (1, name)] /\
  closedTag openTagRegex (emptyTag name attrs).
Proof.
  intros (N & Hn & _) Ha. apply closed_by. intros s.
  rewrite emptyTag_written, run_openTagRegex;
    [ now rewrite <- (emptyTag_written name attrs EmptyString), append_nil_r
    | exact N | exact Hn | now apply nameEnds_buildAttributes | now apply notGt_slash].
Qed.

Lemma bodyNotGt (name extra : string) :
  every isNameChar name = true -> every isNotGt extra = true ->
  every isNotGt (name +++ extra) = true.
Proof.
  intros Hn Hx. rewrite every_append, Hx, andb_true_r.
  eapply every_impl; [|exact Hn]. intros c Hc. now apply safe_notGt, name_safe.
Qed.

Lemma tag_anyTagRegex (body : string) :
  every isNotGt body = true ->
  capsOf anyTagRegex (String "<" (body +++ ">")) = Some [] /\
  closedTag anyTagRegex (String "<" (body +++ ">")).
Proof.
  intros Hb. apply closed_by. intros s. cbn [String.append].
  rewrite !append_assoc. cbn [String.append]. rewrite run_anyTag by exact Hb.
  f_equal. f_equal. cbn [String.length]. rewrite !length_append. cbn [String.length]. lia.
Qed.

Lemma openTag_anyTagRegex (name : string) (attrs : list (string * string)) :
  safeName name -> Forall safeAttr attrs ->
  capsOf anyTagRegex (openTag name attrs) = Some [] /\
  closedTag anyTagRegex (openTag name attrs).
Proof.
  intros (N & Hn & _) Ha.
  rewrite <- (append_nil_r (openTag name attrs)), openTag_written, <- append_assoc.
  apply tag_anyTagRegex. apply bodyNotGt; [exact Hn | now apply notGt_buildAttributes].
Qed.

Lemma emptyTag_anyTagRegex (name : string) (attrs : list (string * string)) :
  safeName name -> Forall safeAttr attrs ->
  capsOf anyTagRegex (emptyTag name attrs) = Some [] /\
  closedTag anyTagRegex (emptyTag name attrs).
Proof.
  intros (N & Hn & _) Ha.
  rewrite <- (append_nil_r (emptyTag name attrs)), emptyTag_written, <- append_assoc.
  apply tag_anyTagRegex. apply bodyNotGt; [exact Hn | now apply notGt_slash].
Qed.

Lemma closeTag_anyTagRegex (name : string) :
  safeName name ->
  capsOf anyTagRegex (closeTag name) = Some [] /\ closedTag anyTagRegex (closeTag name).
Proof.
  intros (N & Hn & _).
  rewrite <- (append_nil_r (closeTag name)), closeTag_written.
  change (String "<" (String "/" (name +++ ">"))) with (String "<" (String "/" name +++ ">")).
  apply tag_anyTagRegex. cbn [every]. apply andb_true_intro. split; [reflexivity|].
  eapply every_impl; [|exact Hn]. intros c Hc. now apply safe_notGt, name_safe.
Qed.

Lemma closeTag_openTagRegex (name : string) :
  capsOf openTagRegex (closeTag name) = None /\ closedTag openTagRegex (closeTag name).
Proof.
  apply failed_by. intros s. rewrite closeTag_written. unfold openTagRegex.
  rewrite run_seq, run_char_hit, run_seq, run_group. reflexivity.
Qed.

(** The closing tag. *)
Lemma closeTag_tagRegex (name : string) :
  safeName name ->
  capsOf tagRegex (closeTag name) = Some [(1, name)] /\ closedTag tagRegex (closeTag name).
Proof.
  intros (N & Hn & _). apply closed_by. intros s. rewrite closeTag_written.
  unfold tagRegex. rewrite run_seq, run_char_hit, run_seq.
  assert (F : run (Group 1 (Plus nameChar) ;; Star notGt ;; Char ">") Some
                (MState 2 (name +++ String ">" s) [])
              = Some (MState (String.length (closeTag name)) s [(1, name)])).
  { rewrite run_seq, run_group. unfold nameChar.
    assert (G : run (Star notGt ;; Char ">") Some
                  (MState (2 + String.length name) (String ">" s)
                     [(1, String.substring 0 (2 + String.length name - 2)
                            (name +++ String ">" s))])
                = Some (MState (String.length (closeTag name)) s [(1, name)])).
    { rewrite run_seq. unfold notGt.
      rewrite (star_class true [CChar ">"] EmptyString (String ">" s)); auto.
      - rewrite run_char_hit. f_equal. f_equal.
        + unfold closeTag. cbn [String.append String.length]. rewrite length_append.
          cbn [String.length]. lia.
        + replace (2 + String.length name - 2) with (String.length name) by lia.
          now rewrite substring_whole_prefix.
      - exact (char_fails_on_class true [CChar ">"] ">" Some eq_refl). }
    rewrite plus_class; cbn [pos rest caps]; auto. rewrite G. discriminate. }
  now apply run_opt_char_some.
Qed.

(** *** The speak patterns on the tags of an element *)
Lemma run_lit_miss (p s : string) (k : cont) :
  forall i c, startsWith s p = false -> run (lit p) k (MState i s c) = None.
Proof.
  revert s. induction p as [|a p IH]; intros s i c H; [discriminate H|].
  cbn [lit]. rewrite run_seq. cbn [run]. unfold step_char. cbn [rest pos caps].
  destruct s as [|b s]; [reflexivity|]. cbn [startsWith] in H.
  rewrite Ascii.eqb_sym. destruct (Ascii.eqb b a); [|reflexivity].
  cbn [andb] in H. now apply IH.
Qed.

Lemma startsWith_longer (s p q : string) :
  startsWith s p = false -> startsWith s (p +++ q) = false.
Proof.
  revert s. induction p as [|a p IH]; intros s H; [discriminate H|].
  cbn [String.append startsWith] in *. destruct s as [|b s]; [reflexivity|].
  destruct (Ascii.eqb b a); [|reflexivity]. cbn [andb] in *. now apply IH.
Qed.

Lemma startsWith_head (a : ascii) (s p : string) :
  startsWith (String a s) (String a p) = startsWith s p.
Proof. cbn [startsWith]. now rewrite Ascii.eqb_refl. Qed.

Lemma name_not_slash (name x : string) (p : string) :
  name <> EmptyString -> every isNameChar name = true ->
  startsWith (name +++ x) (String "/" p) = false.
Proof.
  intros N Hn. destruct (name_head name N Hn) as (a & name' & -> & Ha).
  cbn [String.append startsWith].
  destruct (Ascii.eqb_spec a "/") as [->|]; [discriminate Ha | reflexivity].
Qed.

(** A word of name characters is at the start of a name and what
    follows it only if it is at the start of the name. *)
Lemma startsWith_through (word : string) :
  every isNameChar word = true ->
  forall name a x,
    isNameChar a = false ->
    startsWith (name +++ String a x) word = startsWith name word.
Proof.
  induction word as [|w word IH]; intros Hw name a x Ha; [now destruct name|].
  cbn [every] in Hw. apply andb_prop in Hw as (Hw1 & Hw2).
  destruct name as [|b name]; cbn [String.append startsWith].
  - destruct (Ascii.eqb_spec a w) as [->|]; [congruence | reflexivity].
  - now rewrite IH.
Qed.

Lemma tag_speakOpenRegex (name : string) (a : ascii) (extra : string) :
  safeName name -> isNameChar a = false ->
  capsOf speakOpenRegex (String "<" (name +++ String a extra)) = None /\
  closedTag speakOpenRegex (String "<" (name +++ String a extra)).
Proof.
  intros (N & Hn & Hs) Ha. apply failed_by. intros s. unfold speakOpenRegex.
  rewrite run_seq. apply run_lit_miss. cbn [String.append].
  rewrite startsWith_head, !append_assoc. cbn [String.append].
  now rewrite (startsWith_through "speak" eq_refl).
Qed.

(** What follows the name in an opening tag and in an empty tag starts
    with a space, a slash or the closing bracket. *)
Lemma openTag_shape (name : string) (attrs : list (string * string)) :
  exists a extra,
    isNameChar a = false /\ openTag name attrs = String "<" (name +++ String a extra).
Proof.
  rewrite <- (append_nil_r (openTag name attrs)), openTag_written.
  destruct attrs as [|kv attrs].
  - exists ">"%char, EmptyString. split; reflexivity.
  - rewrite buildAttributes_cons. cbn [String.append]. eexists; eexists.
    split; [|reflexivity]. reflexivity.
Qed.

Lemma emptyTag_shape (name : string) (attrs : list (string * string)) :
  exists a extra,
    isNameChar a = false /\ emptyTag name attrs = String "<" (name +++ String a extra).
Proof.
  rewrite <- (append_nil_r (emptyTag name attrs)), emptyTag_written.
  destruct attrs as [|kv attrs].
  - exists "/"%char, ">". split; reflexivity.
  - rewrite buildAttributes_cons. cbn [String.append]. eexists; eexists.
    split; [|reflexivity]. reflexivity.
Qed.

Lemma tag_speakCloseRegex (name extra : string) :
  safeName name ->
  capsOf speakCloseRegex (String "<" (name +++ extra)) = None /\
  closedTag speakCloseRegex (String "<" (name +++ extra)).
Proof.
  intros (N & Hn & Hs). apply failed_by. intros s. unfold speakCloseRegex.
  apply run_lit_miss. cbn [String.append].
  rewrite startsWith_head, !append_assoc. now apply name_not_slash.
Qed.

Lemma closeTag_speakOpenRegex (name : string) :
  capsOf speakOpenRegex (closeTag name) = None /\ closedTag speakOpenRegex (closeTag name).
Proof.
  apply failed_by. intros s. rewrite closeTag_written. unfold speakOpenRegex.
  rewrite run_seq. apply run_lit_miss. reflexivity.
Qed.

Lemma closeTag_speakCloseRegex (name : string) :
  safeName name ->
  capsOf speakCloseRegex (closeTag name) = None /\ closedTag speakCloseRegex (closeTag name).
Proof.
  intros (N & Hn & Hs). apply failed_by. intros s. rewrite closeTag_written.
  unfold speakCloseRegex. apply run_lit_miss.
  rewrite !startsWith_head.
  change "speak>" with ("speak" +++ ">"). apply startsWith_longer.
  now rewrite (startsWith_through "speak" eq_refl).
Qed.

(** *** The kind of the tags of an element *)
Lemma tag_not_closing (name x : string) :
  safeName name -> startsWith (String "<" (name +++ x)) "</" = false.
Proof.
  intros (N & Hn & _). rewrite startsWith_head. now apply name_not_slash.
Qed.

Lemma openTag_includes (name : string) (attrs : list (string * string)) :
  safeName name -> Forall safeAttr attrs -> includes (openTag name attrs) "/>" = false.
Proof.
  intros Hn Ha. rewrite <- (append_nil_r (openTag name attrs)), openTag_written.
  change (String "<" (name +++ _buildAttributes attrs +++ ">"))
    with (String "<" (name +++ _buildAttributes attrs +++ ">")).
  rewrite <- append_assoc.
  change (String "<" ((name +++ _buildAttributes attrs) +++ ">"))
    with (String "<" (name +++ _buildAttributes attrs) +++ ">").
  rewrite includes_slash_gt.
  - apply lastIs_tag; auto. discriminate.
  - cbn [every]. apply andb_true_intro. split; [reflexivity|].
    destruct Hn as (_ & Hn & _). apply bodyNotGt; [exact Hn | now apply notGt_buildAttributes].
Qed.

Lemma emptyTag_includes (name : string) (attrs : list (string * string)) :
  safeName name -> Forall safeAttr attrs -> includes (emptyTag name attrs) "/>" = true.
Proof.
  intros Hn Ha. rewrite <- (append_nil_r (emptyTag name attrs)), emptyTag_written.
  rewrite <- append_assoc.
  change (String "<" ((name +++ _buildAttributes attrs +++ "/") +++ ">"))
    with (String "<" (name +++ _buildAttributes attrs +++ "/") +++ ">").
  rewrite includes_slash_gt.
  - change (String "<" (name +++ _buildAttributes attrs +++ "/"))
      with ("<" +++ name +++ _buildAttributes attrs +++ "/").
    rewrite <- !append_assoc. now rewrite lastIs_append by discriminate.
  - cbn [every]. apply andb_true_intro. split; [reflexivity|].
    destruct Hn as (_ & Hn & _). apply bodyNotGt; [exact Hn | now apply notGt_slash].
Qed.

Lemma closeTag_includes (name : string) :
  safeName name -> includes (closeTag name) "/>" = false.
Proof.
  intros (N & Hn & _). rewrite <- (append_nil_r (closeTag name)), closeTag_written.
  change (String "<" (String "/" (name +++ ">")))
    with (String "<" (String "/" name) +++ ">").
  rewrite includes_slash_gt.
  - change (String "<" (String "/" name)) with ("</" +++ name).
    rewrite lastIs_append by exact N. now apply (lastIs_every isNameChar).
  - cbn [every]. apply andb_true_intro. split; [reflexivity|].
    eapply every_impl; [|exact Hn]. intros c Hc. now apply safe_notGt, name_safe.
Qed.

Lemma openTag_kind (name : string) (attrs : list (string * string)) :
  safeName name -> Forall safeAttr attrs -> kindOf (openTag name attrs) = Opening.
Proof.
  intros Hn Ha. unfold kindOf. rewrite openTag_includes by auto. cbn [andb].
  rewrite <- (append_nil_r (openTag name attrs)), openTag_written.
  now rewrite tag_not_closing.
Qed.

Lemma emptyTag_kind (name : string) (attrs : list (string * string)) :
  safeName name -> Forall safeAttr attrs -> kindOf (emptyTag name attrs) = SelfClosing.
Proof.
  intros Hn Ha. unfold kindOf. rewrite emptyTag_includes by auto. cbn [andb].
  rewrite <- (append_nil_r (emptyTag name attrs)), emptyTag_written.
  now rewrite tag_not_closing.
Qed.

Lemma closeTag_kind (name : string) : safeName name -> kindOf (closeTag name) = Closing.
Proof.
  intros Hn. unfold kindOf. rewrite closeTag_includes by auto. reflexivity.
Qed.

(** *** The parts of an element *)
Lemma noBracket_append (a b : string) :
  noBracket (a +++ b) = noBracket a && noBracket b.
Proof. apply every_append. Qed.

Lemma noBracket_name (name : string) : every isNameChar name = true -> noBracket name = true.
Proof.
  apply every_impl. intros c Hc. now apply safe_notLt, name_safe.
Qed.

Lemma openTag_wellFormed (name : string) (attrs : list (string * string)) :
  safeName name -> Forall safeAttr attrs -> wellFormedPart (Markup (openTag name attrs)).
Proof.
  intros (_ & Hn & _) Ha. eexists. split; [reflexivity|].
  now rewrite !noBracket_append, noBracket_name, noBracket_buildAttributes.
Qed.

Lemma emptyTag_wellFormed (name : string) (attrs : list (string * string)) :
  safeName name -> Forall safeAttr attrs -> wellFormedPart (Markup (emptyTag name attrs)).
Proof.
  intros (_ & Hn & _) Ha. eexists. split; [reflexivity|].
  now rewrite !noBracket_append, noBracket_name, noBracket_buildAttributes.
Qed.

Lemma closeTag_wellFormed (name : string) :
  safeName name -> wellFormedPart (Markup (closeTag name)).
Proof.
  intros (_ & Hn & _). eexists. split; [reflexivity|].
  cbn [String.append]. unfold noBracket. cbn [every]. fold (noBracket (name +++ ">")).
  now rewrite noBracket_append, noBracket_name.
Qed.

(** *** The schema pass on the tags of an element *)
Lemma flat_map_map {A B C : Type} (g : B -> list C) (h : A -> B) (l : list A) :
  flat_map g (map h l) = flat_map (fun x => g (h x)) l.
Proof. induction l as [|x l IH]; [reflexivity|]. cbn [map flat_map]. now rewrite IH. Qed.

Lemma noAttribute_nil : noAttribute EmptyString.
Proof. intros i. reflexivity. Qed.

Lemma noAttribute_slash : noAttribute "/".
Proof. intros i. reflexivity. Qed.

Lemma attributeNames_built (tail : string) (attrs : list (string * string)) :
  noAttribute tail -> Forall safeAttr attrs ->
  attributeNames (_buildAttributes attrs +++ tail) = map fst attrs.
Proof.
  intros Ht Ha. unfold attributeNames, matchAll.
  rewrite <- (attributes_parsed tail attrs Ht Ha 0) at 2. now rewrite map_map.
Qed.

Lemma attributeErrors_built (tagName : string) (table : list (string * constraint))
  (tail : string) (attrs : list (string * string)) :
  noAttribute tail -> Forall safeAttr attrs ->
  flat_map (attributeError tagName table) (matchAll attrRegex (_buildAttributes attrs +++ tail))
  = flat_map (valueError tagName table) attrs.
Proof.
  intros Ht Ha. unfold matchAll.
  rewrite <- (attributes_parsed tail attrs Ht Ha 0) at 2. now rewrite flat_map_map.
Qed.

Lemma openTag_errors (i : nat) (name : string) (attrs : list (string * string)) :
  safeName name -> Forall safeAttr attrs ->
  tokenErrors (JSMatch i (openTag name attrs) [(2, _buildAttributes attrs); (1, name)])
  = (if has supportedTags name then missingErrors name attrs ++ valueErrors name attrs
     else []).
Proof.
  intros Hn Ha. unfold tokenErrors, requiredErrors, attributeErrors, missingErrors, valueErrors.
  change (group 1 (JSMatch i (openTag name attrs) [(2, _buildAttributes attrs); (1, name)]))
    with name.
  change (group 2 (JSMatch i (openTag name attrs) [(2, _buildAttributes attrs); (1, name)]))
    with (_buildAttributes attrs).
  cbn [m_text]. rewrite openTag_includes by auto.
  rewrite <- (append_nil_r (_buildAttributes attrs)).
  rewrite (attributeNames_built EmptyString attrs noAttribute_nil Ha).
  destruct (has supportedTags name); [|reflexivity]. f_equal.
  destruct (own validAttributeValues name) as [table|]; [|reflexivity].
  apply attributeErrors_built; [exact noAttribute_nil | exact Ha].
Qed.

Lemma emptyTag_errors (i : nat) (name : string) (attrs : list (string * string)) :
  safeName name -> Forall safeAttr attrs ->
  tokenErrors (JSMatch i (emptyTag name attrs) [(2, _buildAttributes attrs +++ "/"); (1, name)])
  = (if has supportedTags name then valueErrors name attrs else []).
Proof.
  intros Hn Ha. unfold tokenErrors, requiredErrors, attributeErrors, valueErrors.
  change (group 1 (JSMatch i (emptyTag name attrs)
                     [(2, _buildAttributes attrs +++ "/"); (1, name)])) with name.
  change (group 2 (JSMatch i (emptyTag name attrs)
                     [(2, _buildAttributes attrs +++ "/"); (1, name)]))
    with (_buildAttributes attrs +++ "/").
  cbn [m_text]. rewrite emptyTag_includes by auto.
  destruct (has supportedTags name); [|reflexivity].
  destruct (own requiredAttributes name); cbn [app];
    (destruct (own validAttributeValues name) as [table|]; [|reflexivity]);
    apply attributeErrors_built; [exact noAttribute_slash | exact Ha
                                 | exact noAttribute_slash | exact Ha].
Qed.

Lemma element_tokens (el : element) (i : nat) :
  safeElement el ->
  tokensOf speakOpenRegex i (partsOfElement el) = [] /\
  tokensOf speakCloseRegex i (partsOfElement el) = [] /\
  balanced (tokensOf tagRegex i (partsOfElement el)) /\
  flat_map tokenErrors (tokensOf openTagRegex i (partsOfElement el)) = elementErrors el /\
  flat_map tokenWarnings (tokensOf openTagRegex i (partsOfElement el)) = elementWarnings el /\
  List.length (tokensOf anyTagRegex i (partsOfElement el)) = markupCount (partsOfElement el) /\
  totalLength (tokensOf anyTagRegex i (partsOfElement el)) = markupLength (partsOfElement el).
Proof.
  destruct el as [e|name attrs content|name attrs]; cbn [safeElement partsOfElement].
  - intros _. cbn [tokensOf]. repeat split. constructor.
  - intros (Hn & Ha & Hc). cbn [tokensOf].
    rewrite (proj1 (openTag_tagRegex name attrs Hn Ha)),
      (proj1 (openTag_openTagRegex name attrs Hn Ha)),
      (proj1 (openTag_anyTagRegex name attrs Hn Ha)),
      (proj1 (closeTag_tagRegex name Hn)), (proj1 (closeTag_openTagRegex name)),
      (proj1 (closeTag_anyTagRegex name Hn)),
      (proj1 (closeTag_speakOpenRegex name)), (proj1 (closeTag_speakCloseRegex name Hn)).
    destruct (openTag_shape name attrs) as (a & extra & Na & Eo).
    rewrite Eo at 1 2.
    rewrite (proj1 (tag_speakOpenRegex name a extra Hn Na)),
      (proj1 (tag_speakCloseRegex name _ Hn)).
    split; [reflexivity|]. split; [reflexivity|]. split.
    { apply (balanced_pair _ [] _ []); cbn [m_text];
        [now apply openTag_kind | now apply closeTag_kind | reflexivity
        | constructor | constructor]. }
    cbn [flat_map]. rewrite app_nil_r, openTag_errors by auto.
    split; [reflexivity|]. split.
    { unfold tokenWarnings.
      change (group 1 (JSMatch i (openTag name attrs) [(2, _buildAttributes attrs); (1, name)]))
        with name. cbn [elementWarnings]. now rewrite app_nil_r. }
    split; [reflexivity|].
    unfold totalLength, markupLength. cbn [map m_text list_sum fold_right]. lia.
  - intros (Hn & Ha). cbn [tokensOf].
    rewrite (proj1 (emptyTag_tagRegex name attrs Hn Ha)),
      (proj1 (emptyTag_openTagRegex name attrs Hn Ha)),
      (proj1 (emptyTag_anyTagRegex name attrs Hn Ha)).
    destruct (emptyTag_shape name attrs) as (a & extra & Na & Eo).
    rewrite Eo at 1 2.
    rewrite (proj1 (tag_speakOpenRegex name a extra Hn Na)),
      (proj1 (tag_speakCloseRegex name _ Hn)).
    split; [reflexivity|]. split; [reflexivity|]. split.
    { apply balanced_self; [now apply emptyTag_kind | constructor]. }
    cbn [flat_map]. rewrite app_nil_r, emptyTag_errors by auto.
    split; [reflexivity|]. split.
    { unfold tokenWarnings.
      change (group 1 (JSMatch i (emptyTag name attrs)
                         [(2, _buildAttributes attrs +++ "/"); (1, name)])) with name.
      cbn [elementWarnings]. now rewrite app_nil_r. }
    split; [reflexivity|].
    unfold totalLength, markupLength. cbn [map m_text list_sum fold_right]. lia.
Qed.

(** *** The tags of an element in the nesting heuristic *)
Lemma snoc_form (w : string) :
  w <> EmptyString -> exists w' c, w = w' +++ String c EmptyString.
Proof.
  induction w as [|a w IH]; intros N; [now elim N|].
  destruct w as [|b w].
  - now exists EmptyString, a.
  - destruct IH as (w' & c & E); [discriminate|]. exists (String a w'), c.
    cbn [String.append]. now rewrite <- E.
Qed.

Lemma endsWith_slash_gt (w : string) : endsWith (w +++ ">") "/>" = lastIs "/" w.
Proof.
  destruct w as [|a w]; [reflexivity|].
  destruct (snoc_form (String a w)) as (w' & c & ->); [discriminate|].
  rewrite lastIs_append by discriminate. cbn [lastIs].
  rewrite append_assoc. cbn [String.append]. unfold endsWith.
  rewrite length_append. cbn [String.length].
  replace (String.length w' + 2 - 2) with (String.length w') by lia.
  rewrite substring_append_skip.
  replace (2 <=? String.length w' + 2) with true by (symmetry; apply Nat.leb_le; lia).
  cbn [andb String.substring String.eqb]. now destruct (Ascii.eqb c "/").
Qed.

Lemma openTag_nestingKind (name : string) (attrs : list (string * string)) :
  safeName name -> Forall safeAttr attrs -> nestingKind (openTag name attrs) = Opening.
Proof.
  intros Hn Ha. unfold nestingKind.
  rewrite <- (append_nil_r (openTag name attrs)), openTag_written.
  rewrite tag_not_closing by exact Hn. rewrite <- append_assoc.
  change (String "<" ((name +++ _buildAttributes attrs) +++ ">"))
    with (String "<" (name +++ _buildAttributes attrs) +++ ">").
  rewrite endsWith_slash_gt, lastIs_tag; auto. discriminate.
Qed.

Lemma emptyTag_nestingKind (name : string) (attrs : list (string * string)) :
  nestingKind (emptyTag name attrs) = SelfClosing.
Proof.
  unfold nestingKind, emptyTag.
  replace ("<" +++ name +++ _buildAttributes attrs +++ "/>")
    with (("<" +++ name +++ _buildAttributes attrs) +++ "/>")
    by (now rewrite !append_assoc).
  now rewrite endsWith_append.
Qed.

Lemma closeTag_nestingKind (name : string) :
  safeName name -> nestingKind (closeTag name) = Closing.
Proof.
  intros (N & Hn & _). unfold nestingKind.
  rewrite <- (append_nil_r (closeTag name)), closeTag_written.
  change (String "<" (String "/" (name +++ ">")))
    with (String "<" (String "/" name) +++ ">").
  rewrite endsWith_slash_gt.
  change (String "<" (String "/" name)) with ("</" +++ name).
  rewrite lastIs_append by exact N.
  now rewrite (lastIs_every isNameChar "/" name eq_refl Hn).
Qed.

(** The depth goes up and down by one around the content of an element
    and stays where it is on an empty element. *)
Lemma element_deltas (el : element) (i : nat) :
  safeElement el ->
  map (fun mt => delta (nestingKind (m_text mt))) (tokensOf tagRegex i (partsOfElement el))
  = match el with
    | Plain _ => []
    | Element _ _ _ => [1; -1]
    | EmptyElement _ _ => [0]
    end%Z.
Proof.
  destruct el as [e|name attrs content|name attrs]; cbn [safeElement partsOfElement].
  - reflexivity.
  - intros (Hn & Ha & Hc). cbn [tokensOf].
    rewrite (proj1 (openTag_tagRegex name attrs Hn Ha)), (proj1 (closeTag_tagRegex name Hn)).
    cbn [map m_text]. now rewrite openTag_nestingKind, closeTag_nestingKind.
  - intros (Hn & Ha). cbn [tokensOf].
    rewrite (proj1 (emptyTag_tagRegex name attrs Hn Ha)).
    cbn [map m_text]. now rewrite emptyTag_nestingKind.
Qed.

Lemma element_closed (r : regex) (el : element) :
  In r tagPatterns -> safeElement el -> Forall (closedFor r) (partsOfElement el).
Proof.
  intros Hr. destruct el as [e|name attrs content|name attrs];
    cbn [safeElement partsOfElement].
  - intros _. repeat constructor.
  - intros (Hn & Ha & Hc).
    assert (O : closedTag r (openTag name attrs)).
    { repeat (destruct Hr as [<-|Hr]); try contradiction.
      + destruct (openTag_shape name attrs) as (a & extra & Na & ->).
        now apply tag_speakOpenRegex.
      + destruct (openTag_shape name attrs) as (a & extra & Na & ->).
        now apply tag_speakCloseRegex.
      + now apply openTag_tagRegex.
      + now apply openTag_openTagRegex.
      + now apply openTag_anyTagRegex. }
    assert (C : closedTag r (closeTag name)).
    { repeat (destruct Hr as [<-|Hr]); try contradiction.
      + apply closeTag_speakOpenRegex.
      + now apply closeTag_speakCloseRegex.
      + now apply closeTag_tagRegex.
      + apply closeTag_openTagRegex.
      + now apply closeTag_anyTagRegex. }
    repeat constructor; assumption.
  - intros (Hn & Ha).
    assert (O : closedTag r (emptyTag name attrs)).
    { repeat (destruct Hr as [<-|Hr]); try contradiction.
      + destruct (emptyTag_shape name attrs) as (a & extra & Na & ->).
        now apply tag_speakOpenRegex.
      + destruct (emptyTag_shape name attrs) as (a & extra & Na & ->).
        now apply tag_speakCloseRegex.
      + now apply emptyTag_tagRegex.
      + now apply emptyTag_openTagRegex.
      + now apply emptyTag_anyTagRegex. }
    repeat constructor; assumption.
Qed.

Lemma element_wellFormed (el : element) :
  safeElement el -> Forall wellFormedPart (partsOfElement el).
Proof.
  destruct el as [e|name attrs content|name attrs]; cbn [safeElement partsOfElement].
  - intros H. repeat constructor. exact H.
  - intros (Hn & Ha & Hc). repeat constructor;
      [now apply openTag_wellFormed | exact Hc | now apply closeTag_wellFormed].
  - intros (Hn & Ha). repeat constructor. now apply emptyTag_wellFormed.
Qed.

Lemma render_element (el : element) : render (partsOfElement el) = renderElement el.
Proof.
  destruct el; cbn [partsOfElement render render1 renderElement];
    now rewrite ?append_nil_r.
Qed.

End ElementFacts.

(** ** Documents that the builder builds *)
Module ProgramFacts.
Import JSString Regex Validator Spec Conformance Measures Builder Parts Elements Programs.
Import StringFacts RegexFacts ScanFacts ValidatorFacts ConformanceFacts MeasureFacts.
Import EscapeFacts PartFacts ElementFacts.

Lemma concat_empty_cons (x : string) (l : list string) :
  String.concat EmptyString (x :: l) = x +++ String.concat EmptyString l.
Proof. destruct l; cbn [String.concat]; [now rewrite append_nil_r | reflexivity]. Qed.

Lemma concat_empty_app (l1 l2 : list string) :
  String.concat EmptyString (l1 ++ l2)
  = String.concat EmptyString l1 +++ String.concat EmptyString l2.
Proof.
  induction l1 as [|x l1 IH]; [reflexivity|].
  cbn [app]. now rewrite !concat_empty_cons, IH, append_assoc.
Qed.

Lemma render_app (p q : list part) : render (p ++ q) = render p +++ render q.
Proof.
  induction p as [|x p IH]; [reflexivity|]. cbn [app render]. now rewrite IH, append_assoc.
Qed.

Lemma tokensOf_app (r : regex) (p q : list part) :
  forall i, tokensOf r i (p ++ q)
            = tokensOf r i p ++ tokensOf r (i + String.length (render p)) q.
Proof.
  induction p as [|x p IH]; intros i.
  - cbn [app tokensOf render String.length]. now rewrite Nat.add_0_r.
  - cbn [app render]. rewrite length_append, Nat.add_assoc.
    destruct x as [tag|e]; cbn [tokensOf render1].
    + destruct (capsOf r tag); cbn [app]; now rewrite IH.
    + apply IH.
Qed.

(** The element of a call is what the call pushes. *)
Lemma applyCall_element (b : SSMLBuilder) (c : call) :
  applyCall b c = push (renderElement (elementOfCall c)) b.
Proof.
  destruct c as [t|t|t|t|t level|time|duration|t options|t name|t ph alphabet|t alias
                |src fallbackText|t options|t interpretAs];
    cbn [applyCall elementOfCall];
    unfold text, sentence, paragraph, whisper, emphasis, pause, breath, prosody, voice,
      phoneme, substitute, audio, autoBreaths, sayAs;
    try (destruct (existsb (String.eqb time) strengths));
    try (destruct fallbackText as [|c0 fallbackText]);
    f_equal; unfold renderElement, openTag, closeTag, emptyTag;
    try (unfold _buildAttributes, join; cbn [map String.concat fst snd]);
    unfold quoted; repeat (progress (rewrite ?append_assoc; cbn [String.append]));
    reflexivity.
Qed.

Lemma applyCall_render (b : SSMLBuilder) (c : call) :
  applyCall b c = mkBuilder (elements b ++ [render (partsOfCall c)]) (isInSpeak b).
Proof. unfold partsOfCall. now rewrite render_element, applyCall_element. Qed.

Lemma applyCalls_render (calls : list call) :
  forall b,
    applyCalls calls b
    = mkBuilder (elements b ++ map (fun c => render (partsOfCall c)) calls) (isInSpeak b).
Proof.
  induction calls as [|c calls IH]; intros b; cbn [applyCalls fold_left map].
  - rewrite app_nil_r. now destruct b.
  - fold (applyCalls calls (applyCall b c)). rewrite IH, applyCall_render.
    cbn [elements isInSpeak]. now rewrite <- app_assoc.
Qed.

Lemma render_flat_map (calls : list call) :
  String.concat EmptyString (map (fun c => render (partsOfCall c)) calls)
  = render (flat_map partsOfCall calls).
Proof.
  induction calls as [|c calls IH]; [reflexivity|].
  cbn [map flat_map]. now rewrite concat_empty_cons, render_app, IH.
Qed.

Lemma build_program (calls : list call) :
  exists b0, speak [] newBuilder = Returns b0 /\
             build (applyCalls calls b0) = Returns (render (partsOfProgram calls)).
Proof.
  eexists; split; [reflexivity|].
  rewrite applyCalls_render. unfold build. cbn [isInSpeak elements negb _buildAttributes].
  f_equal. unfold join, partsOfProgram, newBuilder.
  cbn [elements app String.append render render1].
  rewrite concat_empty_cons, render_flat_map, render_app.
  cbn [render render1 String.append]. now rewrite ?append_assoc, ?append_nil_r.
Qed.

(** *** The tag patterns on the tags of the builder *)
Lemma tagPatterns_ok (r : regex) :
  In r tagPatterns -> bolFree r = true /\ opensWithBracket r.
Proof.
  intros H. repeat (destruct H as [<-|H]); try contradiction;
    (split; [reflexivity|]).
  - apply opensWithBracket_lit.
  - apply opensWithBracket_closeSpeak.
  - apply opensWithBracket_seq.
  - apply opensWithBracket_seq.
  - apply opensWithBracket_seq.
Qed.

Ltac call_cases c :=
  destruct c as [t|t|t|t|t level|time|duration|t options|t name|t ph alphabet|t alias
                |src fallbackText|t options|t interpretAs];
  cbn [elementOfCall];
  try (destruct (existsb (String.eqb time) strengths));
  try (destruct fallbackText as [|c0 fallbackText]).

Ltac safe_name := split; [discriminate | split; reflexivity].

(** The tags that the calls write have names of the schema, and the
    texts are escaped. *)
Lemma safe_call (c : call) : safeCall c -> safeElement (elementOfCall c).
Proof.
  unfold safeCall. call_cases c; cbn [attributesOfElement safeElement]; intros H;
    first [ apply escapeText_noBracket
          | split; [safe_name | split; [exact H | apply escapeText_noBracket]]
          | split; [safe_name | exact H] ].
Qed.

(** The calls write every attribute that their tags require, on tags
    that the validator supports. *)
Lemma call_errors (c : call) :
  elementErrors (elementOfCall c) = callErrors c /\ elementWarnings (elementOfCall c) = [].
Proof.
  unfold callErrors. call_cases c; split; reflexivity.
Qed.

Lemma closed_speak (r : regex) :
  In r tagPatterns -> closedTag r "<speak>" /\ closedTag r "</speak>".
Proof.
  intros Hr. repeat (destruct Hr as [<-|Hr]); try contradiction;
    split; intros s; vm_compute; reflexivity.
Qed.

Lemma balanced_app (a b : list jsmatch) : balanced a -> balanced b -> balanced (a ++ b).
Proof.
  induction 1 as [ | t l Ht _ IH | o inner c l Ho Hc Hn Hi _ _ IH ]; intros Hb.
  - exact Hb.
  - cbn [app]. apply balanced_self; auto.
  - cbn [app]. rewrite <- app_assoc. cbn [app]. apply balanced_pair; auto.
Qed.

Lemma markupCount_app (p q : list part) : markupCount (p ++ q) = markupCount p + markupCount q.
Proof. unfold markupCount. now rewrite filter_app, length_app. Qed.

Lemma list_sum_app_nat (l1 l2 : list nat) : list_sum (l1 ++ l2) = list_sum l1 + list_sum l2.
Proof. induction l1 as [|x l1 IH]; simpl; [reflexivity | rewrite IH; lia]. Qed.

Lemma markupLength_app (p q : list part) :
  markupLength (p ++ q) = markupLength p + markupLength q.
Proof. unfold markupLength. now rewrite map_app, list_sum_app_nat. Qed.

Lemma wordsLength_app (p q : list part) :
  wordsLength (p ++ q) = wordsLength p + wordsLength q.
Proof. unfold wordsLength. now rewrite map_app, list_sum_app_nat. Qed.

Lemma totalLength_app (a b : list jsmatch) :
  totalLength (a ++ b) = totalLength a + totalLength b.
Proof. unfold totalLength. now rewrite map_app, list_sum_app_nat. Qed.

Lemma render_length (parts : list part) :
  String.length (render parts) = markupLength parts + wordsLength parts.
Proof.
  induction parts as [|p parts IH]; [reflexivity|].
  cbn [render]. rewrite length_append, IH.
  change (p :: parts) with ([p] ++ parts). rewrite markupLength_app, wordsLength_app.
  destruct p; unfold markupLength, wordsLength; simpl; lia.
Qed.

(** What the patterns find in the elements of a chain of calls. *)
Lemma calls_tokens (calls : list call) :
  Forall safeCall calls ->
  forall i,
    tokensOf speakOpenRegex i (flat_map partsOfCall calls) = [] /\
    tokensOf speakCloseRegex i (flat_map partsOfCall calls) = [] /\
    balanced (tokensOf tagRegex i (flat_map partsOfCall calls)) /\
    flat_map tokenErrors (tokensOf openTagRegex i (flat_map partsOfCall calls))
    = flat_map callErrors calls /\
    flat_map tokenWarnings (tokensOf openTagRegex i (flat_map partsOfCall calls)) = [] /\
    List.length (tokensOf anyTagRegex i (flat_map partsOfCall calls))
    = markupCount (flat_map partsOfCall calls) /\
    totalLength (tokensOf anyTagRegex i (flat_map partsOfCall calls))
    = markupLength (flat_map partsOfCall calls).
Proof.
  induction 1 as [|c calls Hc _ IH]; intros i.
  - cbn [flat_map tokensOf]. repeat split. constructor.
  - cbn [flat_map]. rewrite !tokensOf_app.
    destruct (element_tokens (elementOfCall c) i (safe_call c Hc))
      as (A1 & A2 & A3 & A4 & A5 & A6 & A7).
    destruct (call_errors c) as (E1 & E2). rewrite E1 in A4. rewrite E2 in A5.
    fold (partsOfCall c) in A1, A2, A3, A4, A5, A6, A7.
    destruct (IH (i + String.length (render (partsOfCall c))))
      as (B1 & B2 & B3 & B4 & B5 & B6 & B7).
    rewrite A1, A2, B1, B2, !flat_map_app, A4, A5, B4, B5.
    rewrite length_app, totalLength_app, markupCount_app, markupLength_app, A6, A7, B6, B7.
    repeat split. now apply balanced_app.
Qed.

(** *** The built document as a whole *)
Lemma trimEnd_app (x y : string) :
  trimEnd y = y -> y <> EmptyString -> trimEnd (x +++ y) = x +++ y.
Proof.
  intros Hy Ny. induction x as [|a x IH]; [exact Hy|].
  cbn [String.append trimEnd]. rewrite IH.
  destruct (x +++ y) as [|b z] eqn:E; [|reflexivity].
  destruct x; [now elim Ny | discriminate E].
Qed.

Lemma program_render (calls : list call) :
  render (partsOfProgram calls)
  = "<speak>" +++ render (flat_map partsOfCall calls) +++ "</speak>".
Proof.
  unfold partsOfProgram. cbn [render render1]. rewrite render_app.
  cbn [render render1]. now rewrite append_nil_r.
Qed.

Lemma Forall_flat_map_parts (P : part -> Prop) (calls : list call) :
  Forall (fun c => Forall P (partsOfCall c)) calls ->
  Forall P (flat_map partsOfCall calls).
Proof.
  induction 1 as [|c calls Hc _ IH]; cbn [flat_map]; [constructor|].
  apply Forall_app; auto.
Qed.

Lemma program_closed (r : regex) (calls : list call) :
  In r tagPatterns -> Forall safeCall calls ->
  Forall (closedFor r) (partsOfProgram calls).
Proof.
  intros Hr Hc. destruct (closed_speak r Hr) as (C1 & C2).
  unfold partsOfProgram. constructor; [exact C1|].
  apply Forall_app; split; [|constructor; [exact C2 | constructor]].
  apply Forall_flat_map_parts. eapply Forall_impl; [|exact Hc].
  intros c H. apply element_closed; [exact Hr | now apply safe_call].
Qed.

Lemma program_wellFormed (calls : list call) :
  Forall safeCall calls -> Forall wellFormedPart (partsOfProgram calls).
Proof.
  intros Hc. unfold partsOfProgram.
  constructor; [eexists; split; [reflexivity | vm_compute; reflexivity]|].
  apply Forall_app; split.
  - apply Forall_flat_map_parts. eapply Forall_impl; [|exact Hc].
    intros c H. now apply element_wellFormed, safe_call.
  - constructor; [eexists; split; [reflexivity | vm_compute; reflexivity] | constructor].
Qed.

Lemma program_matches (r : regex) (calls : list call) :
  In r tagPatterns -> Forall safeCall calls ->
  matchAll r (render (partsOfProgram calls)) = tokensOf r 0 (partsOfProgram calls).
Proof.
  intros Hr Hc. destruct (tagPatterns_ok r Hr) as (B & O).
  apply matchAll_parts; auto.
  - exact (program_closed r calls Hr Hc).
  - now apply program_wellFormed.
Qed.

Lemma program_tokens (r : regex) (calls : list call) :
  tokensOf r 0 (partsOfProgram calls)
  = tokensOf r 0 [Markup "<speak>"]
    ++ tokensOf r 7 (flat_map partsOfCall calls)
    ++ tokensOf r (7 + String.length (render (flat_map partsOfCall calls)))
         [Markup "</speak>"].
Proof.
  unfold partsOfProgram.
  change (Markup "<speak>" :: flat_map partsOfCall calls ++ [Markup "</speak>"])
    with ([Markup "<speak>"] ++ flat_map partsOfCall calls ++ [Markup "</speak>"]).
  now rewrite !tokensOf_app.
Qed.

Lemma program_report (calls : list call) :
  Forall safeCall calls ->
  exists b0 r,
    speak [] newBuilder = Returns b0 /\
    build (applyCalls calls b0) = Returns (render (partsOfProgram calls)) /\
    validate (render (partsOfProgram calls)) = Some r /\
    errors r = flat_map callErrors calls /\
    (valid r = true <-> flat_map callErrors calls = []) /\
    warnings r = commonWarnings (render (partsOfProgram calls)) /\
    tagCount (info r) = 2 + markupCount (flat_map partsOfCall calls) /\
    characterCount (info r) = wordsLength (flat_map partsOfCall calls).
Proof.
  intros Hc. destruct (build_program calls) as (b0 & Hs & Hb).
  exists b0. eexists. split; [exact Hs|]. split; [exact Hb|].
  split; [apply validate_messages|].
  set (doc := render (partsOfProgram calls)).
  set (body := flat_map partsOfCall calls).
  destruct (calls_tokens calls Hc 7) as (T1 & T2 & T3 & T4 & T5 & T6 & T7).
  fold body in T1, T2, T3, T4, T5, T6, T7.
  assert (M1 : matchAll speakOpenRegex doc = tokensOf speakOpenRegex 0 (partsOfProgram calls))
    by (apply program_matches; simpl; auto).
  assert (M2 : matchAll speakCloseRegex doc = tokensOf speakCloseRegex 0 (partsOfProgram calls))
    by (apply program_matches; simpl; auto).
  assert (M3 : matchAll tagRegex doc = tokensOf tagRegex 0 (partsOfProgram calls))
    by (apply program_matches; simpl; auto).
  assert (M4 : matchAll openTagRegex doc = tokensOf openTagRegex 0 (partsOfProgram calls))
    by (apply program_matches; simpl; auto).
  assert (M5 : matchAll anyTagRegex doc = tokensOf anyTagRegex 0 (partsOfProgram calls))
    by (apply program_matches; simpl; auto 10).
  rewrite program_tokens in M1, M2, M3, M4, M5. fold body in M1, M2, M3, M4, M5.
  rewrite T1 in M1. rewrite T2 in M2.
  assert (D : doc = "<speak>" +++ render body +++ "</speak>") by apply program_render.
  assert (R : basicErrors doc = []).
  { apply basicErrors_nil. unfold rootOk. rewrite M1, M2.
    assert (Tr : trim doc = doc).
    { unfold trim. rewrite D. cbn [String.append trimStart].
      change (isWhiteSpace "<") with false. cbv iota.
      change (String "<" (String "s" (String "p" (String "e" (String "a" (String "k"
                (String ">" (render body +++ "</speak>"))))))))
        with (("<speak>" +++ render body) +++ "</speak>").
      apply trimEnd_app; [reflexivity | discriminate]. }
    rewrite Tr. split; [rewrite D; reflexivity|].
    split; [rewrite D, <- append_assoc; apply endsWith_append|].
    split; [reflexivity | vm_compute; lia]. }
  assert (S' : stackErrors (matchAll tagRegex doc) [] = []).
  { apply stackErrors_nil_iff. rewrite M3.
    change (tokensOf tagRegex 0 [Markup "<speak>"])
      with [JSMatch 0 "<speak>" [(1, "speak")]].
    change (tokensOf tagRegex (7 + String.length (render body)) [Markup "</speak>"])
      with [JSMatch (7 + String.length (render body)) "</speak>" [(1, "speak")]].
    cbn [app]. apply balanced_pair; try reflexivity; [exact T3 | constructor]. }
  assert (E : flat_map tokenErrors (matchAll openTagRegex doc) = flat_map callErrors calls
              /\ flat_map tokenWarnings (matchAll openTagRegex doc) = []).
  { rewrite M4, !flat_map_app, T4, T5.
    change (flat_map tokenErrors (tokensOf openTagRegex 0 [Markup "<speak>"])) with (@nil string).
    change (flat_map tokenWarnings (tokensOf openTagRegex 0 [Markup "<speak>"]))
      with (@nil string).
    change (tokensOf openTagRegex (7 + String.length (render body)) [Markup "</speak>"])
      with (@nil jsmatch).
    cbn [flat_map app]. now rewrite app_nil_r. }
  destruct E as (E1 & E2).
  rewrite R, S', E1, E2. cbn [app valid errors warnings].
  split; [reflexivity|]. split.
  { rewrite Nat.eqb_eq. apply length_zero_iff_nil. }
  split; [reflexivity|].
  pose proof (removed_tags_length doc) as A.
  unfold _calculateMetrics. cbn [info characterCount tagCount].
  rewrite M5 in *. rewrite !length_app, !totalLength_app, T6, T7 in *.
  change (List.length (tokensOf anyTagRegex 0 [Markup "<speak>"])) with 1.
  change (List.length (tokensOf anyTagRegex (7 + String.length (render body))
                         [Markup "</speak>"])) with 1.
  change (totalLength (tokensOf anyTagRegex 0 [Markup "<speak>"])) with 7 in A.
  change (totalLength (tokensOf anyTagRegex (7 + String.length (render body))
                         [Markup "</speak>"])) with 8 in A.
  split; [lia|].
  assert (L : String.length doc = 7 + String.length (render body) + 8).
  { rewrite D, !length_append. simpl. lia. }
  rewrite render_length in L. lia.
Qed.

(** X8. The builder escapes the texts but writes attribute values as
    they are, and checks none of them.  For a document built by
    [speak()], a chain of calls of the element methods and [build()],
    where the attribute values hold no bracket and no double quote, the
    validator reports exactly the invalid-value errors of the values
    passed to the calls, in the order of the calls: no error of the root,
    of the nesting or of a missing attribute, and no unsupported tag.  So
    the document is valid exactly when the tables of the validator accept
    every value; the tag count is two more than the tags pushed, the
    character count is the length of the escaped texts. *)
Theorem built_document_report (calls : list call) :
  Forall safeCall calls ->
  exists b0 r,
    speak [] newBuilder = Returns b0 /\
    build (applyCalls calls b0) = Returns (render (partsOfProgram calls)) /\
    validate (render (partsOfProgram calls)) = Some r /\
    errors r = flat_map callErrors calls /\
    (valid r = true <-> flat_map callErrors calls = []) /\
    warnings r = commonWarnings (render (partsOfProgram calls)) /\
    tagCount (info r) = 2 + markupCount (flat_map partsOfCall calls) /\
    characterCount (info r) = wordsLength (flat_map partsOfCall calls).
Proof. exact (program_report calls). Qed.

Lemma built_document_report_witness :
  Forall safeCall
    [CallText "Hi & bye"; CallPause "500ms"; CallEmphasis "now" "loud"; CallVoice "x" "Joanna"] /\
  exists b0 r,
    speak [] newBuilder = Returns b0 /\
    build (applyCalls
             [CallText "Hi & bye"; CallPause "500ms"; CallEmphasis "now" "loud";
              CallVoice "x" "Joanna"] b0)
    = Returns ("<speak>Hi &amp; bye<break time=" +++ quoted "500ms" +++ "/><emphasis level="
               +++ quoted "loud" +++ ">now</emphasis><voice name=" +++ quoted "Joanna"
               +++ ">x</voice></speak>") /\
    validate ("<speak>Hi &amp; bye<break time=" +++ quoted "500ms" +++ "/><emphasis level="
              +++ quoted "loud" +++ ">now</emphasis><voice name=" +++ quoted "Joanna"
              +++ ">x</voice></speak>") = Some r /\
    errors r = ["Invalid value 'loud' for attribute 'level' in tag <emphasis>"] /\
    valid r = false.
Proof.
  assert (H : Forall safeCall
                [CallText "Hi & bye"; CallPause "500ms"; CallEmphasis "now" "loud";
                 CallVoice "x" "Joanna"]).
  { repeat constructor; cbn; try discriminate. }
  split; [exact H|].
  destruct (built_document_report _ H) as (b0 & r & H1 & H2 & H3 & H4 & H5 & _).
  exists b0, r. split; [exact H1|]. split; [exact H2|]. split; [exact H3|].
  split; [exact H4|].
  destruct (valid r); [|reflexivity]. destruct H5 as (H5 & _).
  specialize (H5 eq_refl). discriminate H5.
Defined.

(** The errors of the calls, call by call. *)
Example call_errors_samples :
  callErrors (CallPause "medium") = [] /\
  callErrors (CallPause "500ms") = [] /\
  callErrors (CallPause "soon")
  = ["Invalid value 'soon' for attribute 'time' in tag <break>"] /\
  callErrors (CallEmphasis "x" "strong") = [] /\
  callErrors (CallBreath "deep")
  = ["Invalid value 'deep' for attribute 'duration' in tag <amazon:breath>"] /\
  callErrors (CallPhoneme "tomato" "t@meItoU" "x-sampa") = [] /\
  callErrors (CallSayAs "12" "cardinal") = [] /\
  callErrors (CallProsody "x" [("rate", "150%"); ("pitch", "+2st")])
  = ["Invalid value '+2st' for attribute 'pitch' in tag <prosody>"] /\
  callErrors (CallAutoBreaths "x" [("volume", "loud")]) = [] /\
  callErrors (CallVoice "x" "Joanna") = [] /\
  callErrors (CallSubstitute "W3C" "World Wide Web Consortium") = [] /\
  callErrors (CallAudio "a.mp3" "sound") = [].
Proof. vm_compute. repeat split; reflexivity. Qed.



(** X14. The attributes that the builder writes are read back by the
    attribute pattern of the validator as they were given, names and
    values in order, when the names are made of word characters and
    hyphens and the values hold no bracket and no double quote. *)
Theorem written_attributes_are_read_back (attrs : list (string * string)) :
  Forall safeAttr attrs ->
  map groups (matchAll attrRegex (_buildAttributes attrs)) = attrs.
Proof.
  intros H. unfold matchAll. rewrite <- (append_nil_r (_buildAttributes attrs)).
  exact (attributes_parsed EmptyString attrs noAttribute_nil H 0).
Qed.

Lemma written_attributes_are_read_back_witness :
  Forall safeAttr [("alphabet", "ipa"); ("ph", "t@meItoU")] /\
  map groups (matchAll attrRegex (_buildAttributes [("alphabet", "ipa"); ("ph", "t@meItoU")]))
  = [("alphabet", "ipa"); ("ph", "t@meItoU")].
Proof.
  assert (H : Forall safeAttr [("alphabet", "ipa"); ("ph", "t@meItoU")]).
  { repeat constructor; cbn; discriminate. }
  split; [exact H|]. exact (written_attributes_are_read_back _ H).
Defined.

(** A double quote in a value is written as it is, and cuts the value
    that is read back. *)
Example quote_cuts_value :
  map groups (matchAll attrRegex
                (_buildAttributes [("alias", "six" +++ String dquote " tall")]))
  = [("alias", "six")].
Proof. vm_compute. reflexivity. Qed.

(** *** The warning for empty tags *)
Lemma pushed_tag_starts (c : call) :
  pushesTag c -> exists x, render (partsOfCall c) = String "<" x.
Proof.
  unfold partsOfCall. rewrite render_element.
  call_cases c; cbn [pushesTag]; intros H; try contradiction;
    eexists; reflexivity.
Qed.

(** X15. The warning for empty tags is given for a closing bracket next
    to an opening bracket, so a document of the builder whose first call
    pushes an element, right after the speak tag, always carries it,
    whatever the element holds and whatever follows. *)
Theorem element_after_speak_is_warned (c : call) (calls : list call) :
  pushesTag c ->
  exists b0 doc r,
    speak [] newBuilder = Returns b0 /\
    build (applyCalls (c :: calls) b0) = Returns doc /\
    validate doc = Some r /\
    In emptyTagsWarning (warnings r).
Proof.
  intros H. destruct (build_program (c :: calls)) as (b0 & Hs & Hb).
  exists b0. eexists. eexists. split; [exact Hs|]. split; [exact Hb|].
  split; [apply validate_messages|]. cbn [warnings].
  apply in_or_app. right. unfold commonWarnings.
  apply in_or_app. right. apply in_or_app. right.
  rewrite program_render. cbn [flat_map]. rewrite render_app.
  destruct (pushed_tag_starts c H) as (x & ->).
  replace (includes ("<speak>" +++ (String "<" x +++ render (flat_map partsOfCall calls))
                     +++ "</speak>") "><") with true by reflexivity.
  left. reflexivity.
Qed.

Lemma element_after_speak_is_warned_witness :
  pushesTag (CallSentence "Hi") /\
  exists b0 doc r,
    speak [] newBuilder = Returns b0 /\
    build (applyCalls [CallSentence "Hi"] b0) = Returns doc /\
    validate doc = Some r /\
    In emptyTagsWarning (warnings r).
Proof.
  split; [exact I|]. exact (element_after_speak_is_warned (CallSentence "Hi") [] I).
Defined.

(** *** The nesting of a built document *)
Lemma calls_deltas (calls : list call) :
  Forall safeCall calls ->
  forall i rest,
    (peak (map (fun mt => delta (nestingKind (m_text mt)))
             (tokensOf tagRegex i (flat_map partsOfCall calls)) ++ rest)
     <= Z.max 1 (peak rest))%Z.
Proof.
  induction 1 as [|c calls Hc _ IH]; intros i rest.
  - cbn [flat_map tokensOf map app]. lia.
  - cbn [flat_map]. rewrite tokensOf_app, map_app, <- app_assoc.
    unfold partsOfCall at 1. rewrite (element_deltas _ i (safe_call c Hc)).
    specialize (IH (i + String.length (render (partsOfCall c))) rest).
    set (X := peak (_ ++ rest)) in *.
    assert (0 <= X)%Z by apply peak_nonneg.
    destruct (elementOfCall c); cbn [app peak]; fold X; lia.
Qed.

(** X16. A document of the builder is never too deep for the validator,
    and holds no tag that the validator does not support: when the
    attribute values hold no bracket and no double quote, the depth that
    [_getMaxNesting] returns for it is at most 2, and the only warnings
    it can get are the one for a long text segment and the one for empty
    tags. *)
Theorem built_document_warnings (calls : list call) :
  Forall safeCall calls ->
  exists r depth,
    validate (render (partsOfProgram calls)) = Some r /\
    _getMaxNesting (render (partsOfProgram calls)) = Some depth /\
    (depth <= 2)%Z /\
    forall w, In w (warnings r) -> w = longSegmentWarning \/ w = emptyTagsWarning.
Proof.
  intros Hc. destruct (program_report calls Hc) as (b0 & r & _ & _ & V & _ & _ & W & _).
  exists r, (maxNesting (render (partsOfProgram calls))).
  split; [exact V|]. split; [apply getMaxNesting_peak|].
  assert (N : (maxNesting (render (partsOfProgram calls)) <= 2)%Z).
  { unfold maxNesting.
    rewrite (program_matches tagRegex calls) by (simpl; auto).
    rewrite program_tokens, !map_app.
    change (map (fun mt => delta (nestingKind (m_text mt)))
              (tokensOf tagRegex 0 [Markup "<speak>"])) with [1%Z].
    change (map (fun mt => delta (nestingKind (m_text mt)))
              (tokensOf tagRegex (7 + String.length (render (flat_map partsOfCall calls)))
                 [Markup "</speak>"])) with [(-1)%Z].
    cbn [app peak].
    pose proof (calls_deltas calls Hc 7 [(-1)%Z]) as P.
    change (peak [(-1)%Z]) with 0%Z in P. lia. }
  split; [exact N|]. intros w Hw. rewrite W in Hw. unfold commonWarnings in Hw.
  replace (5 <? maxNesting (render (partsOfProgram calls)))%Z with false in Hw
    by (symmetry; apply Z.ltb_ge; lia).
  destruct (longSegment _), (includes _ "><"); cbn [app] in Hw;
    repeat (destruct Hw as [<-|Hw]); try contradiction; auto.
Qed.

Lemma built_document_warnings_witness :
  Forall safeCall [CallSentence "Hi"; CallPause "500ms"] /\
  exists r depth,
    validate (render (partsOfProgram [CallSentence "Hi"; CallPause "500ms"])) = Some r /\
    _getMaxNesting (render (partsOfProgram [CallSentence "Hi"; CallPause "500ms"]))
    = Some depth /\
    (depth <= 2)%Z /\
    forall w, In w (warnings r) -> w = longSegmentWarning \/ w = emptyTagsWarning.
Proof.
  assert (H : Forall safeCall [CallSentence "Hi"; CallPause "500ms"]).
  { repeat constructor; cbn; try discriminate. }
  split; [exact H|]. exact (built_document_warnings _ H).
Defined.

(** *** The protocol of the builder *)
Lemma applyCalls_isInSpeak (calls : list call) (b : SSMLBuilder) :
  isInSpeak (applyCalls calls b) = isInSpeak b.
Proof. now rewrite applyCalls_render. Qed.

(** X10. The element methods leave the speak flag alone: whatever is
    called in between, [build()] throws as long as [speak()] was not
    called, a second [speak()] throws, and after [reset()] the builder is
    as new. *)
Theorem builder_protocol (calls : list call) (attributes : list (string * string))
  (b : SSMLBuilder) :
  build (applyCalls calls newBuilder) = Throws "SSML document must start with speak()" /\
  (isInSpeak b = true ->
   speak attributes (applyCalls calls b) = Throws "Already inside a <speak> tag") /\
  reset (applyCalls calls b) = newBuilder /\
  build (reset b) = Throws "SSML document must start with speak()".
Proof.
  split; [|split; [|split]].
  - unfold build. now rewrite applyCalls_isInSpeak.
  - intros H. unfold speak. now rewrite applyCalls_isInSpeak, H.
  - reflexivity.
  - reflexivity.
Qed.

Lemma builder_protocol_witness :
  isInSpeak (mkBuilder ["<speak>"] true) = true /\
  speak [] (applyCalls [CallText "a"] (mkBuilder ["<speak>"] true))
  = Throws "Already inside a <speak> tag".
Proof.
  split; [reflexivity|].
  exact (proj1 (proj2 (builder_protocol [CallText "a"] [] (mkBuilder ["<speak>"] true)))
           eq_refl).
Defined.

(** *** Text before the speak tag *)
Lemma trimStart_escapeChars (t : string) :
  trimStart (escapeChars t) = escapeChars (trimStart t).
Proof.
  induction t as [|a t IH]; [reflexivity|]. cbn [escapeChars trimStart].
  destruct (isWhiteSpace a) eqn:W.
  - replace (escapeChar a) with (String a EmptyString).
    + cbn [String.append trimStart]. now rewrite W.
    + unfold escapeChar.
      destruct (Ascii.eqb_spec a "&") as [->|]; [discriminate W|].
      destruct (Ascii.eqb_spec a "<") as [->|]; [discriminate W|].
      destruct (Ascii.eqb_spec a ">") as [->|]; [discriminate W|].
      destruct (Ascii.eqb_spec a dquote) as [->|]; [discriminate W|].
      destruct (Ascii.eqb_spec a "'") as [->|]; [discriminate W|].
      reflexivity.
  - cbn [escapeChars].
    destruct (escapeChar_cases a)
      as [(_ & E)|[(_ & E)|[(_ & E)|[(_ & E)|[(_ & E)|(_ & _ & E)]]]]];
      rewrite E; cbn [String.append trimStart]; try reflexivity.
    now rewrite W.
Qed.

Lemma trimStart_append_head (x y : string) (a : ascii) (x' : string) :
  trimStart x = String a x' -> trimStart (x +++ y) = String a x' +++ y.
Proof.
  induction x as [|c x IH]; cbn [trimStart String.append]; [discriminate|].
  destruct (isWhiteSpace c); [exact IH|]. intros H. injection H as -> ->. reflexivity.
Qed.

(** X11. [build()] asks only that [speak()] was called, not that it was
    called first: a text that is not blank, added before [speak()], comes
    before the speak tag in the built document, and the validator reports
    that the document does not start with the speak tag. *)
Theorem text_before_speak_is_invalid (t : string) (calls : list call) :
  trim t <> EmptyString ->
  exists b0 doc r,
    speak [] (text t newBuilder) = Returns b0 /\
    build (applyCalls calls b0) = Returns doc /\
    validate doc = Some r /\ valid r = false /\
    In "SSML must start with <speak> tag" (errors r).
Proof.
  intros Ht.
  eexists; eexists; eexists. split; [reflexivity|].
  split.
  { unfold build. rewrite applyCalls_isInSpeak. reflexivity. }
  split; [apply validate_messages|].
  match goal with |- valid ?r = false /\ In ?m (errors ?r) =>
    assert (G : In m (errors r)) end.
  { cbn [errors]. apply in_or_app. left.
    apply RootStructure.basicErrors_opening.
    rewrite applyCalls_render. unfold text, push, newBuilder, _buildAttributes, join.
    cbn [elements app String.append].
    rewrite !concat_empty_cons. rewrite escapeText_chars.
    assert (S0 : trimStart t <> EmptyString).
    { intros E. apply Ht. unfold trim. now rewrite E. }
    destruct (trimStart t) as [|a t'] eqn:E; [now elim S0|].
    pose proof (trimStart_head _ _ _ E) as Wa.
    set (tail := "<speak>" +++
                 String.concat EmptyString (map (fun c => render (partsOfCall c)) calls)).
    assert (Hd : exists c0 z, c0 <> "<"%char /\ isWhiteSpace c0 = false /\
                   trimStart ((escapeChars t +++ tail) +++ "</speak>") = String c0 z).
    { assert (E2 : trimStart (escapeChars t) = escapeChars (String a t'))
        by (now rewrite trimStart_escapeChars, E).
      cbn [escapeChars] in E2.
      destruct (escapeChar_cases a)
        as [(_ & F)|[(_ & F)|[(_ & F)|[(_ & F)|[(_ & F)|(_ & P & F)]]]]];
        rewrite F in E2; cbn [String.append] in E2;
        rewrite append_assoc, (trimStart_append_head _ _ _ _ E2);
        cbn [String.append]; eexists; eexists; (split; [|split; [|reflexivity]]);
        try discriminate; try reflexivity; auto.
      unfold isPlain in P. intros ->. discriminate P. }
    destruct Hd as (c0 & z & N0 & W0 & Hd).
    unfold trim. rewrite Hd, (trimEnd_keep c0 z W0). cbn [startsWith].
    destruct (Ascii.eqb_spec c0 "<"); [contradiction | reflexivity]. }
  split; [|exact G]. cbn [valid errors] in *.
  match goal with |- (List.length ?l =? 0) = false =>
    destruct l; [contradiction | reflexivity] end.
Qed.

Lemma text_before_speak_is_invalid_witness :
  trim "Hello" <> EmptyString /\
  exists b0 doc r,
    speak [] (text "Hello" newBuilder) = Returns b0 /\
    build (applyCalls [] b0) = Returns doc /\
    validate doc = Some r /\ valid r = false /\
    In "SSML must start with <speak> tag" (errors r).
Proof.
  assert (H : trim "Hello" <> EmptyString) by (vm_compute; discriminate).
  split; [exact H|]. exact (text_before_speak_is_invalid "Hello" [] H).
Defined.

End ProgramFacts.



(** ** The templates *)
Module TemplateFacts.
Import JSString Regex Validator Spec Conformance Measures Builder Parts Elements Programs.
Import Templates.
Import StringFacts RegexFacts ScanFacts ValidatorFacts ConformanceFacts MeasureFacts.
Import EscapeFacts PartFacts ElementFacts ProgramFacts.

(** A call is fine when what it writes can be read back and the tables
    of the validator accept it. *)
Lemma chain_accepted (calls : list call) :
  Forall (fun c => safeCall c /\ callErrors c = []) calls ->
  accepted (chain (applyCalls calls)).
Proof.
  intros H.
  assert (Hs : Forall safeCall calls) by (eapply Forall_impl; [|exact H]; now intros c (S & _)).
  assert (He : flat_map callErrors calls = []).
  { induction H as [|c calls (_ & E) _ IH]; [reflexivity|].
    cbn [flat_map]. rewrite E. apply IH. now inversion Hs. }
  destruct (program_report calls Hs) as (b0 & r & H1 & H2 & H3 & H4 & H5 & _).
  exists (render (partsOfProgram calls)), r. unfold chain. rewrite H1.
  split; [exact H2|]. split; [exact H3|]. split; [now apply H5 | now rewrite H4].
Qed.

Ltac fine_calls := repeat constructor; cbn; try discriminate; try reflexivity.

Lemma applyCalls_app (a b : list call) (s : SSMLBuilder) :
  applyCalls (a ++ b) s = applyCalls b (applyCalls a s).
Proof. apply fold_left_app. Qed.

Lemma forEachParagraph_calls (useWhisper addBreaths dramaticPauses : bool) (len : nat)
  (paragraphs : list string) :
  forall index b,
    forEachParagraph useWhisper addBreaths dramaticPauses len index paragraphs b
    = applyCalls (storyCalls useWhisper addBreaths dramaticPauses len index paragraphs) b.
Proof.
  induction paragraphs as [|p more IH]; intros index b; [reflexivity|].
  cbn [forEachParagraph storyCalls]. rewrite IH, !applyCalls_app. f_equal.
  destruct (addBreaths && (0 <? index)), useWhisper,
    (dramaticPauses && (Z.of_nat index <? Z.of_nat len - 1)%Z); reflexivity.
Qed.

Lemma storyCalls_fine (useWhisper addBreaths dramaticPauses : bool) (len : nat)
  (paragraphs : list string) :
  forall index,
    Forall (fun c => safeCall c /\ callErrors c = [])
      (storyCalls useWhisper addBreaths dramaticPauses len index paragraphs).
Proof.
  induction paragraphs as [|p more IH]; intros index; [constructor|].
  cbn [storyCalls]. repeat (apply Forall_app; split); [| | |apply IH].
  - destruct (addBreaths && (0 <? index)); fine_calls.
  - destruct useWhisper; fine_calls.
  - destruct (dramaticPauses && (Z.of_nat index <? Z.of_nat len - 1)%Z); fine_calls.
Qed.

(** X17. The templates greeting, newsAnnouncement, phoneNumber, spelling
    and storytelling return, for all their arguments, a document that the
    validator accepts without any error: the texts are escaped and the
    attribute values that the templates pass are values of the tables of
    the validator. *)
Theorem templates_are_accepted :
  (forall memberText name timeOfDay, accepted (greeting memberText name timeOfDay)) /\
  (forall headline content reporter, accepted (newsAnnouncement headline content reporter)) /\
  (forall number context, accepted (phoneNumber number context)) /\
  (forall word context, accepted (spelling word context)) /\
  (forall title paragraphs useWhisper addBreaths dramaticPauses,
      accepted (storytelling title paragraphs useWhisper addBreaths dramaticPauses)).
Proof.
  split; [|split; [|split; [|split]]].
  - intros memberText name timeOfDay.
    apply (chain_accepted
             [CallText (greetingText memberText timeOfDay +++ ", ");
              CallEmphasis name "moderate"; CallPause "300ms"; CallText "Welcome!"]).
    fine_calls.
  - intros headline content [[|c r]|].
    + apply (chain_accepted
               [CallEmphasis "Breaking News:" "strong"; CallPause "500ms";
                CallProsody headline [("rate", "medium"); ("pitch", "high")];
                CallPause "1s"; CallText content]).
      fine_calls.
    + apply (chain_accepted
               [CallEmphasis "Breaking News:" "strong"; CallPause "500ms";
                CallProsody headline [("rate", "medium"); ("pitch", "high")];
                CallPause "1s"; CallText content; CallPause "800ms";
                CallProsody ("Reporting, " +++ String c r)
                  [("rate", "slow"); ("volume", "soft")]]).
      fine_calls.
    + apply (chain_accepted
               [CallEmphasis "Breaking News:" "strong"; CallPause "500ms";
                CallProsody headline [("rate", "medium"); ("pitch", "high")];
                CallPause "1s"; CallText content]).
      fine_calls.
  - intros number [|c context].
    + apply (chain_accepted
               [CallText "The number is "; CallPause "300ms"; CallSayAs number "telephone";
                CallPause "500ms"; CallText "Again, that number is ";
                CallSayAs number "telephone"]).
      fine_calls.
    + apply (chain_accepted
               [CallText ("For " +++ String c context +++ ", please call ");
                CallPause "300ms"; CallSayAs number "telephone";
                CallPause "500ms"; CallText "Again, that number is ";
                CallSayAs number "telephone"]).
      fine_calls.
  - intros word [|c context].
    + apply (chain_accepted
               [CallText "That is spelled: "; CallPause "300ms"; CallSayAs word "spell-out";
                CallPause "500ms"; CallText "Again, "; CallSayAs word "spell-out"]).
      fine_calls.
    + apply (chain_accepted
               [CallText (String c context +++ " is spelled: ");
                CallPause "300ms"; CallSayAs word "spell-out";
                CallPause "500ms"; CallText "Again, "; CallSayAs word "spell-out"]).
      fine_calls.
  - intros title paragraphs useWhisper addBreaths dramaticPauses.
    assert (E : storytelling title paragraphs useWhisper addBreaths dramaticPauses
                = chain (applyCalls
                    ([CallEmphasis title "strong"; CallPause "2s"]
                     ++ storyCalls useWhisper addBreaths dramaticPauses
                          (List.length paragraphs) 0 paragraphs
                     ++ [CallPause "2s";
                         CallProsody "The end" [("rate", "slow"); ("pitch", "low")]]))).
    { unfold storytelling, chain. destruct (speak [] newBuilder) as [b|m]; [|reflexivity].
      now rewrite forEachParagraph_calls, !applyCalls_app. }
    rewrite E.
    apply (chain_accepted
             ([CallEmphasis title "strong"; CallPause "2s"]
              ++ storyCalls useWhisper addBreaths dramaticPauses (List.length paragraphs) 0
                   paragraphs
              ++ [CallPause "2s"; CallProsody "The end" [("rate", "slow"); ("pitch", "low")]])).
    apply Forall_app; split; [fine_calls|].
    apply Forall_app; split; [apply storyCalls_fine | fine_calls].
Qed.

(** X18. The template announcement passes the address of the music and
    the name of the voice to the builder as they are: when they hold no
    bracket and no double quote, it returns a document that the validator
    accepts without any error. *)
Theorem announcement_is_accepted (message : string) (musicUrl : option string)
  (voiceId : string) :
  every isSafeChar voiceId = true ->
  (forall u, musicUrl = Some u -> every isSafeChar u = true) ->
  accepted (announcement message musicUrl voiceId).
Proof.
  intros Hv Hu. destruct musicUrl as [[|c u]|].
  - apply (chain_accepted [CallVoice message voiceId; CallPause "2s"]).
    repeat constructor; cbn; try discriminate; try reflexivity; exact Hv.
  - apply (chain_accepted
             [CallAudio (String c u) EmptyString; CallVoice message voiceId; CallPause "2s"]).
    pose proof (Hu _ eq_refl) as Hu'.
    repeat constructor; cbn [fst snd]; try discriminate; try reflexivity;
      first [exact Hv | exact Hu'].
  - apply (chain_accepted [CallVoice message voiceId; CallPause "2s"]).
    repeat constructor; cbn; try discriminate; try reflexivity; exact Hv.
Qed.

Lemma announcement_is_accepted_witness :
  every isSafeChar "Matthew" = true /\
  (forall u, Some "https://example.com/a.mp3" = Some u -> every isSafeChar u = true) /\
  accepted (announcement "Doors close at nine" (Some "https://example.com/a.mp3") "Matthew").
Proof.
  assert (Hu : forall u, Some "https://example.com/a.mp3" = Some u ->
                         every isSafeChar u = true).
  { intros u E. injection E as <-. reflexivity. }
  split; [reflexivity|]. split; [exact Hu|].
  exact (announcement_is_accepted "Doors close at nine" (Some "https://example.com/a.mp3")
           "Matthew" eq_refl Hu).
Defined.

Example greeting_sample :
  greeting (fun _ => EmptyString) "Ann & Bob" "morning"
  = Returns ("<speak>Good morning, <emphasis level=" +++ quoted "moderate"
             +++ ">Ann &amp; Bob</emphasis><break time=" +++ quoted "300ms"
             +++ "/>Welcome!</speak>").
Proof. vm_compute. reflexivity. Qed.

End TemplateFacts.

(** ** More on the root tag and on attribute names *)
Module RootFacts.
Import JSString Regex Validator Spec Conformance Measures.
Import StringFacts RegexFacts ScanFacts ValidatorFacts ConformanceFacts MeasureFacts.

Lemma trimStart_suffix (s : string) : exists lead, s = lead +++ trimStart s.
Proof.
  induction s as [|c s (lead & IH)]; [now exists EmptyString|].
  cbn [trimStart]. destruct (isWhiteSpace c).
  - exists (String c lead). cbn [String.append]. now rewrite <- IH.
  - now exists EmptyString.
Qed.

Lemma trimEnd_prefix (s : string) : exists trail, s = trimEnd s +++ trail.
Proof.
  induction s as [|c s (trail & IH)]; [now exists EmptyString|].
  cbn [trimEnd]. destruct (trimEnd s) as [|b z] eqn:E.
  - destruct (isWhiteSpace c).
    + exists (String c s). reflexivity.
    + exists s. reflexivity.
  - exists trail. cbn [String.append] in *. now rewrite <- IH.
Qed.

Lemma substring_split (s : string) (n : nat) :
  n <= String.length s ->
  s = String.substring 0 n s +++ String.substring n (String.length s - n) s.
Proof.
  revert n. induction s as [|c s IH]; intros n H.
  - destruct n; reflexivity.
  - destruct n as [|n].
    + rewrite EscapeFacts.substring_zero, Nat.sub_0_r, substring_all. reflexivity.
    + cbn [String.substring String.append String.length Nat.sub]. f_equal.
      apply IH. simpl in H. lia.
Qed.

Lemma endsWith_split (x p : string) : endsWith x p = true -> exists z, x = z +++ p.
Proof.
  unfold endsWith. intros H. apply andb_prop in H as (L & E).
  apply Nat.leb_le in L. apply String.eqb_eq in E.
  exists (String.substring 0 (String.length x - String.length p) x).
  pose proof (substring_split x (String.length x - String.length p)) as S.
  replace (String.length x - (String.length x - String.length p))
    with (String.length p) in S by lia.
  rewrite E in S. apply S. lia.
Qed.

(** A place where the pattern matches is found by the scan, unless a
    match before it covers the place. *)
Lemma scan_finds (r : regex) (x s : string) :
  forall i,
    match_at r (i + String.length x) s <> None -> scan r 0 i (x +++ s) <> [].
Proof.
  induction x as [|a x IH]; intros i H.
  - cbn [String.length String.append] in *. rewrite Nat.add_0_r in H.
    destruct s as [|c s].
    + rewrite scan_end. destruct (match_at r i EmptyString); [discriminate | now elim H].
    + rewrite scan_step. destruct (match_at r i (String c s)); [discriminate | now elim H].
  - cbn [String.append]. rewrite scan_step.
    destruct (match_at r i (String a (x +++ s))); [discriminate|].
    apply IH. cbn [String.length] in H.
    now replace (S i + String.length x) with (i + S (String.length x)) by lia.
Qed.

Lemma closeSpeak_matches (i : nat) (s : string) :
  match_at speakCloseRegex i ("</speak>" +++ s) <> None.
Proof.
  unfold match_at.
  replace (run speakCloseRegex Some (MState i ("</speak>" +++ s) []))
    with (Some (MState (8 + i) s [])); [discriminate|].
  vm_compute. reflexivity.
Qed.

Lemma valid_has_one_root (ssml : string) :
  rootOk ssml ->
  List.length (matchAll speakOpenRegex ssml) = 1 /\
  List.length (matchAll speakCloseRegex ssml) = 1.
Proof.
  intros (_ & E & C & L).
  assert (N : matchAll speakCloseRegex ssml <> []).
  { apply endsWith_split in E as (z & E).
    destruct (trimStart_suffix ssml) as (lead & Hl).
    destruct (trimEnd_prefix (trimStart ssml)) as (trail & Ht).
    unfold trim in E. rewrite E in Ht. rewrite Ht in Hl.
    rewrite Hl. rewrite !append_assoc, <- append_assoc.
    unfold matchAll. apply scan_finds. apply closeSpeak_matches. }
  destruct (matchAll speakCloseRegex ssml) as [|m ms]; [now elim N|].
  simpl in C. split; simpl; lia.
Qed.

(** X12. A valid document has exactly one opening speak tag and exactly
    one closing speak tag. *)
Theorem valid_document_has_one_root (ssml : string) :
  exists r, validate ssml = Some r /\
            (valid r = true ->
             List.length (matchAll speakOpenRegex ssml) = 1 /\
             List.length (matchAll speakCloseRegex ssml) = 1).
Proof.
  eexists; split; [apply validate_messages|]. cbn [valid]. intros V.
  apply Nat.eqb_eq, length_zero_iff_nil in V.
  apply app_eq_nil in V as (V & _). apply basicErrors_nil in V.
  now apply valid_has_one_root.
Qed.

Lemma valid_document_has_one_root_witness :
  exists r, validate "<speak>hi</speak>" = Some r /\ valid r = true /\
            List.length (matchAll speakOpenRegex "<speak>hi</speak>") = 1 /\
            List.length (matchAll speakCloseRegex "<speak>hi</speak>") = 1.
Proof.
  destruct (valid_document_has_one_root "<speak>hi</speak>") as (r & H & I).
  exists r. split; [exact H|].
  assert (V : valid r = true) by (vm_compute in H; injection H as <-; reflexivity).
  split; [exact V | exact (I V)].
Defined.



End RootFacts.
